(** * ConsoleSensei-Cloud backend: scan orchestration and resource actions

    A shallow embedding of [backend/aws_resource_scanner.py],
    [backend/resource_manager.py] and the endpoints of [backend/api.py].

    Modelling conventions.
    - A Python exception is a value of [exn]; a computation is a function
      from a state to a result ([Ok] or [Raise]) and the state reached, so the
      state at the moment of a raise is kept (a [try] block keeps what the
      body did before it failed).
    - The cloud provider (boto3) is an oracle [aws]: it answers a request from
      the history of the requests made so far, with a response or with an
      exception.  Responses have the shapes of the boto3 documentation, every
      key being optional: [d['K']] raises [KeyError] when the key is absent,
      [d.get('K', x)] yields [x].
    - A Python float is an IEEE 754 binary64 number, Rocq's primitive
      [float]; [round(x, 2)] is the correctly rounded decimal rounding of
      CPython, and [sum] adds from left to right.
    - The body of a request is a JSON value, as [request.get_json()] decodes
      it.  The string methods of Python that follow the Unicode tables
      ([str.lower], [str.upper], [repr]) are parameters of the endpoints, and
      so is the executor on arguments that are neither strings nor [None].
    - The worker pool is run one task at a time in submission order; the
      order in which [as_completed] hands the futures back is a parameter. *)

From stdpp Require Import gmap strings list fin_maps numbers.
From Stdlib Require Import ZArith Floats Ascii Sorted.

Local Open Scope nat_scope.
Local Open Scope string_scope.
Local Open Scope list_scope.

(** ** Exceptions and results *)

Inductive exn :=
| ClientError (msg : string)      (* botocore.exceptions.ClientError *)
| BotoCoreError (msg : string)    (* connection, parameter validation, ... *)
| KeyError (key : string)
| IndexError (msg : string)
| TypeError (msg : string)
| AttributeError (msg : string)
| ValueError (msg : string)
| OverflowError (msg : string).

Definition is_ClientError (e : exn) : bool :=
  match e with ClientError _ => true | _ => false end.

Definition is_ValueError (e : exn) : bool :=
  match e with ValueError _ => true | _ => false end.

(** [str(e)] for the exceptions of the scanners and of the executor; a
    [KeyError] prints the [repr] of its key, and the keys looked up there
    are the field names written in the code, whose [repr] is the name
    between single quotes *)
Definition str_exn (e : exn) : string :=
  match e with
  | ClientError m | BotoCoreError m | IndexError m | TypeError m
  | AttributeError m | ValueError m | OverflowError m => m
  | KeyError k => "'" +:+ k +:+ "'"
  end.

Inductive res (A : Type) :=
| Ok (a : A)
| Raise (e : exn).
Arguments Ok {A} a.
Arguments Raise {A} e.

Definition is_Ok {A} (r : res A) : bool :=
  match r with Ok _ => true | Raise _ => false end.

(** ** The state and exception monad *)

Definition M (S A : Type) : Type := S -> res A * S.

Definition ret {S A} (a : A) : M S A := fun s => (Ok a, s).

Definition raise {S A} (e : exn) : M S A := fun s => (Raise e, s).

Definition bind {S A B} (m : M S A) (k : A -> M S B) : M S B :=
  fun s => match m s with
           | (Ok a, s') => k a s'
           | (Raise e, s') => (Raise e, s')
           end.

Notation "x <- m ;; k" := (bind m (fun x => k))
  (at level 100, m at next level, right associativity).
Notation "m ;;; k" := (bind m (fun _ => k))
  (at level 100, right associativity).

(** [try: body except <class> as e: handler(e)], the class given by a test *)
Definition try_except {S A} (body : M S A) (catches : exn -> bool)
    (handler : exn -> M S A) : M S A :=
  fun s => match body s with
           | (Ok a, s') => (Ok a, s')
           | (Raise e, s') => if catches e then handler e s' else (Raise e, s')
           end.

(** [except Exception] *)
Definition any_Exception (e : exn) : bool := true.

Definition get_state {S} : M S S := fun s => (Ok s, s).
Definition modify {S} (f : S -> S) : M S unit := fun s => (Ok tt, f s).

(** [for x in l: body(x)] *)
Fixpoint for_ {S A} (l : list A) (body : A -> M S unit) : M S unit :=
  match l with
  | [] => ret tt
  | x :: l' => body x ;;; for_ l' body
  end.

(** a computation on the inner state, run in a frame with local variables *)
Definition lift {L S A} (m : M S A) : M (L * S) A :=
  fun '(l, s) => match m s with (r, s') => (r, (l, s')) end.

(** [keeps P m]: running [m] keeps the property [P] of the local variables,
    whether it returns or raises *)
Definition keeps {L S A} (P : L -> Prop) (m : M (L * S) A) : Prop :=
  forall l s r l' s', m (l, s) = (r, (l', s')) -> P l -> P l'.

(** [d['key']] on a mapping whose key may be absent *)
Definition getitem {S A} (key : string) (field : option A) : M S A :=
  match field with
  | Some a => ret a
  | None => raise (KeyError key)
  end.

(** [l[0]] *)
Definition first_item {S A} (l : list A) : M S A :=
  match l with
  | x :: _ => ret x
  | [] => raise (IndexError "list index out of range")
  end.

(** ** Python values kept in [additional_metadata] *)

Inductive pyval :=
| PNone
| PBool (b : bool)
| PInt (z : Z)
| PFloat (f : float)
| PStr (s : string)
| PStrList (l : list string)
| PDict (d : gmap string string).

Definition opt_str (o : option string) : pyval :=
  match o with Some s => PStr s | None => PNone end.
Definition opt_int (o : option Z) : pyval :=
  match o with Some z => PInt z | None => PNone end.
Definition opt_bool (o : option bool) : pyval :=
  match o with Some b => PBool b | None => PNone end.

(** ** Data classes *)

Record ResourceMetadata := mkResourceMetadata {
  resource_id : string;
  resource_name : option string;
  resource_type : string;
  region : string;
  state : string;
  creation_date : option string;
  tags : gmap string string;
  estimated_cost_monthly : option float;
  additional_metadata : list (string * pyval)
}.

(** the constructor call every scanner makes: [estimated_cost_monthly] is not
    passed and takes the dataclass default [None] *)
Definition ResourceMetadata_ (resource_id : string) (resource_name : string)
    (resource_type region state : string) (creation_date : string)
    (tags : gmap string string) (additional_metadata : list (string * pyval))
    : ResourceMetadata :=
  mkResourceMetadata resource_id (Some resource_name) resource_type region state
    (Some creation_date) tags None additional_metadata.

Record Summary := mkSummary {
  total_resources : nat;
  by_type : gmap string nat;
  by_region : gmap string nat;
  by_state : gmap string nat
}.

(** the numbers of a cost summary: the int [0] (of [x or 0], of a new entry
    and of the empty [sum]; adding it to itself gives it again), or a float *)
Inductive number :=
| Int0
| Float (f : float).

Record CostSummary := mkCostSummary {
  estimated_monthly_total : number;
  by_resource_type : gmap string number
}.

(** an entry of the error list: [{'type': ..., 'message': ...}] *)
Record ScanError := mkScanError {
  error_type : string;
  error_message : string
}.

Record ScanResult := mkScanResult {
  timestamp : string;
  regions_scanned : list string;
  resources : list ResourceMetadata;
  errors : list ScanError;
  summary : Summary;
  cost_summary : CostSummary
}.

Record DeleteResult := mkDeleteResult {
  success : bool;
  dr_resource_id : option string;
  dr_resource_type : option string;
  action : string;
  message : string;
  verification_status : string;
  error : option string
}.

(** ** Aggregation: [_build_summary] and [_build_cost_summary] *)

(** [d[k] = d.get(k, 0) + 1] *)
Definition count_incr (d : gmap string nat) (k : string) : gmap string nat :=
  <[k := default 0 (d !! k) + 1]> d.

Definition summary_step (acc : gmap string nat * gmap string nat * gmap string nat)
    (resource : ResourceMetadata) :=
  let '(resource_type_count, region_count, state_count) := acc in
  (count_incr resource_type_count (resource_type resource),
   count_incr region_count (region resource),
   count_incr state_count (state resource)).

Definition _build_summary (resources : list ResourceMetadata) : Summary :=
  let '(resource_type_count, region_count, state_count) :=
    foldl summary_step (∅, ∅, ∅) resources in
  {| total_resources := length resources;
     by_type := resource_type_count;
     by_region := region_count;
     by_state := state_count |}.

(** the sum of the values of a frequency table *)
Definition values_sum (d : gmap string nat) : nat :=
  map_fold (fun _ v acc => v + acc) 0 d.

(** *** Floats *)

(** [n / d] rounded to the nearest integer, ties to even ([0 <= n], [0 < d]) *)
Definition div_half_even (n d : Z) : Z :=
  let q := (n / d)%Z in
  let r := (n mod d)%Z in
  if (2 * r <? d)%Z then q
  else if (d <? 2 * r)%Z then (q + 1)%Z
  else if Z.even q then q else (q + 1)%Z.

(** [float(n)] for [0 <= n < 2**53], where it is exact *)
Definition float_of_Z (n : Z) : float := PrimFloat.of_uint63 (Uint63.of_Z n).

(** [round(x, 2)] on a float: the exact value [m * 2**e] of [x] is rounded
    to a multiple of 1/100, ties to even, and the result is the float
    nearest to that decimal; zeros, infinities and nan round to themselves.
    From [2**53 / 100] on, a float is its own rounding: its neighbours are
    further than 0.005 away. *)
Definition round2 (x : float) : float :=
  match Prim2SF x with
  | S754_finite s m e =>
      let n := if (0 <=? e)%Z then (Zpos m * 2 ^ e * 100)%Z
               else div_half_even (Zpos m * 100) (2 ^ (- e)) in
      let r := if (n <? 2 ^ 53)%Z then (float_of_Z n / 100)%float else abs x in
      if s then (- r)%float else r
  | _ => x
  end.

(** [bool(x)]: every float but the two zeros *)
Definition float_truthy (x : float) : bool := negb (x =? 0)%float.

(** [float(n)] of a number *)
Definition to_float (n : number) : float :=
  match n with
  | Int0 => 0%float
  | Float f => f
  end.

(** [a + b] *)
Definition number_add (a b : number) : number :=
  match a, b with
  | Int0, Int0 => Int0
  | _, _ => Float (to_float a + to_float b)
  end.

(** [round(n, 2)]: an int is its own rounding *)
Definition number_round2 (n : number) : number :=
  match n with
  | Int0 => Int0
  | Float f => Float (round2 f)
  end.

(** [r.estimated_cost_monthly or 0] *)
Definition cost_or_0 (r : ResourceMetadata) : number :=
  match estimated_cost_monthly r with
  | Some c => if float_truthy c then Float c else Int0
  | None => Int0
  end.

(** [sum(r.estimated_cost_monthly or 0 for r in resources)]: the builtin
    starts from the int [0] and adds the items from left to right (CPython
    up to 3.11; later versions carry a compensation term along) *)
Definition sum_costs (resources : list ResourceMetadata) : number :=
  foldl (fun acc r => number_add acc (cost_or_0 r)) Int0 resources.

Definition cost_step (by_type : gmap string number) (resource : ResourceMetadata)
    : gmap string number :=
  let by_type :=
    match by_type !! resource_type resource with
    | None => <[resource_type resource := Int0]> by_type
    | Some _ => by_type
    end in
  <[resource_type resource :=
      number_add (default Int0 (by_type !! resource_type resource))
        (cost_or_0 resource)]>
    by_type.

Definition _build_cost_summary (resources : list ResourceMetadata) : CostSummary :=
  let total_monthly := sum_costs resources in
  let by_type := foldl cost_step ∅ resources in
  {| estimated_monthly_total := number_round2 total_monthly;
     by_resource_type := number_round2 <$> by_type |}.

(** the records of one kind, in list order *)
Definition of_kind (k : string) (rs : list ResourceMetadata) :=
  filter (fun r => resource_type r = k) rs.

(** two resources of different kinds, each costing 0.004 a month *)
Definition two_cheap_kinds : list ResourceMetadata :=
  [ mkResourceMetadata "i-1" (Some "a") "EC2_Instance" "us-east-1" "running"
      None ∅ (Some 0x1.0624dd2f1a9fcp-8%float) [];
    mkResourceMetadata "vol-1" (Some "b") "EBS_Volume" "us-east-1" "in-use"
      None ∅ (Some 0x1.0624dd2f1a9fcp-8%float) [] ].

(** two resources of one kind, costing 0.001 and 0.014 a month *)
Definition two_small_costs : list ResourceMetadata :=
  [ mkResourceMetadata "i-1" (Some "a") "EC2_Instance" "us-east-1" "running"
      None ∅ (Some 0x1.0624dd2f1a9fcp-10%float) [];
    mkResourceMetadata "i-2" (Some "b") "EC2_Instance" "us-east-1" "running"
      None ∅ (Some 0x1.cac083126e979p-7%float) [] ].

(** the tolerance of a floating-point comparison: 1e-09 *)
Definition float_tolerance : float := 0x1.12e0be826d695p-30%float.

(** ** Provider responses

    The shapes of the boto3 responses the code reads.  Every key is optional;
    a timestamp is a [datetime], of which only [isoformat()] is used. *)

Record datetime := mkDatetime { isoformat : string }.

(** a paginator: the pages it yields, then the failure that ends the
    iteration, if any *)
Definition paged (A : Type) : Type := list A * option exn.

Module Tag.
Record t := mk { Key : option string; Value : option string }.
End Tag.

Module Region.
Record t := mk { RegionName : option string }.
End Region.

Module DescribeRegions.
Record t := mk { Regions : option (list Region.t) }.
End DescribeRegions.

Module InstanceState.
Record t := mk { Name : option string }.
End InstanceState.

Module Instance.
Record t := mk {
  InstanceId : option string;
  Tags : option (list Tag.t);
  State : option InstanceState.t;
  LaunchTime : option datetime;
  InstanceType : option string;
  VpcId : option string;
  SubnetId : option string;
  PublicIpAddress : option string;
  PrivateIpAddress : option string
}.
End Instance.

Module Reservation.
Record t := mk { Instances : option (list Instance.t) }.
End Reservation.

Module DescribeInstances.
Record t := mk { Reservations : option (list Reservation.t) }.
End DescribeInstances.

Module Attachment.
Record t := mk { InstanceId : option string }.
End Attachment.

Module Volume.
Record t := mk {
  VolumeId : option string;
  Tags : option (list Tag.t);
  State : option string;
  CreateTime : option datetime;
  Size : option Z;
  VolumeType : option string;
  Iops : option Z;
  Attachments : option (list Attachment.t)
}.
End Volume.

Module DescribeVolumes.
Record t := mk { Volumes : option (list Volume.t) }.
End DescribeVolumes.

Module Address.
Record t := mk {
  AllocationId : option string;
  Tags : option (list Tag.t);
  PublicIp : option string;
  AssociationId : option string;
  PublicIpOwnerId : option string;
  InstanceId : option string;
  NetworkInterfaceId : option string
}.
End Address.

Module DescribeAddresses.
Record t := mk { Addresses : option (list Address.t) }.
End DescribeAddresses.

Module NatGatewayAddress.
Record t := mk { AllocationId : option string; PublicIp : option string }.
End NatGatewayAddress.

Module NatGateway.
Record t := mk {
  NatGatewayId : option string;
  Tags : option (list Tag.t);
  State : option string;
  CreateTime : option datetime;
  SubnetId : option string;
  NatGatewayAddresses : option (list NatGatewayAddress.t)
}.
End NatGateway.

Module DescribeNatGateways.
Record t := mk { NatGateways : option (list NatGateway.t) }.
End DescribeNatGateways.

Module Bucket.
Record t := mk { Name : option string; CreationDate : option datetime }.
End Bucket.

Module ListBuckets.
Record t := mk { Buckets : option (list Bucket.t) }.
End ListBuckets.

Module GetBucketLocation.
(* the key may be absent; its value may be None *)
Record t := mk { LocationConstraint : option (option string) }.
End GetBucketLocation.

Module GetBucketTagging.
Record t := mk { TagSet : option (list Tag.t) }.
End GetBucketTagging.

Module Datapoint.
Record t := mk { Average : option float }.
End Datapoint.

Module GetMetricStatistics.
Record t := mk { Datapoints : option (list Datapoint.t) }.
End GetMetricStatistics.

Module DBInstance.
Record t := mk {
  DBInstanceArn : option string;
  DBInstanceIdentifier : option string;
  DBInstanceStatus : option string;
  InstanceCreateTime : option datetime;
  Engine : option string;
  DBInstanceClass : option string;
  AllocatedStorage : option Z;
  MultiAZ : option bool
}.
End DBInstance.

Module DescribeDBInstances.
Record t := mk { DBInstances : option (list DBInstance.t) }.
End DescribeDBInstances.

Module ListTagsForResource.
Record t := mk { TagList : option (list Tag.t) }.
End ListTagsForResource.

Module Function.
Record t := mk {
  FunctionArn : option string;
  FunctionName : option string;
  LastModified : option string;
  Runtime : option string;
  Handler : option string;
  MemorySize : option Z;
  Timeout : option Z;
  CodeSize : option Z
}.
End Function.

Module ListFunctions.
Record t := mk { Functions : option (list Function.t) }.
End ListFunctions.

Module ListTags.
Record t := mk { Tags : option (gmap string string) }.
End ListTags.

Module LoadBalancerState.
Record t := mk { Code : option string }.
End LoadBalancerState.

Module LoadBalancer.
Record t := mk {
  LoadBalancerArn : option string;
  LoadBalancerName : option string;
  State : option LoadBalancerState.t;
  CreatedTime : option datetime;
  Type_ : option string;
  Scheme : option string;
  DNSName : option string;
  VpcId : option string
}.
End LoadBalancer.

Module DescribeLoadBalancers.
Record t := mk { LoadBalancers : option (list LoadBalancer.t) }.
End DescribeLoadBalancers.

Module TagDescription.
Record t := mk { Tags : option (list Tag.t) }.
End TagDescription.

Module DescribeTags.
Record t := mk { TagDescriptions : option (list TagDescription.t) }.
End DescribeTags.

Module LogGroup.
Record t := mk {
  logGroupName : option string;
  creationTime : option Z;
  retentionInDays : option Z;
  tags : option (gmap string string);
  storedBytes : option Z
}.
End LogGroup.

Module DescribeLogGroups.
Record t := mk { logGroups : option (list LogGroup.t) }.
End DescribeLogGroups.

Module User.
Record t := mk {
  UserId : option string;
  UserName : option string;
  CreateDate : option datetime;
  Arn : option string
}.
End User.

Module ListUsers.
Record t := mk { Users : option (list User.t) }.
End ListUsers.

Module Role.
Record t := mk {
  RoleId : option string;
  RoleName : option string;
  CreateDate : option datetime;
  Arn : option string
}.
End Role.

Module ListRoles.
Record t := mk { Roles : option (list Role.t) }.
End ListRoles.

Module IamTags.
Record t := mk { Tags : option (list Tag.t) }.
End IamTags.

Module ListObjectsV2.
(* only the presence of the key ['Contents'] is read *)
Record t := mk { has_Contents : bool }.
End ListObjectsV2.

(** ** Requests *)

(** a client handle, made by [session.client(service, region_name=region)] *)
Record client := mkClient { service : string; client_region : string }.

(** the operations called on a client, with the arguments the code passes;
    an identifier passed on from a caller may be [None] *)
Module Op.
Inductive t :=
| describe_regions
| describe_instances (InstanceIds : option (list (option string)))
| describe_volumes (VolumeIds : option (list (option string)))
| describe_addresses (AllocationIds : option (list (option string)))
| describe_nat_gateways (NatGatewayIds : option (list (option string)))
| list_buckets
| get_bucket_location (Bucket : string)
| get_bucket_tagging (Bucket : string)
| get_metric_statistics (BucketName : string)
| describe_db_instances (DBInstanceIdentifier : option (option string))
| list_tags_for_resource (ResourceName : string)
| paginate_list_functions
| list_tags (Resource : string)
| describe_load_balancers
| describe_tags (ResourceArn : string)
| paginate_describe_log_groups
| paginate_list_users
| list_user_tags (UserName : string)
| paginate_list_roles
| list_role_tags (RoleName : string)
| stop_instances (InstanceId : option string)
| stop_db_instance (DBInstanceIdentifier : option string)
| delete_nat_gateway (NatGatewayId : option string)
| release_address (AllocationId : option string)
| delete_volume (VolumeId : option string)
| list_objects_v2 (Bucket : option string)
| delete_bucket (Bucket : option string).

Definition response (op : t) : Type :=
  match op with
  | describe_regions => DescribeRegions.t
  | describe_instances _ => DescribeInstances.t
  | describe_volumes _ => DescribeVolumes.t
  | describe_addresses _ => DescribeAddresses.t
  | describe_nat_gateways _ => DescribeNatGateways.t
  | list_buckets => ListBuckets.t
  | get_bucket_location _ => GetBucketLocation.t
  | get_bucket_tagging _ => GetBucketTagging.t
  | get_metric_statistics _ => GetMetricStatistics.t
  | describe_db_instances _ => DescribeDBInstances.t
  | list_tags_for_resource _ => ListTagsForResource.t
  | paginate_list_functions => paged ListFunctions.t
  | list_tags _ => ListTags.t
  | describe_load_balancers => DescribeLoadBalancers.t
  | describe_tags _ => DescribeTags.t
  | paginate_describe_log_groups => paged DescribeLogGroups.t
  | paginate_list_users => paged ListUsers.t
  | list_user_tags _ => IamTags.t
  | paginate_list_roles => paged ListRoles.t
  | list_role_tags _ => IamTags.t
  | stop_instances _ | stop_db_instance _ | delete_nat_gateway _
  | release_address _ | delete_volume _ | delete_bucket _ => unit
  | list_objects_v2 _ => ListObjectsV2.t
  end.

(** the operations that change a resource *)
Definition is_mutation (op : t) : bool :=
  match op with
  | stop_instances _ | stop_db_instance _ | delete_nat_gateway _
  | release_address _ | delete_volume _ | delete_bucket _ => true
  | _ => false
  end.
End Op.

Inductive request :=
| NewClient (service region : string)
| Call (c : client) (op : Op.t).

Definition response (r : request) : Type :=
  match r with
  | NewClient _ _ => unit
  | Call _ op => Op.response op
  end.

Definition is_mutation (r : request) : bool :=
  match r with
  | NewClient _ _ => false
  | Call _ op => Op.is_mutation op
  end.

(** the environment of a run: the provider, which answers a request from the
    requests made before it, and the clock *)
Record Env := mkEnv {
  aws : list request -> forall r : request, res (response r);
  (* datetime.fromtimestamp(ms / 1000).isoformat() *)
  fromtimestamp_isoformat : Z -> res string;
  (* datetime.utcnow().isoformat() *)
  utcnow_isoformat : string
}.

(** ** Session management: [AWSSessionManager] *)

(** a reference to a string object *)
Definition loc := nat.

(** [boto3.Session(...)]: it keeps the references it was given *)
Record Session := mkSession {
  aws_access_key_id : loc;
  aws_secret_access_key : loc;
  region_name : string
}.

Record AWSSessionManager := mkAWSSessionManager {
  sm_region : string;
  _access_key : option loc;
  _secret_key : option loc;
  _session : option Session;
  _clients : gmap string client
}.

(** the world of a run: the string objects that hold the credentials, the
    session manager and the requests made to the provider so far *)
Record world := mkWorld {
  heap : gmap loc string;
  session : AWSSessionManager;
  history : list request
}.

Definition set_session (f : AWSSessionManager -> AWSSessionManager) (st : world) : world :=
  mkWorld (heap st) (f (session st)) (history st).

(** truth value of an optional string: [None] and [''] are false *)
Definition truthy (o : option string) : bool :=
  match o with
  | Some s => negb (String.eqb s EmptyString)
  | None => false
  end.

(** [a or b] on an optional string and a string *)
Definition or_else (a : option string) (b : string) : string :=
  match a with
  | Some (String c s) => String c s
  | Some EmptyString | None => b
  end.

(** [AWSSessionManager(access_key_id, secret_access_key, region)]; the call
    [boto3.Session(...)] only stores its arguments *)
Definition AWSSessionManager_init (h : gmap loc string)
    (access_key_id secret_access_key : loc) (region : string)
    : res AWSSessionManager :=
  if negb (truthy (h !! access_key_id)) || negb (truthy (h !! secret_access_key))
  then Raise (ValueError "AWS credentials cannot be empty")
  else Ok {| sm_region := region;
             _access_key := Some access_key_id;
             _secret_key := Some secret_access_key;
             _session := Some (mkSession access_key_id secret_access_key region);
             _clients := ∅ |}.

Definition fallback_regions : list string :=
  [ "us-east-1"; "us-east-2"; "us-west-1"; "us-west-2";
    "eu-west-1"; "eu-central-1"; "ap-southeast-1"; "ap-northeast-1" ].

(** [sorted(regions)] on strings *)
Fixpoint insert_sorted (x : string) (l : list string) : list string :=
  match l with
  | [] => [x]
  | y :: l' => if String.leb x y then x :: l else y :: insert_sorted x l'
  end.

Definition sorted (l : list string) : list string :=
  foldr insert_sorted [] l.

Section Session.

Context (E : Env).

(** a request to the provider: answered from the history, then recorded *)
Definition request_ (r : request) : M world (response r) :=
  fun st => (aws E (history st) r,
             mkWorld (heap st) (session st) (history st ++ [r])).

Definition call (c : client) (op : Op.t) : M world (Op.response op) :=
  request_ (Call c op).

(** [get_client(service, region)] *)
Definition get_client (service : string) (region : option string)
    : M world client :=
  st <- get_state ;;
  let region := or_else region (sm_region (session st)) in
  let cache_key := service +:+ "_" +:+ region in
  match _clients (session st) !! cache_key with
  | Some c => ret c
  | None =>
      match _session (session st) with
      | None => raise (AttributeError
                  "'NoneType' object has no attribute 'client'")
      | Some _ =>
          request_ (NewClient service region) ;;;
          modify (set_session (fun sm =>
            mkAWSSessionManager (sm_region sm) (_access_key sm) (_secret_key sm)
              (_session sm) (<[cache_key := mkClient service region]> (_clients sm)))) ;;;
          ret (mkClient service region)
      end
  end.

(** [[r['RegionName'] for r in response['Regions']]] *)
Fixpoint region_names (l : list Region.t) : M world (list string) :=
  match l with
  | [] => ret []
  | r :: l' =>
      n <- getitem "RegionName" (Region.RegionName r) ;;
      ns <- region_names l' ;;
      ret (n :: ns)
  end.

Definition get_regions : M world (list string) :=
  try_except
    (st <- get_state ;;
     ec2 <- get_client "ec2" (Some (sm_region (session st))) ;;
     response <- call ec2 Op.describe_regions ;;
     Regions <- getitem "Regions" (DescribeRegions.Regions response) ;;
     regions <- region_names Regions ;;
     ret (sorted regions))
    is_ClientError
    (fun e => ret fallback_regions).

(** [cleanup()]: the attributes are rebound; no string object is written *)
Definition cleanup : M world unit :=
  modify (set_session (fun sm =>
    mkAWSSessionManager (sm_region sm) None None None ∅)).

End Session.

(** ** Resource scanners *)

(** the frame of a scanner method: its local list [resources], and the world *)
Definition frame : Type := list ResourceMetadata * world.

(** [resources.append(resource)] *)
Definition append (resource : ResourceMetadata) : M frame unit :=
  modify (fun '(rs, w) => (rs ++ [resource], w)).

(** the skeleton shared by all scanner methods:
[[
    resources = []
    try:
        <body>
    except ClientError as e:
        logger.warning(...)
    return resources
]] *)
Definition scanner (body : M frame unit) : M world (list ResourceMetadata) :=
  fun w =>
    match try_except body is_ClientError (fun e => ret tt) ([], w) with
    | (Ok _, (rs, w')) => (Ok rs, w')
    | (Raise e, (_, w')) => (Raise e, w')
    end.

(** [{t['Key']: t['Value'] for t in l}], a later tag replacing an earlier one *)
Fixpoint tags_dict {S} (l : list Tag.t) (acc : gmap string string)
    : M S (gmap string string) :=
  match l with
  | [] => ret acc
  | t :: l' =>
      k <- getitem "Key" (Tag.Key t) ;;
      v <- getitem "Value" (Tag.Value t) ;;
      tags_dict l' (<[k := v]> acc)
  end.

(** [for page in paginator.paginate(): body(page)] *)
Definition for_pages {S A} (pages : paged A) (body : A -> M S unit) : M S unit :=
  for_ (fst pages) body ;;;
  match snd pages with
  | Some e => raise e
  | None => ret tt
  end.

(** [[a['InstanceId'] for a in l]] *)
Fixpoint attachment_ids {S} (l : list Attachment.t) : M S (list string) :=
  match l with
  | [] => ret []
  | a :: l' =>
      i <- getitem "InstanceId" (Attachment.InstanceId a) ;;
      is_ <- attachment_ids l' ;;
      ret (i :: is_)
  end.

(** [[
    tags = {}
    for tag_desc in l:
        tags = {t['Key']: t['Value'] for t in tag_desc.get('Tags', [])}
]] *)
Fixpoint tag_descriptions_tags {S} (l : list TagDescription.t)
    (tags : gmap string string) : M S (gmap string string) :=
  match l with
  | [] => ret tags
  | tag_desc :: l' =>
      tags <- tags_dict (default [] (TagDescription.Tags tag_desc)) ∅ ;;
      tag_descriptions_tags l' tags
  end.

(** a result computed outside the state *)
Definition of_res {S A} (r : res A) : M S A := fun s => (r, s).

(** [1024**3], as the float it is divided by *)
Definition GiB : float := 0x1p30%float.

Section Scanners.

Context (E : Env).

(** the [try] block of [EC2Scanner_scan_instances] *)
Definition EC2Scanner_scan_instances_try (region : string) : M frame unit :=
  ec2 <- lift (get_client E "ec2" (Some region)) ;;
  response <- lift (call E ec2 (Op.describe_instances None)) ;;
  for_ (default [] (DescribeInstances.Reservations response)) (fun reservation =>
    for_ (default [] (Reservation.Instances reservation)) (fun instance =>
      tags <- tags_dict (default [] (Instance.Tags instance)) ∅ ;;
      InstanceId <- getitem "InstanceId" (Instance.InstanceId instance) ;;
      State <- getitem "State" (Instance.State instance) ;;
      Name <- getitem "Name" (InstanceState.Name State) ;;
      LaunchTime <- getitem "LaunchTime" (Instance.LaunchTime instance) ;;
      append (ResourceMetadata_ InstanceId (default "Unnamed" (tags !! "Name"))
        "EC2_Instance" region Name (isoformat LaunchTime) tags
        [ ("instance_type", opt_str (Instance.InstanceType instance));
          ("vpc_id", opt_str (Instance.VpcId instance));
          ("subnet_id", opt_str (Instance.SubnetId instance));
          ("public_ip", opt_str (Instance.PublicIpAddress instance));
          ("private_ip", opt_str (Instance.PrivateIpAddress instance)) ]))).

Definition EC2Scanner_scan_instances (region : string)
    : M world (list ResourceMetadata) :=
  scanner (EC2Scanner_scan_instances_try region).

(** the [try] block of [EC2Scanner_scan_volumes] *)
Definition EC2Scanner_scan_volumes_try (region : string) : M frame unit :=
  ec2 <- lift (get_client E "ec2" (Some region)) ;;
  response <- lift (call E ec2 (Op.describe_volumes None)) ;;
  for_ (default [] (DescribeVolumes.Volumes response)) (fun volume =>
    tags <- tags_dict (default [] (Volume.Tags volume)) ∅ ;;
    VolumeId <- getitem "VolumeId" (Volume.VolumeId volume) ;;
    State <- getitem "State" (Volume.State volume) ;;
    CreateTime <- getitem "CreateTime" (Volume.CreateTime volume) ;;
    Size <- getitem "Size" (Volume.Size volume) ;;
    VolumeType <- getitem "VolumeType" (Volume.VolumeType volume) ;;
    attached_to <- attachment_ids (default [] (Volume.Attachments volume)) ;;
    append (ResourceMetadata_ VolumeId (default "Unnamed" (tags !! "Name"))
      "EBS_Volume" region State (isoformat CreateTime) tags
      [ ("size_gb", PInt Size);
        ("volume_type", PStr VolumeType);
        ("iops", opt_int (Volume.Iops volume));
        ("attached_to", PStrList attached_to) ])).

Definition EC2Scanner_scan_volumes (region : string)
    : M world (list ResourceMetadata) :=
  scanner (EC2Scanner_scan_volumes_try region).

(** the [try] block of [EC2Scanner_scan_elastic_ips] *)
Definition EC2Scanner_scan_elastic_ips_try (region : string) : M frame unit :=
  ec2 <- lift (get_client E "ec2" (Some region)) ;;
  response <- lift (call E ec2 (Op.describe_addresses None)) ;;
  for_ (default [] (DescribeAddresses.Addresses response)) (fun address =>
    tags <- tags_dict (default [] (Address.Tags address)) ∅ ;;
    AllocationId <- getitem "AllocationId" (Address.AllocationId address) ;;
    PublicIp <- getitem "PublicIp" (Address.PublicIp address) ;;
    PublicIpOwnerId <- getitem "PublicIpOwnerId" (Address.PublicIpOwnerId address) ;;
    append (ResourceMetadata_ AllocationId (default PublicIp (tags !! "Name"))
      "Elastic_IP" region
      (match Address.AssociationId address with
       | Some _ => "associated"
       | None => "unassociated"
       end)
      PublicIpOwnerId tags
      [ ("public_ip", PStr PublicIp);
        ("associated_instance", opt_str (Address.InstanceId address));
        ("associated_eni", opt_str (Address.NetworkInterfaceId address)) ])).

Definition EC2Scanner_scan_elastic_ips (region : string)
    : M world (list ResourceMetadata) :=
  scanner (EC2Scanner_scan_elastic_ips_try region).

(** the [try] block of [S3Scanner_scan_buckets] *)
Definition S3Scanner_scan_buckets_try : M frame unit :=
  s3 <- lift (get_client E "s3" (Some "us-east-1")) ;;
  response <- lift (call E s3 Op.list_buckets) ;;
  for_ (default [] (ListBuckets.Buckets response)) (fun bucket =>
    (* Get bucket region *)
    bucket_region <-
      try_except
        (Name <- getitem "Name" (Bucket.Name bucket) ;;
         region_resp <- lift (call E s3 (Op.get_bucket_location Name)) ;;
         LocationConstraint <- getitem "LocationConstraint"
           (GetBucketLocation.LocationConstraint region_resp) ;;
         ret (or_else LocationConstraint "us-east-1"))
        is_ClientError (fun _ => ret "unknown") ;;
    (* Get bucket tags *)
    tags <-
      try_except
        (Name <- getitem "Name" (Bucket.Name bucket) ;;
         tags_resp <- lift (call E s3 (Op.get_bucket_tagging Name)) ;;
         tags_dict (default [] (GetBucketTagging.TagSet tags_resp)) ∅)
        is_ClientError (fun _ => ret ∅) ;;
    (* Get bucket size *)
    size_bytes <-
      try_except
        (cloudwatch <- lift (get_client E "cloudwatch" (Some "us-east-1")) ;;
         Name <- getitem "Name" (Bucket.Name bucket) ;;
         metric_resp <- lift (call E cloudwatch (Op.get_metric_statistics Name)) ;;
         Datapoints <- getitem "Datapoints"
           (GetMetricStatistics.Datapoints metric_resp) ;;
         match Datapoints with
         | [] => ret None
         | d :: _ =>
             Average <- getitem "Average" (Datapoint.Average d) ;;
             ret (Some Average)
         end)
        is_ClientError (fun _ => ret None) ;;
    Name <- getitem "Name" (Bucket.Name bucket) ;;
    CreationDate <- getitem "CreationDate" (Bucket.CreationDate bucket) ;;
    append (ResourceMetadata_ Name Name "S3_Bucket" bucket_region "active"
      (isoformat CreationDate) tags
      [ ("size_bytes",
         match size_bytes with Some a => PFloat a | None => PInt 0 end);
        ("size_gb", PFloat (round2 (default 0%float size_bytes / GiB)%float)) ])).

Definition S3Scanner_scan_buckets
    : M world (list ResourceMetadata) :=
  scanner (S3Scanner_scan_buckets_try).

(** the [try] block of [RDSScanner_scan_instances] *)
Definition RDSScanner_scan_instances_try (region : string) : M frame unit :=
  rds <- lift (get_client E "rds" (Some region)) ;;
  response <- lift (call E rds (Op.describe_db_instances None)) ;;
  for_ (default [] (DescribeDBInstances.DBInstances response)) (fun instance =>
    DBInstanceArn <- getitem "DBInstanceArn" (DBInstance.DBInstanceArn instance) ;;
    tags_resp <- lift (call E rds (Op.list_tags_for_resource DBInstanceArn)) ;;
    tags <- tags_dict (default [] (ListTagsForResource.TagList tags_resp)) ∅ ;;
    DBInstanceIdentifier <- getitem "DBInstanceIdentifier"
      (DBInstance.DBInstanceIdentifier instance) ;;
    DBInstanceStatus <- getitem "DBInstanceStatus"
      (DBInstance.DBInstanceStatus instance) ;;
    InstanceCreateTime <- getitem "InstanceCreateTime"
      (DBInstance.InstanceCreateTime instance) ;;
    append (ResourceMetadata_ DBInstanceIdentifier DBInstanceIdentifier
      "RDS_Instance" region DBInstanceStatus (isoformat InstanceCreateTime) tags
      [ ("engine", opt_str (DBInstance.Engine instance));
        ("instance_class", opt_str (DBInstance.DBInstanceClass instance));
        ("allocated_storage_gb", opt_int (DBInstance.AllocatedStorage instance));
        ("multi_az", opt_bool (DBInstance.MultiAZ instance)) ])).

Definition RDSScanner_scan_instances (region : string)
    : M world (list ResourceMetadata) :=
  scanner (RDSScanner_scan_instances_try region).

(** the [try] block of [LambdaScanner_scan_functions] *)
Definition LambdaScanner_scan_functions_try (region : string) : M frame unit :=
  lambda_client <- lift (get_client E "lambda" (Some region)) ;;
  pages <- lift (call E lambda_client Op.paginate_list_functions) ;;
  for_pages pages (fun page =>
    for_ (default [] (ListFunctions.Functions page)) (fun function =>
      (* Get function tags *)
      tags <-
        try_except
          (FunctionArn <- getitem "FunctionArn" (Function.FunctionArn function) ;;
           tags_resp <- lift (call E lambda_client (Op.list_tags FunctionArn)) ;;
           ret (default ∅ (ListTags.Tags tags_resp)))
          is_ClientError (fun _ => ret ∅) ;;
      FunctionArn <- getitem "FunctionArn" (Function.FunctionArn function) ;;
      FunctionName <- getitem "FunctionName" (Function.FunctionName function) ;;
      LastModified <- getitem "LastModified" (Function.LastModified function) ;;
      append (ResourceMetadata_ FunctionArn FunctionName "Lambda_Function"
        region "active" LastModified tags
        [ ("runtime", opt_str (Function.Runtime function));
          ("handler", opt_str (Function.Handler function));
          ("memory_mb", opt_int (Function.MemorySize function));
          ("timeout_sec", opt_int (Function.Timeout function));
          ("code_size_bytes", opt_int (Function.CodeSize function)) ]))).

Definition LambdaScanner_scan_functions (region : string)
    : M world (list ResourceMetadata) :=
  scanner (LambdaScanner_scan_functions_try region).

(** the [try] block of [ELBScanner_scan_load_balancers] *)
Definition ELBScanner_scan_load_balancers_try (region : string) : M frame unit :=
  elbv2 <- lift (get_client E "elbv2" (Some region)) ;;
  response <- lift (call E elbv2 Op.describe_load_balancers) ;;
  for_ (default [] (DescribeLoadBalancers.LoadBalancers response)) (fun lb =>
    (* Get tags *)
    tags <-
      try_except
        (LoadBalancerArn <- getitem "LoadBalancerArn"
           (LoadBalancer.LoadBalancerArn lb) ;;
         tags_resp <- lift (call E elbv2 (Op.describe_tags LoadBalancerArn)) ;;
         tag_descriptions_tags
           (default [] (DescribeTags.TagDescriptions tags_resp)) ∅)
        is_ClientError (fun _ => ret ∅) ;;
    LoadBalancerArn <- getitem "LoadBalancerArn" (LoadBalancer.LoadBalancerArn lb) ;;
    LoadBalancerName <- getitem "LoadBalancerName"
      (LoadBalancer.LoadBalancerName lb) ;;
    State <- getitem "State" (LoadBalancer.State lb) ;;
    Code <- getitem "Code" (LoadBalancerState.Code State) ;;
    CreatedTime <- getitem "CreatedTime" (LoadBalancer.CreatedTime lb) ;;
    append (ResourceMetadata_ LoadBalancerArn LoadBalancerName "Load_Balancer"
      region Code (isoformat CreatedTime) tags
      [ ("type", opt_str (LoadBalancer.Type_ lb));
        ("scheme", opt_str (LoadBalancer.Scheme lb));
        ("dns_name", opt_str (LoadBalancer.DNSName lb));
        ("vpc_id", opt_str (LoadBalancer.VpcId lb)) ])).

Definition ELBScanner_scan_load_balancers (region : string)
    : M world (list ResourceMetadata) :=
  scanner (ELBScanner_scan_load_balancers_try region).

(** the [try] block of [CloudWatchLogsScanner_scan_log_groups] *)
Definition CloudWatchLogsScanner_scan_log_groups_try (region : string) : M frame unit :=
  logs <- lift (get_client E "logs" (Some region)) ;;
  pages <- lift (call E logs Op.paginate_describe_log_groups) ;;
  for_pages pages (fun page =>
    for_ (default [] (DescribeLogGroups.logGroups page)) (fun log_group =>
      (* Get log group retention *)
      let retention_days :=
        match LogGroup.retentionInDays log_group with
        | Some d => PInt d
        | None => PStr "Never expire"
        end in
      logGroupName <- getitem "logGroupName" (LogGroup.logGroupName log_group) ;;
      creationTime <- getitem "creationTime" (LogGroup.creationTime log_group) ;;
      creation_date <- of_res (fromtimestamp_isoformat E creationTime) ;;
      append (ResourceMetadata_ logGroupName logGroupName "CloudWatch_LogGroup"
        region "active" creation_date (default ∅ (LogGroup.tags log_group))
        [ ("stored_bytes", PInt (default 0%Z (LogGroup.storedBytes log_group)));
          ("retention_days", retention_days) ]))).

Definition CloudWatchLogsScanner_scan_log_groups (region : string)
    : M world (list ResourceMetadata) :=
  scanner (CloudWatchLogsScanner_scan_log_groups_try region).

(** the [try] block of [NATGatewayScanner_scan_nat_gateways] *)
Definition NATGatewayScanner_scan_nat_gateways_try (region : string) : M frame unit :=
  ec2 <- lift (get_client E "ec2" (Some region)) ;;
  response <- lift (call E ec2 (Op.describe_nat_gateways None)) ;;
  for_ (default [] (DescribeNatGateways.NatGateways response)) (fun nat_ =>
    tags <- tags_dict (default [] (NatGateway.Tags nat_)) ∅ ;;
    NatGatewayId <- getitem "NatGatewayId" (NatGateway.NatGatewayId nat_) ;;
    State <- getitem "State" (NatGateway.State nat_) ;;
    CreateTime <- getitem "CreateTime" (NatGateway.CreateTime nat_) ;;
    address <- first_item (default [NatGatewayAddress.mk None None]
                             (NatGateway.NatGatewayAddresses nat_)) ;;
    append (ResourceMetadata_ NatGatewayId (default NatGatewayId (tags !! "Name"))
      "NAT_Gateway" region State (isoformat CreateTime) tags
      [ ("subnet_id", opt_str (NatGateway.SubnetId nat_));
        ("allocation_id", opt_str (NatGatewayAddress.AllocationId address));
        ("public_ip", opt_str (NatGatewayAddress.PublicIp address)) ])).

Definition NATGatewayScanner_scan_nat_gateways (region : string)
    : M world (list ResourceMetadata) :=
  scanner (NATGatewayScanner_scan_nat_gateways_try region).

(** the [try] block of [IAMScanner_scan_users] *)
Definition IAMScanner_scan_users_try : M frame unit :=
  iam <- lift (get_client E "iam" (Some "us-east-1")) ;;
  pages <- lift (call E iam Op.paginate_list_users) ;;
  for_pages pages (fun page =>
    for_ (default [] (ListUsers.Users page)) (fun user =>
      (* Get user tags *)
      tags <-
        try_except
          (UserName <- getitem "UserName" (User.UserName user) ;;
           tags_resp <- lift (call E iam (Op.list_user_tags UserName)) ;;
           tags_dict (default [] (IamTags.Tags tags_resp)) ∅)
          is_ClientError (fun _ => ret ∅) ;;
      UserId <- getitem "UserId" (User.UserId user) ;;
      UserName <- getitem "UserName" (User.UserName user) ;;
      CreateDate <- getitem "CreateDate" (User.CreateDate user) ;;
      Arn <- getitem "Arn" (User.Arn user) ;;
      append (ResourceMetadata_ UserId UserName "IAM_User" "global" "active"
        (isoformat CreateDate) tags [ ("arn", PStr Arn) ]))).

Definition IAMScanner_scan_users
    : M world (list ResourceMetadata) :=
  scanner (IAMScanner_scan_users_try).

(** the [try] block of [IAMScanner_scan_roles] *)
Definition IAMScanner_scan_roles_try : M frame unit :=
  iam <- lift (get_client E "iam" (Some "us-east-1")) ;;
  pages <- lift (call E iam Op.paginate_list_roles) ;;
  for_pages pages (fun page =>
    for_ (default [] (ListRoles.Roles page)) (fun role =>
      (* Get role tags *)
      tags <-
        try_except
          (RoleName <- getitem "RoleName" (Role.RoleName role) ;;
           tags_resp <- lift (call E iam (Op.list_role_tags RoleName)) ;;
           tags_dict (default [] (IamTags.Tags tags_resp)) ∅)
          is_ClientError (fun _ => ret ∅) ;;
      RoleId <- getitem "RoleId" (Role.RoleId role) ;;
      RoleName <- getitem "RoleName" (Role.RoleName role) ;;
      CreateDate <- getitem "CreateDate" (Role.CreateDate role) ;;
      Arn <- getitem "Arn" (Role.Arn role) ;;
      append (ResourceMetadata_ RoleId RoleName "IAM_Role" "global" "active"
        (isoformat CreateDate) tags [ ("arn", PStr Arn) ]))).

Definition IAMScanner_scan_roles
    : M world (list ResourceMetadata) :=
  scanner (IAMScanner_scan_roles_try).

End Scanners.

(** the scanner methods *)
Inductive scanner_method :=
| EC2_scan_instances | EC2_scan_volumes | EC2_scan_elastic_ips
| RDS_scan_instances | Lambda_scan_functions | ELB_scan_load_balancers
| CloudWatchLogs_scan_log_groups | NATGateway_scan_nat_gateways
| S3_scan_buckets | IAM_scan_users | IAM_scan_roles.

(** a call of a scanner method; the account-wide ones take no region *)
Definition run_scanner (E : Env) (m : scanner_method) (region : string)
    : M world (list ResourceMetadata) :=
  match m with
  | EC2_scan_instances => EC2Scanner_scan_instances E region
  | EC2_scan_volumes => EC2Scanner_scan_volumes E region
  | EC2_scan_elastic_ips => EC2Scanner_scan_elastic_ips E region
  | RDS_scan_instances => RDSScanner_scan_instances E region
  | Lambda_scan_functions => LambdaScanner_scan_functions E region
  | ELB_scan_load_balancers => ELBScanner_scan_load_balancers E region
  | CloudWatchLogs_scan_log_groups => CloudWatchLogsScanner_scan_log_groups E region
  | NATGateway_scan_nat_gateways => NATGatewayScanner_scan_nat_gateways E region
  | S3_scan_buckets => S3Scanner_scan_buckets E
  | IAM_scan_users => IAMScanner_scan_users E
  | IAM_scan_roles => IAMScanner_scan_roles E
  end.

(** the [try] block of a scanner method *)
Definition try_block (E : Env) (m : scanner_method) (region : string)
    : M frame unit :=
  match m with
  | EC2_scan_instances => EC2Scanner_scan_instances_try E region
  | EC2_scan_volumes => EC2Scanner_scan_volumes_try E region
  | EC2_scan_elastic_ips => EC2Scanner_scan_elastic_ips_try E region
  | RDS_scan_instances => RDSScanner_scan_instances_try E region
  | Lambda_scan_functions => LambdaScanner_scan_functions_try E region
  | ELB_scan_load_balancers => ELBScanner_scan_load_balancers_try E region
  | CloudWatchLogs_scan_log_groups => CloudWatchLogsScanner_scan_log_groups_try E region
  | NATGateway_scan_nat_gateways => NATGatewayScanner_scan_nat_gateways_try E region
  | S3_scan_buckets => S3Scanner_scan_buckets_try E
  | IAM_scan_users => IAMScanner_scan_users_try E
  | IAM_scan_roles => IAMScanner_scan_roles_try E
  end.

(** no cost estimate on any record of a list *)
Definition no_cost (rs : list ResourceMetadata) : Prop :=
  Forall (fun r => estimated_cost_monthly r = None) rs.

(** ** The scan orchestrator: [AWSResourceScanner] *)

(** the orchestrator object; its session manager is the one of the world *)
Record AWSResourceScanner := mkAWSResourceScanner {
  self_errors : list ScanError
}.

(** [AWSResourceScanner(access_key_id, secret_access_key)] *)
Definition AWSResourceScanner_init (access_key_id secret_access_key : loc)
    : M world AWSResourceScanner :=
  fun w =>
    match AWSSessionManager_init (heap w) access_key_id secret_access_key "us-east-1" with
    | Ok sm => (Ok (mkAWSResourceScanner []), mkWorld (heap w) sm (history w))
    | Raise e => (Raise e, w)
    end.

(** [self.errors.append({'type': t, 'message': str(e)})] *)
Definition errors_append (t : string) (e : exn) : M (AWSResourceScanner * world) unit :=
  modify (fun '(self, w) =>
    (mkAWSResourceScanner (self_errors self ++ [mkScanError t (str_exn e)]), w)).

(** the eight units of work submitted for a region, in submission order *)
Definition regional_tasks (region : string) : list (scanner_method * string) :=
  [ (EC2_scan_instances, region); (EC2_scan_volumes, region);
    (EC2_scan_elastic_ips, region); (RDS_scan_instances, region);
    (Lambda_scan_functions, region); (ELB_scan_load_balancers, region);
    (CloudWatchLogs_scan_log_groups, region);
    (NATGateway_scan_nat_gateways, region) ].

(** the order in which [as_completed] yields the futures: at each step the
    schedule picks one of those not yet yielded; whatever the schedule, every
    future is yielded once *)
Fixpoint as_completed {A} (schedule : list nat) (futures : list A) : list A :=
  match schedule with
  | [] => futures
  | i :: schedule' =>
      match futures !! (i mod length futures) with
      | Some f => f :: as_completed schedule' (delete (i mod length futures) futures)
      | None => futures
      end
  end.

(** a future holding a list holds records without cost estimate *)
Definition future_no_cost (f : res (list ResourceMetadata)) : Prop :=
  forall rs, f = Ok rs -> no_cost rs.

Section Orchestrator.

Context (E : Env).

(** a unit of work run by the pool: its result or its exception is kept in
    the future *)
Definition run_task (task : scanner_method * string)
    : M world (res (list ResourceMetadata)) :=
  fun w => match run_scanner E (fst task) (snd task) w with
           | (r, w') => (Ok r, w')
           end.

Fixpoint run_tasks (tasks : list (scanner_method * string))
    : M world (list (res (list ResourceMetadata))) :=
  match tasks with
  | [] => ret []
  | t :: tasks' =>
      f <- run_task t ;;
      fs <- run_tasks tasks' ;;
      ret (f :: fs)
  end.

(** the collection loop over the completed futures; [if result:
    all_resources.extend(result)] extends by the list, empty or not *)
Fixpoint collect (futures : list (res (list ResourceMetadata)))
    (all_resources : list ResourceMetadata)
    : M (AWSResourceScanner * world) (list ResourceMetadata) :=
  match futures with
  | [] => ret all_resources
  | future :: futures' =>
      all_resources <-
        try_except
          (result <- of_res future ;;
           ret (all_resources ++ result))
          any_Exception
          (fun e => errors_append "scan_error" e ;;; ret all_resources) ;;
      collect futures' all_resources
  end.

(** [scan(max_workers)]; [schedule] is the completion order of the futures *)
Definition scan (max_workers : Z) (schedule : list nat)
    : M (AWSResourceScanner * world) ScanResult :=
  (* Get all regions *)
  regions <- lift (get_regions E) ;;
  let all_resources := [] in
  (* Scan regional resources with concurrency; [ThreadPoolExecutor] refuses
     a pool size that is not positive *)
  (if (max_workers <=? 0)%Z
   then raise (ValueError "max_workers must be greater than 0")
   else ret tt) ;;;
  futures <- lift (run_tasks (concat (map regional_tasks regions))) ;;
  all_resources <- collect (as_completed schedule futures) all_resources ;;
  (* Scan global services (outside thread pool) *)
  all_resources <-
    try_except
      (buckets <- lift (S3Scanner_scan_buckets E) ;;
       ret (all_resources ++ buckets))
      any_Exception
      (fun e => errors_append "S3_scan_error" e ;;; ret all_resources) ;;
  all_resources <-
    (fun s =>
       match lift (IAMScanner_scan_users E) s with
       | (Raise e, s') =>
           (errors_append "IAM_scan_error" e ;;; ret all_resources) s'
       | (Ok users, s') =>
           match lift (IAMScanner_scan_roles E) s' with
           | (Raise e, s'') =>
               (errors_append "IAM_scan_error" e ;;;
                ret (all_resources ++ users)) s''
           | (Ok roles, s'') => (Ok (all_resources ++ users ++ roles), s'')
           end
       end) ;;
  (* Build summary *)
  let summary := _build_summary all_resources in
  let cost_summary := _build_cost_summary all_resources in
  self <- get_state ;;
  ret {| timestamp := utcnow_isoformat E;
         regions_scanned := regions;
         resources := all_resources;
         errors := self_errors (fst self);
         summary := summary;
         cost_summary := cost_summary |}.

(** [AWSResourceScanner.cleanup()] *)
Definition scanner_cleanup : M (AWSResourceScanner * world) unit :=
  lift cleanup.

End Orchestrator.

(** a scan with the default pool size, the futures completing in submission
    order: its result, when it returns one *)
Definition scan_results (E : Env) (s : AWSResourceScanner * world)
    : option ScanResult * (AWSResourceScanner * world) :=
  match scan E 5 [] s with
  | (Ok r, s') => (Some r, s')
  | (Raise _, s') => (None, s')
  end.

(** ** Resource actions: [ResourceActionValidator] and [ResourceActionExecutor] *)

Inductive ActionType := STOP | DELETE | TERMINATE.

(** [action.value] *)
Definition ActionType_value (a : ActionType) : string :=
  match a with
  | STOP => "stop"
  | DELETE => "delete"
  | TERMINATE => "terminate"
  end.

(** the dictionary a validator returns: ['valid'], ['reason'] when there is
    one, and the other entries *)
Record Validation := mkValidation {
  valid : bool;
  reason : option string;
  details : list (string * pyval)
}.

Definition invalid (reason : string) : Validation :=
  mkValidation false (Some reason) [].

(** an optional string in an f-string *)
Definition fmt (o : option string) : string :=
  match o with Some s => s | None => "None" end.

Definition failed_result (resource_id : option string) (resource_type : option string)
    (action message : string) (error : option string) : DeleteResult :=
  mkDeleteResult false resource_id resource_type action message "failed" error.

Definition verified_result (resource_id : option string) (resource_type : string)
    (action message : string) : DeleteResult :=
  mkDeleteResult true resource_id (Some resource_type) action message "verified" None.

Section Actions.

Context (E : Env).

(** the handler shared by the validators:
    [except ClientError as e: return {'valid': False, 'reason': f'API error: {str(e)}'}] *)
Definition api_error (e : exn) : M world Validation :=
  ret (invalid ("API error: " +:+ str_exn e)).

Definition validate_ec2_stop (instance_id region : option string)
    : M world Validation :=
  try_except
    (ec2 <- get_client E "ec2" region ;;
     response <- call E ec2 (Op.describe_instances (Some [instance_id])) ;;
     Reservations <- getitem "Reservations" (DescribeInstances.Reservations response) ;;
     match Reservations with
     | [] => ret (invalid "Instance not found")
     | reservation :: _ =>
         Instances <- getitem "Instances" (Reservation.Instances reservation) ;;
         instance <- first_item Instances ;;
         State <- getitem "State" (Instance.State instance) ;;
         state <- getitem "Name" (InstanceState.Name State) ;;
         if String.eqb state "stopped" then
           ret (invalid "Instance already stopped")
         else if String.eqb state "stopping" then
           ret (invalid "Instance is already stopping")
         else if String.eqb state "terminated" then
           ret (invalid "Instance is terminated")
         else if String.eqb state "terminating" then
           ret (invalid "Instance is terminating")
         else
           tags <- tags_dict (default [] (Instance.Tags instance)) ∅ ;;
           ret (mkValidation true None
                  [ ("current_state", PStr state);
                    ("instance_type", opt_str (Instance.InstanceType instance));
                    ("tags", PDict tags) ])
     end)
    is_ClientError api_error.

Definition validate_rds_stop (db_instance_id region : option string)
    : M world Validation :=
  try_except
    (rds <- get_client E "rds" region ;;
     response <- call E rds (Op.describe_db_instances (Some db_instance_id)) ;;
     DBInstances <- getitem "DBInstances" (DescribeDBInstances.DBInstances response) ;;
     match DBInstances with
     | [] => ret (invalid "RDS instance not found")
     | db_instance :: _ =>
         state <- getitem "DBInstanceStatus" (DBInstance.DBInstanceStatus db_instance) ;;
         if String.eqb state "stopping" || String.eqb state "stopped" then
           ret (invalid ("Instance already " +:+ state))
         else
           ret (mkValidation true None
                  [ ("current_state", PStr state);
                    ("engine", opt_str (DBInstance.Engine db_instance));
                    ("allocated_storage",
                     opt_int (DBInstance.AllocatedStorage db_instance)) ])
     end)
    is_ClientError api_error.

Definition validate_nat_gateway_delete (nat_gateway_id region : option string)
    : M world Validation :=
  try_except
    (ec2 <- get_client E "ec2" region ;;
     response <- call E ec2 (Op.describe_nat_gateways (Some [nat_gateway_id])) ;;
     NatGateways <- getitem "NatGateways" (DescribeNatGateways.NatGateways response) ;;
     match NatGateways with
     | [] => ret (invalid "NAT Gateway not found")
     | nat_gateway :: _ =>
         state <- getitem "State" (NatGateway.State nat_gateway) ;;
         if String.eqb state "deleted" then
           ret (invalid "NAT Gateway already deleted")
         else if String.eqb state "deleting" then
           ret (invalid "NAT Gateway is already deleting")
         else
           ret (mkValidation true None
                  [ ("current_state", PStr state);
                    ("subnet_id", opt_str (NatGateway.SubnetId nat_gateway)) ])
     end)
    is_ClientError api_error.

Definition validate_elastic_ip_release (allocation_id region : option string)
    : M world Validation :=
  try_except
    (ec2 <- get_client E "ec2" region ;;
     response <- call E ec2 (Op.describe_addresses (Some [allocation_id])) ;;
     Addresses <- getitem "Addresses" (DescribeAddresses.Addresses response) ;;
     match Addresses with
     | [] => ret (invalid "Elastic IP not found")
     | address :: _ =>
         match Address.AssociationId address with
         | Some _ =>
             ret (mkValidation false
                    (Some "Elastic IP is still associated with an instance")
                    [ ("associated_instance", opt_str (Address.InstanceId address)) ])
         | None =>
             ret (mkValidation true None
                    [ ("public_ip", opt_str (Address.PublicIp address)) ])
         end
     end)
    is_ClientError api_error.

(** the first part of the four validated actions:
[[
    if not validation['valid']:
        return DeleteResult(success=False, ..., message=validation['reason'],
                            verification_status='failed', error=validation['reason'])
]]
    [None] when the validation passed *)
Definition rejected (validation : Validation) (resource_id : option string)
    (resource_type action : string) : M world (option DeleteResult) :=
  if valid validation then ret None
  else
    message <- getitem "reason" (reason validation) ;;
    error <- getitem "reason" (reason validation) ;;
    ret (Some (failed_result resource_id (Some resource_type) action message
                 (Some error))).

Definition stop_ec2_instance (instance_id region : option string)
    : M world DeleteResult :=
  (* Validate *)
  validation <- validate_ec2_stop instance_id region ;;
  early <- rejected validation instance_id "EC2_Instance" "stop" ;;
  match early with
  | Some result => ret result
  | None =>
      try_except
        (ec2 <- get_client E "ec2" region ;;
         call E ec2 (Op.stop_instances instance_id) ;;;
         (* Verify stop was initiated *)
         response <- call E ec2 (Op.describe_instances (Some [instance_id])) ;;
         Reservations <- getitem "Reservations"
           (DescribeInstances.Reservations response) ;;
         reservation <- first_item Reservations ;;
         Instances <- getitem "Instances" (Reservation.Instances reservation) ;;
         instance <- first_item Instances ;;
         State <- getitem "State" (Instance.State instance) ;;
         new_state <- getitem "Name" (InstanceState.Name State) ;;
         ret (verified_result instance_id "EC2_Instance" "stop"
                ("Instance stop initiated. Current state: " +:+ new_state)))
        is_ClientError
        (fun e => ret (failed_result instance_id (Some "EC2_Instance") "stop"
                         "Failed to stop instance" (Some (str_exn e))))
  end.

Definition stop_rds_instance (db_instance_id region : option string)
    : M world DeleteResult :=
  (* Validate *)
  validation <- validate_rds_stop db_instance_id region ;;
  early <- rejected validation db_instance_id "RDS_Instance" "stop" ;;
  match early with
  | Some result => ret result
  | None =>
      try_except
        (rds <- get_client E "rds" region ;;
         call E rds (Op.stop_db_instance db_instance_id) ;;;
         ret (verified_result db_instance_id "RDS_Instance" "stop"
                "RDS instance stop initiated"))
        is_ClientError
        (fun e => ret (failed_result db_instance_id (Some "RDS_Instance") "stop"
                         "Failed to stop RDS instance" (Some (str_exn e))))
  end.

Definition delete_nat_gateway (nat_gateway_id region : option string)
    : M world DeleteResult :=
  (* Validate *)
  validation <- validate_nat_gateway_delete nat_gateway_id region ;;
  early <- rejected validation nat_gateway_id "NAT_Gateway" "delete" ;;
  match early with
  | Some result => ret result
  | None =>
      try_except
        (ec2 <- get_client E "ec2" region ;;
         call E ec2 (Op.delete_nat_gateway nat_gateway_id) ;;;
         ret (verified_result nat_gateway_id "NAT_Gateway" "delete"
                "NAT Gateway deletion initiated"))
        is_ClientError
        (fun e => ret (failed_result nat_gateway_id (Some "NAT_Gateway") "delete"
                         "Failed to delete NAT Gateway" (Some (str_exn e))))
  end.

Definition release_elastic_ip (allocation_id region : option string)
    : M world DeleteResult :=
  (* Validate *)
  validation <- validate_elastic_ip_release allocation_id region ;;
  early <- rejected validation allocation_id "Elastic_IP" "delete" ;;
  match early with
  | Some result => ret result
  | None =>
      try_except
        (ec2 <- get_client E "ec2" region ;;
         call E ec2 (Op.release_address allocation_id) ;;;
         ret (verified_result allocation_id "Elastic_IP" "delete"
                "Elastic IP released successfully"))
        is_ClientError
        (fun e => ret (failed_result allocation_id (Some "Elastic_IP") "delete"
                         "Failed to release Elastic IP" (Some (str_exn e))))
  end.

Definition delete_ebs_volume (volume_id region : option string)
    : M world DeleteResult :=
  try_except
    (ec2 <- get_client E "ec2" region ;;
     (* Validate volume is not in use *)
     response <- call E ec2 (Op.describe_volumes (Some [volume_id])) ;;
     Volumes <- getitem "Volumes" (DescribeVolumes.Volumes response) ;;
     match Volumes with
     | [] => ret (failed_result volume_id (Some "EBS_Volume") "delete"
                    "Volume not found" None)
     | volume :: _ =>
         State <- getitem "State" (Volume.State volume) ;;
         if negb (String.eqb State "available") then
           ret (failed_result volume_id (Some "EBS_Volume") "delete"
                  ("Volume is in " +:+ State +:+ " state. Must be available to delete.")
                  (Some ("Volume state: " +:+ State)))
         else
           (* Delete volume *)
           call E ec2 (Op.delete_volume volume_id) ;;;
           ret (verified_result volume_id "EBS_Volume" "delete"
                  "EBS volume deleted successfully")
     end)
    is_ClientError
    (fun e => ret (failed_result volume_id (Some "EBS_Volume") "delete"
                     "Failed to delete EBS volume" (Some (str_exn e)))).

Definition delete_s3_bucket (bucket_name : option string) : M world DeleteResult :=
  try_except
    (s3 <- get_client E "s3" (Some "us-east-1") ;;
     (* Check if bucket exists and get object count *)
     early <-
       try_except
         (response <- call E s3 (Op.list_objects_v2 bucket_name) ;;
          if ListObjectsV2.has_Contents response then
            ret (Some (failed_result bucket_name (Some "S3_Bucket") "delete"
                         "Bucket is not empty. All objects must be deleted first."
                         None))
          else ret None)
         is_ClientError (fun _ => ret None) ;;
     match early with
     | Some result => ret result
     | None =>
         (* Delete bucket *)
         call E s3 (Op.delete_bucket bucket_name) ;;;
         ret (verified_result bucket_name "S3_Bucket" "delete"
                "S3 bucket deleted successfully")
     end)
    is_ClientError
    (fun e => ret (failed_result bucket_name (Some "S3_Bucket") "delete"
                     "Failed to delete S3 bucket" (Some (str_exn e)))).

(** the bound methods held by [action_map] *)
Inductive action_func :=
| self_stop_ec2_instance
| self_stop_rds_instance
| self_delete_nat_gateway
| self_release_elastic_ip
| self_delete_ebs_volume
| self_delete_s3_bucket.

(** [action_map.get((resource_type, action))] *)
Definition action_map (resource_type : option string) (action : ActionType)
    : option action_func :=
  match resource_type, action with
  | Some t, STOP =>
      if String.eqb t "EC2_Instance" then Some self_stop_ec2_instance
      else if String.eqb t "RDS_Instance" then Some self_stop_rds_instance
      else None
  | Some t, DELETE =>
      if String.eqb t "NAT_Gateway" then Some self_delete_nat_gateway
      else if String.eqb t "Elastic_IP" then Some self_release_elastic_ip
      else if String.eqb t "EBS_Volume" then Some self_delete_ebs_volume
      else if String.eqb t "S3_Bucket" then Some self_delete_s3_bucket
      else None
  | _, _ => None
  end.

(** the call of a bound method with positional arguments: the number of
    arguments is checked against the signature before the body runs *)
Definition apply_ (f : action_func) (args : list (option string))
    : M world DeleteResult :=
  match f, args with
  | self_stop_ec2_instance, [instance_id; region] =>
      stop_ec2_instance instance_id region
  | self_stop_rds_instance, [db_instance_id; region] =>
      stop_rds_instance db_instance_id region
  | self_delete_nat_gateway, [nat_gateway_id; region] =>
      delete_nat_gateway nat_gateway_id region
  | self_release_elastic_ip, [allocation_id; region] =>
      release_elastic_ip allocation_id region
  | self_delete_ebs_volume, [volume_id; region] =>
      delete_ebs_volume volume_id region
  | self_delete_s3_bucket, [bucket_name] =>
      delete_s3_bucket bucket_name
  | self_delete_s3_bucket, _ =>
      raise (TypeError
        "ResourceActionExecutor.delete_s3_bucket() takes 2 positional arguments but 3 were given")
  | _, _ =>
      raise (TypeError "wrong number of positional arguments")
  end.

Definition execute_action (resource_type resource_id region : option string)
    (action : ActionType) : M world DeleteResult :=
  match action_map resource_type action with
  | None =>
      ret (failed_result resource_id resource_type (ActionType_value action)
             ("Unsupported action " +:+ ActionType_value action
              +:+ " for resource type " +:+ fmt resource_type)
             None)
  | Some action_func =>
      try_except
        (apply_ action_func [resource_id; region])
        any_Exception
        (fun e => ret (failed_result resource_id resource_type
                         (ActionType_value action)
                         "Unexpected error during action execution"
                         (Some (str_exn e))))
  end.

End Actions.

(** [p in s] on strings *)
Fixpoint contains (s p : string) : bool :=
  String.prefix p s ||
  match s with
  | EmptyString => false
  | String _ s' => contains s' p
  end.

(** the state the provider reports for an instance when the validator reads
    it in world [w] *)
Definition provider_reads_state (E : Env) (instance_id region : option string)
    (w : world) (s : string) : Prop :=
  exists ec2 w1 response reservation reservations instance instances State,
    get_client E "ec2" region w = (Ok ec2, w1) /\
    aws E (history w1) (Call ec2 (Op.describe_instances (Some [instance_id])))
      = Ok response /\
    DescribeInstances.Reservations response = Some (reservation :: reservations) /\
    Reservation.Instances reservation = Some (instance :: instances) /\
    Instance.State instance = Some State /\
    InstanceState.Name State = Some s.

(** the requests made since [w] are reads only *)
Definition only_reads_since (w w' : world) : Prop :=
  exists new, history w' = history w ++ new /\
              Forall (fun r => is_mutation r = false) new.

(** ** The bulk endpoint: [perform_bulk_action] of [api.py] *)

(** the ASCII letters in the other case, the other characters left as they
    are: [str.lower()] and [str.upper()] on a string of ASCII characters *)
Definition ascii_lower (c : ascii) : ascii :=
  let n := nat_of_ascii c in
  if ((65 <=? n) && (n <=? 90))%nat then ascii_of_nat (n + 32) else c.

Definition ascii_upper (c : ascii) : ascii :=
  let n := nat_of_ascii c in
  if ((97 <=? n) && (n <=? 122))%nat then ascii_of_nat (n - 32) else c.

Fixpoint lower (s : string) : string :=
  match s with
  | EmptyString => EmptyString
  | String c s' => String (ascii_lower c) (lower s')
  end.

Fixpoint upper (s : string) : string :=
  match s with
  | EmptyString => EmptyString
  | String c s' => String (ascii_upper c) (upper s')
  end.

(** the name of a member of [ActionType] *)
Definition ActionType_name (a : ActionType) : string :=
  match a with
  | STOP => "STOP"
  | DELETE => "DELETE"
  | TERMINATE => "TERMINATE"
  end.

(** [ActionType[name]] *)
Definition ActionType_by_name {S} (name : string) : M S ActionType :=
  if String.eqb name "STOP" then ret STOP
  else if String.eqb name "DELETE" then ret DELETE
  else if String.eqb name "TERMINATE" then ret TERMINATE
  else raise (KeyError name).

(** *** JSON values, as [request.get_json()] decodes them *)

#[local] Unset Elimination Schemes.
Inductive json :=
| JNull
| JBool (b : bool)
| JInt (n : Z)
| JFloat (f : float)
| JStr (s : string)
| JArr (items : list json)
| JObj (members : gmap string json).
#[local] Set Elimination Schemes.

(** [bool(v)] *)
Definition json_truthy (v : json) : bool :=
  match v with
  | JNull => false
  | JBool b => b
  | JInt n => negb (n =? 0)%Z
  | JFloat f => float_truthy f
  | JStr s => negb (String.eqb s EmptyString)
  | JArr items => match items with [] => false | _ :: _ => true end
  | JObj members => negb (size members =? 0)%nat
  end.

(** [type(v).__name__] *)
Definition type_name (v : json) : string :=
  match v with
  | JNull => "NoneType"
  | JBool _ => "bool"
  | JInt _ => "int"
  | JFloat _ => "float"
  | JStr _ => "str"
  | JArr _ => "list"
  | JObj _ => "dict"
  end.

(** the error of [v.name] on a value without that attribute *)
Definition no_attribute (v : json) (name : string) : exn :=
  AttributeError
    ("'" +:+ type_name v +:+ "' object has no attribute '" +:+ name +:+ "'").

(** [d.get(key)] on an object *)
Definition obj_get (d : gmap string json) (key : string) : json :=
  default JNull (d !! key).

(** [v.get]: the object behind [v], or the error of the attribute *)
Definition as_object {S} (v : json) : M S (gmap string json) :=
  match v with
  | JObj members => ret members
  | _ => raise (no_attribute v "get")
  end.

(** a value that is a string or null, as [Optional[str]] *)
Definition str_or_none (v : json) : option (option string) :=
  match v with
  | JNull => Some None
  | JStr s => Some (Some s)
  | _ => None
  end.

(** an [Optional[str]] as a JSON value *)
Definition of_str_or_none (o : option string) : json :=
  match o with
  | Some s => JStr s
  | None => JNull
  end.

(** the outcome of an action as the endpoints read it; the resource id and
    the resource type are the values the executor was given *)
Record ActionOutcome := mkActionOutcome {
  ao_success : bool;
  ao_resource_id : json;
  ao_resource_type : json;
  ao_action : string;
  ao_message : string;
  ao_verification_status : string;
  ao_error : option string
}.

Definition outcome_of (result : DeleteResult) : ActionOutcome :=
  mkActionOutcome (success result) (of_str_or_none (dr_resource_id result))
    (of_str_or_none (dr_resource_type result)) (action result) (message result)
    (verification_status result) (error result).

(** what the model takes as given: the string methods of Python, which
    follow the Unicode tables, and what [execute_action] does with a
    resource type, a resource id or a region that is neither a string nor
    [None] (an unhashable key, a parameter that boto3 refuses), which is any
    computation *)
Record Library := mkLibrary {
  (* s.lower() *)
  str_lower : string -> string;
  (* s.upper() *)
  str_upper : string -> string;
  (* repr(s) *)
  repr : string -> string;
  (* executor.execute_action(resource_type, resource_id, region, action) *)
  execute_action_untyped :
    json -> json -> json -> ActionType -> M world ActionOutcome
}.

(** [str(e)] in the endpoints, where the key of a [KeyError] is a string of
    the request: it is printed as [repr] prints it *)
Definition str (L : Library) (e : exn) : string :=
  match e with
  | KeyError key => repr L key
  | _ => str_exn e
  end.

(** the action named by an entry:
[[
    action_str = action_data.get('action', '').lower()
    action = ActionType[action_str.upper()]
]] *)
Definition parse_action {S} (L : Library) (action_data : gmap string json)
    : M S ActionType :=
  action_str <-
    match action_data !! "action" with
    | None => ret (str_lower L EmptyString)
    | Some (JStr s) => ret (str_lower L s)
    | Some v => raise (no_attribute v "lower")
    end ;;
  ActionType_by_name (str_upper L action_str).

(** an element of ["results"] *)
Record BulkOutcome := mkBulkOutcome {
  bo_resource_id : json;
  bo_success : bool;
  bo_message : string
}.

(** what a handler has of the body of its request: [Data] is
    [request.get_json() or {}] when that is an object; [Unreadable] stands
    for a request of which [get_json()] raises (no JSON content type,
    malformed JSON) or gives a value that is neither falsy nor an object, so
    that [data.get] raises; [error] is the text of that exception, which is
    no [ValueError] *)
Inductive Body (A : Type) :=
| Unreadable (error : string)
| Data (data : A).
Arguments Unreadable {A} error.
Arguments Data {A} data.

(** an object body and the headers: the credentials of the body and of the
    headers, each absent or a string, as references to their strings, and
    the value under ['actions'], absent or any JSON value *)
Record BulkRequest := mkBulkRequest {
  body_access_key_id : option loc;
  header_access_key : option loc;
  body_secret_access_key : option loc;
  header_secret_key : option loc;
  actions : option json
}.

(** the response: [jsonify(...)] and the status *)
Inductive BulkResponse :=
| Response200 (total_actions successful failed : nat) (results : list BulkOutcome)
| Response400 (error : string)
| Response500 (error : string).

(** [a or b] on optional references to strings *)
Definition or_ (h : gmap loc string) (a b : option loc) : option loc :=
  if truthy (a ≫= (h !!.)) then a else b.

(** [extract_credentials_from_request()], once the body is read *)
Definition extract_credentials_from_request (req : BulkRequest) : M world (loc * loc) :=
  w <- get_state ;;
  let access_key := or_ (heap w) (body_access_key_id req) (header_access_key req) in
  let secret_key := or_ (heap w) (body_secret_access_key req) (header_secret_key req) in
  match access_key, secret_key with
  | Some a, Some s =>
      if negb (truthy (heap w !! a)) || negb (truthy (heap w !! s))
      then raise (ValueError "AWS credentials missing from request")
      else ret (a, s)
  | _, _ => raise (ValueError "AWS credentials missing from request")
  end.

Section Bulk.

Context (E : Env) (L : Library).

(** [executor.execute_action(resource_type, resource_id, region, action)] on
    the values of a request *)
Definition execute_action_json (resource_type resource_id region : json)
    (action : ActionType) : M world ActionOutcome :=
  match str_or_none resource_type, str_or_none resource_id, str_or_none region with
  | Some resource_type, Some resource_id, Some region =>
      result <- execute_action E resource_type resource_id region action ;;
      ret (outcome_of result)
  | _, _, _ => execute_action_untyped L resource_type resource_id region action
  end.

(** the body of the loop over the entries: the outcome appended for one; on
    an entry that is no object the handler itself raises *)
Definition bulk_entry (action_data : json) : M world BulkOutcome :=
  try_except
    (data <- as_object action_data ;;
     let resource_id := obj_get data "resource_id" in
     let resource_type := obj_get data "resource_type" in
     let region := obj_get data "region" in
     action <- parse_action L data ;;
     result <- execute_action_json resource_type resource_id region action ;;
     ret (mkBulkOutcome (ao_resource_id result) (ao_success result)
            (ao_message result)))
    any_Exception
    (fun e =>
       data <- as_object action_data ;;
       ret (mkBulkOutcome (obj_get data "resource_id") false (str L e))).

Fixpoint bulk_loop (actions_list : list json) (results : list BulkOutcome)
    : M world (list BulkOutcome) :=
  match actions_list with
  | [] => ret results
  | action_data :: rest =>
      outcome <- bulk_entry action_data ;;
      bulk_loop rest (results ++ [outcome])
  end.

(** [for action_data in actions_list: ...] on a truthy value: the elements
    of an object (its keys) and of a string (its characters) are strings, on
    the first of which the handler of the entry raises; a number or [True]
    cannot be iterated *)
Definition bulk_for (actions_list : json) : M world (list BulkOutcome) :=
  match actions_list with
  | JArr items => bulk_loop items []
  | JObj _ | JStr _ => raise (no_attribute (JStr EmptyString) "get")
  | v => raise (TypeError ("'" +:+ type_name v +:+ "' object is not iterable"))
  end.

(** [sum(1 for r in results if r['success'])] *)
Definition count_successful (results : list BulkOutcome) : nat :=
  length (filter (fun r => bo_success r = true) results).

(** [sum(1 for r in results if not r['success'])] *)
Definition count_failed (results : list BulkOutcome) : nat :=
  length (filter (fun r => bo_success r = false) results).

Definition perform_bulk_action (request : Body BulkRequest) (w : world)
    : BulkResponse * world :=
  match request with
  | Unreadable _ => (Response500 "Internal server error", w)
  | Data req =>
      let body : M world BulkResponse :=
        (* Extract credentials *)
        creds <- extract_credentials_from_request req ;;
        let actions_list := default (JArr []) (actions req) in
        if negb (json_truthy actions_list)
        then ret (Response400 "No actions provided")
        else
          (* Initialize session and executor *)
          h <- get_state ;;
          session_manager <-
            of_res (AWSSessionManager_init (heap h) (fst creds) (snd creds)
                      "us-east-1") ;;
          modify (fun w => mkWorld (heap w) session_manager (history w)) ;;;
          results <- bulk_for actions_list ;;
          (* Cleanup *)
          cleanup ;;;
          ret (Response200 (length results) (count_successful results)
                 (count_failed results) results) in
      match body w with
      | (Ok response, w') => (response, w')
      | (Raise e, w') =>
          if is_ValueError e then (Response400 (str L e), w')
          else (Response500 "Internal server error", w')
      end
  end.

End Bulk.

(** an entry that is an object *)
Definition is_object (v : json) : Prop := exists members, v = JObj members.

(** an entry whose action cannot be read: the lookup raises [e] *)
Definition malformed_action (L : Library) (action_data : json) (e : exn) : Prop :=
  exists members,
    action_data = JObj members /\
    forall w : world, parse_action L members w = (Raise e, w).

(** the world in which the entries of a bulk request are processed: the one of
    the request, with the session manager made from its credentials *)
Definition bulk_world (w : world) (access_key secret_key : loc) : world :=
  mkWorld (heap w)
    (mkAWSSessionManager "us-east-1" (Some access_key) (Some secret_key)
       (Some (mkSession access_key secret_key "us-east-1")) ∅)
    (history w).

(** ** Scenarios: concrete providers and worlds *)

(** the credentials of the scenarios, as string objects *)
Definition example_heap : gmap loc string :=
  {[ 0 := "AKIAEXAMPLE"; 1 := "wJalrEXAMPLEKEY" ]}.

(** the world after [AWSSessionManager('AKIAEXAMPLE', 'wJalrEXAMPLEKEY')] *)
Definition fresh_world : world :=
  mkWorld example_heap
    (mkAWSSessionManager "us-east-1" (Some 0) (Some 1)
       (Some (mkSession 0 1 "us-east-1")) ∅)
    [].

Definition example_clock : Z -> res string :=
  fun _ => Ok "2024-01-01T00:00:00".

(** a provider that refuses every call (authorization failure) *)
Definition denied_env : Env :=
  mkEnv
    (fun _ r =>
       match r return res (response r) with
       | NewClient _ _ => Ok tt
       | Call _ _ => Raise (ClientError "AccessDenied")
       end)
    example_clock "2024-01-01T12:00:00".

(** a provider whose instance listing holds an instance without the key
    ['InstanceId'] *)
Definition malformed_listing_env : Env :=
  mkEnv
    (fun _ r =>
       match r return res (response r) with
       | NewClient _ _ => Ok tt
       | Call _ op =>
           match op return res (Op.response op) with
           | Op.describe_instances _ =>
               Ok (DescribeInstances.mk (Some [Reservation.mk (Some
                     [Instance.mk None None
                        (Some (InstanceState.mk (Some "running")))
                        None None None None None None])]))
           | _ => Raise (ClientError "AccessDenied")
           end
       end)
    example_clock "2024-01-01T12:00:00".

(** a provider that cannot be reached: every call fails to connect *)
Definition unreachable_env : Env :=
  mkEnv
    (fun _ r =>
       match r return res (response r) with
       | NewClient _ _ => Ok tt
       | Call _ _ => Raise (BotoCoreError "Could not connect to the endpoint URL")
       end)
    example_clock "2024-01-01T12:00:00".

Definition is_list_buckets (r : request) : bool :=
  match r with
  | Call _ Op.list_buckets => true
  | _ => false
  end.

(** a provider whose bucket listing times out the first time it is asked and
    is refused afterwards; every other call is refused *)
Definition flaky_s3_env : Env :=
  mkEnv
    (fun h r =>
       match r return res (response r) with
       | NewClient _ _ => Ok tt
       | Call _ op =>
           match op return res (Op.response op) with
           | Op.list_buckets =>
               if existsb is_list_buckets h
               then Raise (ClientError "AccessDenied")
               else Raise (BotoCoreError "Read timeout on endpoint URL")
           | _ => Raise (ClientError "AccessDenied")
           end
       end)
    example_clock "2024-01-01T12:00:00".

Definition example_instance (id state : string) : Instance.t :=
  Instance.mk (Some id) (Some [Tag.mk (Some "Name") (Some "web")])
    (Some (InstanceState.mk (Some state)))
    (Some (mkDatetime "2023-05-01T10:00:00")) (Some "t3.micro")
    None None None None.

(** a provider with one region, one instance in it and one bucket *)
Definition small_account_env (instance_state : string) : Env :=
  mkEnv
    (fun _ r =>
       match r return res (response r) with
       | NewClient _ _ => Ok tt
       | Call _ op =>
           match op return res (Op.response op) with
           | Op.describe_regions =>
               Ok (DescribeRegions.mk (Some [Region.mk (Some "eu-west-1")]))
           | Op.describe_instances _ =>
               Ok (DescribeInstances.mk (Some [Reservation.mk (Some
                     [example_instance "i-0abc" instance_state])]))
           | Op.list_buckets =>
               Ok (ListBuckets.mk (Some
                     [Bucket.mk (Some "logs") (Some (mkDatetime "2022-01-01T00:00:00"))]))
           | Op.stop_instances _ => Ok tt
           | _ => Raise (ClientError "AccessDenied")
           end
       end)
    example_clock "2024-01-01T12:00:00".

Definition example_db (name : string) : DBInstance.t :=
  DBInstance.mk (Some ("arn:aws:rds:eu-west-1:1:db:" +:+ name)) (Some name)
    (Some "available") (Some (mkDatetime "2023-02-02T08:00:00"))
    (Some "postgres") None None None.

(** a provider with two databases; the tags of the second cannot be read
    (throttling) *)
Definition throttled_tags_env : Env :=
  mkEnv
    (fun _ r =>
       match r return res (response r) with
       | NewClient _ _ => Ok tt
       | Call _ op =>
           match op return res (Op.response op) with
           | Op.describe_db_instances _ =>
               Ok (DescribeDBInstances.mk (Some [example_db "db1"; example_db "db2"]))
           | Op.list_tags_for_resource arn =>
               if String.eqb arn "arn:aws:rds:eu-west-1:1:db:db1"
               then Ok (ListTagsForResource.mk (Some []))
               else Raise (ClientError "Throttling: Rate exceeded")
           | _ => Raise (ClientError "AccessDenied")
           end
       end)
    example_clock "2024-01-01T12:00:00".

(** the records of the instance scan of the small account *)
Definition small_account_instances : list ResourceMetadata :=
  match fst (run_scanner (small_account_env "running") EC2_scan_instances
               "eu-west-1" fresh_world) with
  | Ok rs => rs
  | Raise _ => []
  end.

Definition empty_scan_result : ScanResult :=
  mkScanResult EmptyString [] [] [] (_build_summary []) (_build_cost_summary []).

(** the result of a scan of the small account *)
Definition small_account_scan : ScanResult :=
  match fst (scan (small_account_env "running") 5 [3; 1]
               (mkAWSResourceScanner [], fresh_world)) with
  | Ok r => r
  | Raise _ => empty_scan_result
  end.

(** the small account, with the parameter validation of the client: an
    identifier that is [None] is refused before the request is sent *)
Definition describes_None (r : request) : bool :=
  match r with
  | Call _ (Op.describe_instances (Some [None])) => true
  | _ => false
  end.

Definition validating_env : Env :=
  mkEnv
    (fun h r =>
       if describes_None r
       then Raise (BotoCoreError "Parameter validation failed")
       else aws (small_account_env "running") h r)
    example_clock "2024-01-01T12:00:00".

(** Python on the values of the scenarios: strings made of ASCII letters,
    digits and hyphens, and, for the executor, a resource type that is a
    list or an object, which the lookup [(resource_type, action)] cannot
    hash *)
Definition ascii_library : Library :=
  mkLibrary lower upper (fun s => "'" +:+ s +:+ "'")
    (fun resource_type _ _ _ =>
       raise (TypeError ("unhashable type: '" +:+ type_name resource_type +:+ "'"))).

(** an entry that asks to stop the instance of the small account *)
Definition stop_fields (resource_id : option string) : gmap string json :=
  let e : gmap string json :=
    {[ "resource_type" := JStr "EC2_Instance";
       "region" := JStr "eu-west-1";
       "action" := JStr "stop" ]} in
  match resource_id with
  | Some i => <["resource_id" := JStr i]> e
  | None => e
  end.

Definition stop_entry (resource_id : option string) : json :=
  JObj (stop_fields resource_id).

(** the same entry with another action *)
Definition entry_with_action (action : string) : json :=
  JObj {[ "resource_id" := JStr "i-0abc";
          "resource_type" := JStr "EC2_Instance";
          "region" := JStr "eu-west-1";
          "action" := JStr action ]}.

(** a bulk request of three entries, the second without ['resource_id'] *)
Definition three_entries_request : BulkRequest :=
  mkBulkRequest (Some 0) None (Some 1) None
    (Some (JArr [stop_entry (Some "i-0abc"); stop_entry None;
                 stop_entry (Some "i-0abc")])).

(** a bulk request without entries *)
Definition no_entries_request : BulkRequest :=
  mkBulkRequest (Some 0) None (Some 1) None (Some (JArr [])).

(** a bulk request whose second entry is no object *)
Definition string_entry_request : BulkRequest :=
  mkBulkRequest (Some 0) None (Some 1) None
    (Some (JArr [stop_entry (Some "i-0abc"); JStr "oops"])).

(** ** What a computation does to the world *)

(** [reads_only pi m]: whatever [m] returns or raises, the requests it makes
    are reads and the string store is left as it was; [pi] gives the world of
    a state *)
Definition reads_only {S A} (pi : S -> world) (m : M S A) : Prop :=
  forall s r s', m s = (r, s') ->
    only_reads_since (pi s) (pi s') /\ heap (pi s') = heap (pi s).

(** the requests of a list that change a resource *)
Definition mutations (l : list request) : list request :=
  filter (fun r => is_mutation r = true) l.

(** ** The scanner methods, by kind *)

(** the [resource_type] a scanner method gives its records *)
Definition kind_of (m : scanner_method) : string :=
  match m with
  | EC2_scan_instances => "EC2_Instance"
  | EC2_scan_volumes => "EBS_Volume"
  | EC2_scan_elastic_ips => "Elastic_IP"
  | RDS_scan_instances => "RDS_Instance"
  | Lambda_scan_functions => "Lambda_Function"
  | ELB_scan_load_balancers => "Load_Balancer"
  | CloudWatchLogs_scan_log_groups => "CloudWatch_LogGroup"
  | NATGateway_scan_nat_gateways => "NAT_Gateway"
  | S3_scan_buckets => "S3_Bucket"
  | IAM_scan_users => "IAM_User"
  | IAM_scan_roles => "IAM_Role"
  end.

(** [Config.RESOURCE_TYPES] of [config.py] *)
Definition RESOURCE_TYPES : list string :=
  [ "EC2_Instance"; "EBS_Volume"; "Elastic_IP"; "S3_Bucket"; "RDS_Instance";
    "Lambda_Function"; "Load_Balancer"; "CloudWatch_LogGroup"; "NAT_Gateway";
    "IAM_User"; "IAM_Role" ].

(** what the source fixes of the region and the state of a record, by method:
    the region scanned, or ['global'] for the identity kinds (a bucket has the
    region the provider reports); the state is a literal for the kinds that
    have no provider state *)
Definition region_fixed (m : scanner_method) (region_arg : string)
    (r : ResourceMetadata) : Prop :=
  match m with
  | S3_scan_buckets => True
  | IAM_scan_users | IAM_scan_roles => region r = "global"
  | _ => region r = region_arg
  end.

Definition state_fixed (m : scanner_method) (r : ResourceMetadata) : Prop :=
  match m with
  | S3_scan_buckets | IAM_scan_users | IAM_scan_roles
  | Lambda_scan_functions | CloudWatchLogs_scan_log_groups => state r = "active"
  | EC2_scan_elastic_ips => state r = "associated" \/ state r = "unassociated"
  | _ => True
  end.

(** the shape every record of a method has *)
Definition record_of (m : scanner_method) (region_arg : string)
    (r : ResourceMetadata) : Prop :=
  resource_type r = kind_of m /\
  region_fixed m region_arg r /\
  state_fixed m r /\
  is_Some (resource_name r) /\
  is_Some (creation_date r) /\
  estimated_cost_monthly r = None.

(** an instance of a listing that has every key [scan_instances] reads *)
Definition tag_complete (t : Tag.t) : Prop :=
  is_Some (Tag.Key t) /\ is_Some (Tag.Value t).

Definition instance_complete (i : Instance.t) : Prop :=
  is_Some (Instance.InstanceId i) /\
  (exists st, Instance.State i = Some st /\ is_Some (InstanceState.Name st)) /\
  is_Some (Instance.LaunchTime i) /\
  Forall tag_complete (default [] (Instance.Tags i)).

(** the instances of a listing, in listing order *)
Definition listed_instances (response : DescribeInstances.t) : list Instance.t :=
  concat (map (fun rsv => default [] (Reservation.Instances rsv))
            (default [] (DescribeInstances.Reservations response))).

(** the state of a listed instance *)
Definition instance_state (i : Instance.t) : option string :=
  Instance.State i ≫= InstanceState.Name.

(** the dictionary [{t['Key']: t['Value'] for t in l}] of tags that have
    their keys and values: a later tag replaces an earlier one of its key *)
Definition provider_tags (l : list Tag.t) : gmap string string :=
  foldl (fun acc t =>
           match Tag.Key t, Tag.Value t with
           | Some k, Some v => <[k := v]> acc
           | _, _ => acc
           end) ∅ l.

(** how a record relates to the instance it was made from: every field is
    the provider's *)
Definition made_from (reg : string) (i : Instance.t) (r : ResourceMetadata) : Prop :=
  let provided := provider_tags (default [] (Instance.Tags i)) in
  Some (resource_id r) = Instance.InstanceId i /\
  Some (state r) = instance_state i /\
  region r = reg /\
  resource_type r = "EC2_Instance" /\
  tags r = provided /\
  resource_name r = Some (default "Unnamed" (provided !! "Name")) /\
  creation_date r = isoformat <$> Instance.LaunchTime i /\
  estimated_cost_monthly r = None /\
  additional_metadata r =
    [ ("instance_type", opt_str (Instance.InstanceType i));
      ("vpc_id", opt_str (Instance.VpcId i));
      ("subnet_id", opt_str (Instance.SubnetId i));
      ("public_ip", opt_str (Instance.PublicIpAddress i));
      ("private_ip", opt_str (Instance.PrivateIpAddress i)) ].

(** ** Counting and collecting *)

(** the number of records whose field [f] is [k] *)
Definition count_by (f : ResourceMetadata -> string) (k : string)
    (rs : list ResourceMetadata) : nat :=
  length (filter (fun r => f r = k) rs).

(** the entry of a frequency table for a count: absent when zero *)
Definition count_entry (n : nat) : option nat :=
  match n with 0 => None | S _ => Some n end.

(** the records held by the futures that returned, in the order given *)
Definition ok_records (futures : list (res (list ResourceMetadata)))
    : list ResourceMetadata :=
  concat (map (fun f => match f with Ok rs => rs | Raise _ => [] end) futures).

(** the errors recorded for the futures that raised, in the order given *)
Definition err_records (futures : list (res (list ResourceMetadata)))
    : list ScanError :=
  concat (map (fun f => match f with
                        | Ok _ => []
                        | Raise e => [mkScanError "scan_error" (str_exn e)]
                        end) futures).

(** ** The validators and the actions, by kind *)

Inductive validator :=
| ec2_stop | rds_stop | nat_gateway_delete | elastic_ip_release.

Definition run_validator (E : Env) (v : validator)
    (resource_id region : option string) : M world Validation :=
  match v with
  | ec2_stop => validate_ec2_stop E resource_id region
  | rds_stop => validate_rds_stop E resource_id region
  | nat_gateway_delete => validate_nat_gateway_delete E resource_id region
  | elastic_ip_release => validate_elastic_ip_release E resource_id region
  end.

(** the service whose client a validator asks for *)
Definition validator_service (v : validator) : string :=
  match v with rds_stop => "rds" | _ => "ec2" end.

(** the read a validator makes *)
Definition validator_read (v : validator) (resource_id : option string) : Op.t :=
  match v with
  | ec2_stop => Op.describe_instances (Some [resource_id])
  | rds_stop => Op.describe_db_instances (Some resource_id)
  | nat_gateway_delete => Op.describe_nat_gateways (Some [resource_id])
  | elastic_ip_release => Op.describe_addresses (Some [resource_id])
  end.

(** the listing of the response to that read is empty *)
Definition listing_empty (v : validator) (resource_id : option string)
    : Op.response (validator_read v resource_id) -> Prop :=
  match v with
  | ec2_stop => fun r => DescribeInstances.Reservations r = Some []
  | rds_stop => fun r => DescribeDBInstances.DBInstances r = Some []
  | nat_gateway_delete => fun r => DescribeNatGateways.NatGateways r = Some []
  | elastic_ip_release => fun r => DescribeAddresses.Addresses r = Some []
  end.

Definition not_found_reason (v : validator) : string :=
  match v with
  | ec2_stop => "Instance not found"
  | rds_stop => "RDS instance not found"
  | nat_gateway_delete => "NAT Gateway not found"
  | elastic_ip_release => "Elastic IP not found"
  end.

(** the pairs of [action_map] *)
Definition supported_pairs : list (string * ActionType) :=
  [ ("EC2_Instance", STOP); ("RDS_Instance", STOP); ("NAT_Gateway", DELETE);
    ("Elastic_IP", DELETE); ("EBS_Volume", DELETE); ("S3_Bucket", DELETE) ].

(** the one request by which an action changes its resource *)
Definition mutation_of (f : action_func) (resource_id : option string) : Op.t :=
  match f with
  | self_stop_ec2_instance => Op.stop_instances resource_id
  | self_stop_rds_instance => Op.stop_db_instance resource_id
  | self_delete_nat_gateway => Op.delete_nat_gateway resource_id
  | self_release_elastic_ip => Op.release_address resource_id
  | self_delete_ebs_volume => Op.delete_volume resource_id
  | self_delete_s3_bucket => Op.delete_bucket resource_id
  end.

(** [touches op m]: a run of [m] makes no mutating request and does not
    report success, or makes exactly one, the operation [op] *)
Definition touches (op : Op.t) (m : M world DeleteResult) : Prop :=
  forall w r w', m w = (r, w') ->
    exists new,
      history w' = history w ++ new /\ heap w' = heap w /\
      ((mutations new = [] /\ forall x, r = Ok x -> success x = false) \/
       (exists c, mutations new = [Call c op])).

(** [yields P m]: what [m] returns satisfies [P] *)
Definition yields {S A} (P : A -> Prop) (m : M S A) : Prop :=
  forall s a s', m s = (Ok a, s') -> P a.

(** an outcome that echoes the request and whose verification status agrees
    with its success *)
Definition answers (resource_id resource_type : option string) (action_value : string)
    (r : DeleteResult) : Prop :=
  dr_resource_id r = resource_id /\
  dr_resource_type r = resource_type /\
  action r = action_value /\
  verification_status r = (if success r then "verified" else "failed") /\
  (success r = true -> error r = None).

(** ** Scenarios for the actions *)

Definition example_volume (id state : string) : Volume.t :=
  Volume.mk (Some id) None (Some state) (Some (mkDatetime "2023-03-03T09:00:00"))
    (Some 100%Z) (Some "gp3") None (Some []).

(** a provider with one volume in the given state, which accepts its
    deletion *)
Definition one_volume_env (volume_state : string) : Env :=
  mkEnv
    (fun _ r =>
       match r return res (response r) with
       | NewClient _ _ => Ok tt
       | Call _ op =>
           match op return res (Op.response op) with
           | Op.describe_volumes _ =>
               Ok (DescribeVolumes.mk (Some [example_volume "vol-1" volume_state]))
           | Op.delete_volume _ => Ok tt
           | _ => Raise (ClientError "AccessDenied")
           end
       end)
    example_clock "2024-01-01T12:00:00".

Definition example_gateway (id state : string) : NatGateway.t :=
  NatGateway.mk (Some id) None (Some state)
    (Some (mkDatetime "2023-04-04T10:00:00")) (Some "subnet-1") (Some []).

(** a provider with one NAT gateway in the given state *)
Definition one_gateway_env (gateway_state : string) : Env :=
  mkEnv
    (fun _ r =>
       match r return res (response r) with
       | NewClient _ _ => Ok tt
       | Call _ op =>
           match op return res (Op.response op) with
           | Op.describe_nat_gateways _ =>
               Ok (DescribeNatGateways.mk (Some [example_gateway "nat-1" gateway_state]))
           | Op.delete_nat_gateway _ => Ok tt
           | _ => Raise (ClientError "AccessDenied")
           end
       end)
    example_clock "2024-01-01T12:00:00".

Definition example_address (id : string) (instance : option string) : Address.t :=
  Address.mk (Some id) None (Some "203.0.113.7")
    (match instance with Some _ => Some "eipassoc-1" | None => None end)
    (Some "1") instance None.

(** a provider with one address, associated with the given instance if any *)
Definition one_address_env (instance : option string) : Env :=
  mkEnv
    (fun _ r =>
       match r return res (response r) with
       | NewClient _ _ => Ok tt
       | Call _ op =>
           match op return res (Op.response op) with
           | Op.describe_addresses _ =>
               Ok (DescribeAddresses.mk (Some [example_address "eipalloc-1" instance]))
           | Op.release_address _ => Ok tt
           | _ => Raise (ClientError "AccessDenied")
           end
       end)
    example_clock "2024-01-01T12:00:00".

(** ** Scenarios for the cost summary *)

Definition costing (id kind : string) (cost : float) : ResourceMetadata :=
  mkResourceMetadata id (Some id) kind "us-east-1" "running" None ∅ (Some cost) [].

(** three resources costing 0.096, 0.192 and 0.017 a month *)
Definition three_instances : list ResourceMetadata :=
  [ costing "i-1" "EC2_Instance" 0x1.89374bc6a7efap-4%float;
    costing "i-2" "EC2_Instance" 0x1.89374bc6a7efap-3%float;
    costing "db-1" "RDS_Instance" 0x1.16872b020c49cp-6%float ].

(** the same, the last one second *)
Definition three_instances_reordered : list ResourceMetadata :=
  [ costing "i-1" "EC2_Instance" 0x1.89374bc6a7efap-4%float;
    costing "db-1" "RDS_Instance" 0x1.16872b020c49cp-6%float;
    costing "i-2" "EC2_Instance" 0x1.89374bc6a7efap-3%float ].

(** ** The other endpoints of [api.py] *)

(** [s.split(sep)] for a separator of one character: every occurrence
    separates, and the empty string gives one empty piece *)
Fixpoint split (sep : ascii) (s : string) : list string :=
  match s with
  | EmptyString => [EmptyString]
  | String c s' =>
      if Ascii.eqb c sep then EmptyString :: split sep s'
      else match split sep s' with
           | piece :: pieces => String c piece :: pieces
           | [] => [String c EmptyString]
           end
  end.

(** [sep in s] for a separator of one character *)
Fixpoint has_char (sep : ascii) (s : string) : bool :=
  match s with
  | EmptyString => false
  | String c s' => Ascii.eqb c sep || has_char sep s'
  end.

(** the variables of [os.environ] the handlers read *)
Record Environ := mkEnviron {
  VALID_API_KEYS : option string;
  DEBUG : option string
}.

(** [validate_api_key(api_key)] *)
Definition validate_api_key (environ : Environ) (api_key : string) : bool :=
  let valid_keys := split "," (default EmptyString (VALID_API_KEYS environ)) in
  bool_decide (api_key ∈ valid_keys).

(** the headers [require_api_key] reads *)
Record Headers := mkHeaders {
  Authorization : option string;
  X_API_Key : option string
}.

(** what a decorated handler gives: the 401 of the decorator, or what the
    handler gives *)
Inductive Authenticated (A : Type) :=
| Rejected401 (error : string)
| Proceed (a : A).
Arguments Rejected401 {A} error.
Arguments Proceed {A} a.

(** [require_api_key(f)]; [jwt_valid token] is whether
    [jwt.decode(token, SECRET_KEY, algorithms=[...])] returns rather than
    raises [InvalidTokenError] *)
Definition require_api_key {A} (jwt_valid : string -> bool) (environ : Environ)
    (headers : Headers) (f : A) : Authenticated A :=
  let token : res (option string) :=
    (* Check for token in header *)
    match Authorization headers with
    | Some auth_header =>
        match split " " auth_header !! 1 with
        | Some token => Ok (Some token)
        | None => Raise (IndexError "list index out of range")
        end
    | None => Ok None
    end in
  match token with
  | Raise _ => Rejected401 "Invalid authorization header"
  | Ok token =>
      if negb (truthy token) then
        (* Check for API key *)
        let api_key := X_API_Key headers in
        if negb (truthy api_key) then Rejected401 "Missing authentication"
        else if negb (validate_api_key environ (default EmptyString api_key))
        then Rejected401 "Invalid API key"
        else Proceed f
      else
        (* Validate JWT token *)
        if jwt_valid (default EmptyString token) then Proceed f
        else Rejected401 "Invalid token"
  end.

(** *** [filter_resources] *)

(** [a == v] for a string [a] and a JSON value [v] *)
Definition str_eq (a : string) (v : json) : bool :=
  match v with
  | JStr s => String.eqb a s
  | _ => false
  end.

(** [a == v] for [a] a string or [None] *)
Definition opt_str_eq (a : option string) (v : json) : bool :=
  match a, v with
  | Some a, JStr s => String.eqb a s
  | None, JNull => true
  | _, _ => false
  end.

(** [key in filters] *)
Definition has_key {S} (filters : json) (key : string) : M S bool :=
  match filters with
  | JObj members => ret (bool_decide (is_Some (members !! key)))
  | JArr items => ret (existsb (str_eq key) items)
  | JStr s => ret (contains s key)
  | v => raise (TypeError ("argument of type '" +:+ type_name v
                           +:+ "' is not iterable"))
  end.

(** [filters[key]] for a key that is a string *)
Definition subscript {S} (filters : json) (key : string) : M S json :=
  match filters with
  | JObj members =>
      match members !! key with
      | Some v => ret v
      | None => raise (KeyError key)
      end
  | JArr _ => raise (TypeError "list indices must be integers or slices, not str")
  | JStr _ => raise (TypeError "string indices must be integers, not 'str'")
  | v => raise (TypeError ("'" +:+ type_name v +:+ "' object is not subscriptable"))
  end.

(** [tag_filters.items()] *)
Definition items {S} (tag_filters : json) : M S (gmap string json) :=
  match tag_filters with
  | JObj members => ret members
  | v => raise (no_attribute v "items")
  end.

(** [[r for r in filtered if cond(r)]]: the condition is evaluated for each
    resource in turn *)
Fixpoint comprehension {S A} (cond : A -> M S bool) (filtered : list A)
    : M S (list A) :=
  match filtered with
  | [] => ret []
  | r :: filtered =>
      keep <- cond r ;;
      rest <- comprehension cond filtered ;;
      ret (if keep then r :: rest else rest)
  end.

(** [all(r.get('tags', {}).get(k) == v for k, v in tag_filters)] *)
Definition tags_match (tag_filters : gmap string json) (r : ResourceMetadata)
    : Prop :=
  map_Forall (fun k v => opt_str_eq (tags r !! k) v = true) tag_filters.

(** the body of a filter request: the value under ['resources'], a list of
    records as the scan endpoint returns them (none when the key is absent),
    and the value under ['filters'], any JSON value *)
Record FilterRequest := mkFilterRequest {
  fr_resources : list ResourceMetadata;
  fr_filters : option json
}.

Inductive FilterResponse :=
| Filter200 (total : nat) (resources : list ResourceMetadata)
| Filter500 (error : string).

(** [filter_resources()] *)
Definition filter_resources (request : Body FilterRequest) : FilterResponse :=
  match request with
  | Unreadable _ => Filter500 "Failed to filter resources"
  | Data data =>
      let body : M unit FilterResponse :=
        let resources := fr_resources data in
        let filters := default (JObj ∅) (fr_filters data) in
        let filtered := resources in
        (* Apply filters *)
        given <- has_key filters "resource_type" ;;
        filtered <-
          (if given : bool
           then comprehension
                  (fun r => v <- subscript filters "resource_type" ;;
                            ret (str_eq (resource_type r) v)) filtered
           else ret filtered) ;;
        given <- has_key filters "region" ;;
        filtered <-
          (if given : bool
           then comprehension
                  (fun r => v <- subscript filters "region" ;;
                            ret (str_eq (region r) v)) filtered
           else ret filtered) ;;
        given <- has_key filters "state" ;;
        filtered <-
          (if given : bool
           then comprehension
                  (fun r => v <- subscript filters "state" ;;
                            ret (str_eq (state r) v)) filtered
           else ret filtered) ;;
        given <- has_key filters "tags" ;;
        filtered <-
          (if given : bool
           then tag_filters <- subscript filters "tags" ;;
                comprehension
                  (fun r => tag_filters <- items tag_filters ;;
                            ret (bool_decide (tags_match tag_filters r))) filtered
           else ret filtered) ;;
        ret (Filter200 (length filtered) filtered) in
      match body tt with
      | (Ok response, _) => response
      | (Raise _, _) => Filter500 "Failed to filter resources"
      end
  end.

(** a resource passes the filters of an object: its field equals the value
    given for it, and the tag filters, an object, all match *)
Definition passes (filters : gmap string json) (r : ResourceMetadata) : Prop :=
  (forall v, filters !! "resource_type" = Some v -> str_eq (resource_type r) v = true) /\
  (forall v, filters !! "region" = Some v -> str_eq (region r) v = true) /\
  (forall v, filters !! "state" = Some v -> str_eq (state r) v = true) /\
  (forall tag_filters, filters !! "tags" = Some (JObj tag_filters) ->
     tags_match tag_filters r).

(** a resource passes the filters on its fields, the tags apart *)
Definition passes_fields (filters : gmap string json) (r : ResourceMetadata)
    : Prop :=
  (forall v, filters !! "resource_type" = Some v -> str_eq (resource_type r) v = true) /\
  (forall v, filters !! "region" = Some v -> str_eq (region r) v = true) /\
  (forall v, filters !! "state" = Some v -> str_eq (state r) v = true).

(** *** [perform_resource_action] *)

(** an object body: the credentials of the body and of the headers, as
    references to their strings, and the other keys of the body with their
    values *)
Record ActionRequest := mkActionRequest {
  ar_body_access_key_id : option loc;
  ar_header_access_key : option loc;
  ar_body_secret_access_key : option loc;
  ar_header_secret_key : option loc;
  ar_data : gmap string json
}.

Definition ar_credentials (req : ActionRequest) : BulkRequest :=
  mkBulkRequest (ar_body_access_key_id req) (ar_header_access_key req)
    (ar_body_secret_access_key req) (ar_header_secret_key req) None.

(** the response: the status, and the outcome or the error; [details] is
    the value under ['details'] when the key is there and not null *)
Inductive ActionResponse :=
| ActionResult (status : nat) (result : ActionOutcome)
| ActionError (status : nat) (error : string) (details : option string).

Definition is_KeyError (e : exn) : bool :=
  match e with KeyError _ => true | _ => false end.

(** [[a.value for a in ActionType]] *)
Definition ActionType_values : list string :=
  map ActionType_value [STOP; DELETE; TERMINATE].

(** [str(e) if os.environ.get('DEBUG') else None], for the exceptions of the
    scan, whose keys are the field names of the code *)
Definition debug_details (environ : Environ) (e : exn) : option string :=
  if truthy (DEBUG environ) then Some (str_exn e) else None.

(** the world after [session_manager = AWSSessionManager(access_key, secret_key)] *)
Definition new_session (creds : loc * loc) : M world unit :=
  h <- get_state ;;
  session_manager <-
    of_res (AWSSessionManager_init (heap h) (fst creds) (snd creds) "us-east-1") ;;
  modify (fun w => mkWorld (heap w) session_manager (history w)).

Section Endpoints.

Context (E : Env) (environ : Environ).

Definition perform_resource_action (L : Library) (request : Body ActionRequest)
    (w : world) : ActionResponse * world :=
  match request with
  | Unreadable error =>
      (ActionError 500 "Internal server error"
         (if truthy (DEBUG environ) then Some error else None), w)
  | Data req =>
      let body : M world ActionResponse :=
        (* Extract credentials *)
        creds <- extract_credentials_from_request (ar_credentials req) ;;
        let data := ar_data req in
        let resource_id := obj_get data "resource_id" in
        let resource_type := obj_get data "resource_type" in
        let region := obj_get data "region" in
        action_str <-
          match data !! "action" with
          | None => ret (str_lower L EmptyString)
          | Some (JStr s) => ret (str_lower L s)
          | Some v => raise (no_attribute v "lower")
          end ;;
        (* Validate request *)
        if negb (json_truthy resource_id && json_truthy resource_type
                 && json_truthy region && json_truthy (JStr action_str))
        then ret (ActionError 400
                    "Missing required fields: resource_id, resource_type, region, action"
                    None)
        else
          (* Convert action string to enum *)
          action <-
            try_except
              (action <- ActionType_by_name (str_upper L action_str) ;;
               ret (inr action))
              is_KeyError
              (fun _ => ret (inl (ActionError 400
                         ("Invalid action. Supported: "
                          +:+ String.concat ", " ActionType_values) None))) ;;
          match action with
          | inl response => ret response
          | inr action =>
              (* Initialize session and executor *)
              new_session creds ;;;
              (* Execute action *)
              result <- execute_action_json E L resource_type resource_id region
                          action ;;
              (* Cleanup *)
              cleanup ;;;
              ret (ActionResult (if ao_success result then 200 else 400) result)
          end in
      match body w with
      | (Ok response, w') => (response, w')
      | (Raise e, w') =>
          if is_ValueError e then (ActionError 400 (str L e) None, w')
          else (ActionError 500 "Internal server error"
                  (if truthy (DEBUG environ) then Some (str L e) else None), w')
      end
  end.

(** *** [scan_resources] *)

(** the request of a scan, after JSON decoding; ['max_workers'] is absent or
    an integer *)
Record ScanRequest := mkScanRequest {
  sr_body_access_key_id : option loc;
  sr_header_access_key : option loc;
  sr_body_secret_access_key : option loc;
  sr_header_secret_key : option loc;
  sr_max_workers : option Z
}.

Definition sr_credentials (req : ScanRequest) : BulkRequest :=
  mkBulkRequest (sr_body_access_key_id req) (sr_header_access_key req)
    (sr_body_secret_access_key req) (sr_header_secret_key req) None.

Inductive ScanResponse :=
| ScanData (result : ScanResult)
| ScanFailure (status : nat) (error : string) (details : option string).

(** [scan_resources()]; [schedule] is the completion order of the futures
    of the scan *)
Definition scan_resources (schedule : list nat) (req : ScanRequest) (w : world)
    : ScanResponse * world :=
  let body : M world ScanResponse :=
    (* Extract credentials *)
    creds <- extract_credentials_from_request (sr_credentials req) ;;
    (* Get optional parameters *)
    let max_workers := default 5%Z (sr_max_workers req) in
    (* Initialize scanner *)
    scanner <- AWSResourceScanner_init (fst creds) (snd creds) ;;
    fun w =>
      match
        ((* Perform scan *)
         result <- scan E max_workers schedule ;;
         (* Cleanup *)
         scanner_cleanup ;;;
         ret (ScanData result)) (scanner, w)
      with
      | (r, (_, w')) => (r, w')
      end in
  match body w with
  | (Ok response, w') => (response, w')
  | (Raise e, w') =>
      if is_ValueError e then (ScanFailure 400 (str_exn e) None, w')
      else (ScanFailure 500 "Internal server error during scan"
              (debug_details environ e), w')
  end.

End Endpoints.

(** the session manager after [cleanup()] *)
Definition cleaned (sm : AWSSessionManager) : Prop :=
  _access_key sm = None /\ _secret_key sm = None /\
  _session sm = None /\ _clients sm = ∅.

(** ** Scenarios for the endpoints *)

(** a request to stop the instance of the small account *)
Definition stop_request : ActionRequest :=
  mkActionRequest (Some 0) None (Some 1) None (stop_fields (Some "i-0abc")).

(** the same request without ['resource_id'] *)
Definition stop_request_without_id : ActionRequest :=
  mkActionRequest (Some 0) None (Some 1) None (stop_fields None).

(** [keeps_credentials m]: a run of [m] leaves the credential attributes of
    the session manager as they are *)
Definition keeps_credentials {A} (m : M world A) : Prop :=
  forall w r w', m w = (r, w') ->
    _access_key (session w') = _access_key (session w) /\
    _secret_key (session w') = _secret_key (session w).

(** a scan request with the credentials of the scenarios *)
Definition scan_request (max_workers : option Z) : ScanRequest :=
  mkScanRequest (Some 0) None (Some 1) None max_workers.

(** a request whose resource type is a list *)
Definition list_type_request : ActionRequest :=
  mkActionRequest (Some 0) None (Some 1) None
    (<["resource_type" := JArr [JStr "EC2_Instance"]]>
       (stop_fields (Some "i-0abc"))).

(** the resource id, the resource type and the region of an object are
    strings or null, or absent *)
Definition typed_fields (data : gmap string json) : Prop :=
  forall key, key ∈ ["resource_id"; "resource_type"; "region"] ->
    is_Some (str_or_none (obj_get data key)).

(** an entry of a bulk request that is an object with such fields *)
Definition typed_entry (action_data : json) : Prop :=
  exists members, action_data = JObj members /\ typed_fields members.

(** the string whose case is changed to name the action of an entry: the one
    under ['action'], the empty string when the key is absent, none when the
    value is no string *)
Definition action_string (action_data : gmap string json) : option string :=
  match action_data !! "action" with
  | None => Some EmptyString
  | Some (JStr s) => Some s
  | Some _ => None
  end.

(** the characters of a string are ASCII characters *)
Fixpoint is_ascii (s : string) : Prop :=
  match s with
  | EmptyString => True
  | String c s' => nat_of_ascii c < 128 /\ is_ascii s'
  end.

(** the string methods of the library change the ASCII letters of a string
    of ASCII characters, as Python's do *)
Definition ascii_cases (L : Library) : Prop :=
  forall s, is_ascii s -> str_lower L s = lower s /\ str_upper L s = upper s.

(** two filter requests for the scenarios: on the records of two kinds, the
    kind of the first; and the same with null for the filters *)
Definition kind_filter_request : FilterRequest :=
  mkFilterRequest two_cheap_kinds
    (Some (JObj {[ "resource_type" := JStr "EC2_Instance" ]})).

Definition null_filter_request : FilterRequest :=
  mkFilterRequest two_cheap_kinds (Some JNull).
(** * Sanity checks of the model *)

Example round2_down : round2 0x1.0624dd2f1a9fcp-8%float = 0%float.
Proof. vm_compute. reflexivity. Qed.

Example round2_up :
  round2 0x1.0624dd2f1a9fcp-7%float = 0x1.47ae147ae147bp-7%float.
Proof. vm_compute. reflexivity. Qed.

Example round2_tie_to_even :
  round2 0x1p-3%float = 0x1.eb851eb851eb8p-4%float.
Proof. vm_compute. reflexivity. Qed.

Example round2_negative :
  round2 (-0x1.0624dd2f1a9fcp-10)%float = (-0)%float.
Proof. vm_compute. reflexivity. Qed.

Example round2_no_tie_in_binary :
  round2 0x1.5666666666666p+1%float = 0x1.55c28f5c28f5cp+1%float.
Proof. vm_compute. reflexivity. Qed.

Example sorted_regions :
  sorted ["us-east-1"; "eu-west-1"; "ap-south-1"]
  = ["ap-south-1"; "eu-west-1"; "us-east-1"].
Proof. reflexivity. Qed.

Example orchestrator_init :
  AWSResourceScanner_init 0 1
    (mkWorld example_heap (mkAWSSessionManager "eu-west-1" None None None ∅) [])
  = (Ok (mkAWSResourceScanner []), fresh_world).
Proof. reflexivity. Qed.

Example empty_credentials_refused :
  fst (AWSResourceScanner_init 0 7 fresh_world)
  = Raise (ValueError "AWS credentials cannot be empty").
Proof. reflexivity. Qed.

Example unsupported_pair_reported :
  fst (execute_action denied_env (Some "IAM_User") (Some "u1") None DELETE fresh_world)
  = Ok (failed_result (Some "u1") (Some "IAM_User") "delete"
          "Unsupported action delete for resource type IAM_User" None).
Proof. reflexivity. Qed.
(** * Aggregation *)

Section Summary_facts.

Lemma values_sum_empty : values_sum ∅ = 0.
Proof. unfold values_sum. apply map_fold_empty. Qed.

Lemma values_sum_insert_fresh (d : gmap string nat) k v :
  d !! k = None -> values_sum (<[k := v]> d) = v + values_sum d.
Proof.
  intros Hk. unfold values_sum.
  apply (map_fold_insert_L (fun _ v acc => v + acc)); [ | done].
  intros; lia.
Qed.

Lemma values_sum_count_incr (d : gmap string nat) k :
  values_sum (count_incr d k) = values_sum d + 1.
Proof.
  unfold count_incr. destruct (d !! k) as [v|] eqn:Hk; simpl.
  - rewrite <- (insert_delete_eq d k (v + 1)).
    rewrite values_sum_insert_fresh by apply lookup_delete_eq.
    rewrite <- (insert_id d k v Hk) at 2.
    rewrite <- (insert_delete_eq d k v).
    rewrite values_sum_insert_fresh by apply lookup_delete_eq.
    lia.
  - rewrite values_sum_insert_fresh by done. lia.
Qed.

Lemma foldl_summary_step_sums l : forall t r s t' r' s',
  foldl summary_step (t, r, s) l = (t', r', s') ->
  values_sum t' = values_sum t + length l /\
  values_sum r' = values_sum r + length l /\
  values_sum s' = values_sum s + length l.
Proof.
  induction l as [|x l IH]; intros t r s t' r' s' H; simpl in *.
  - inversion H; subst. lia.
  - apply IH in H. rewrite !values_sum_count_incr in H. lia.
Qed.

End Summary_facts.

(** C2. For every list of resource records the summary reports as total the
    length of the list, and the values of each of the three frequency tables
    (by type, by region, by state) sum to that total. *)
Theorem build_summary_totals (resources : list ResourceMetadata) :
  total_resources (_build_summary resources) = length resources /\
  values_sum (by_type (_build_summary resources))
    = total_resources (_build_summary resources) /\
  values_sum (by_region (_build_summary resources))
    = total_resources (_build_summary resources) /\
  values_sum (by_state (_build_summary resources))
    = total_resources (_build_summary resources).
Proof.
  unfold _build_summary.
  destruct (foldl summary_step (∅, ∅, ∅) resources) as [[t r] s] eqn:Hf.
  apply foldl_summary_step_sums in Hf. rewrite values_sum_empty in Hf.
  simpl. intuition lia.
Qed.
(** * The cost summary *)

Section Cost_facts.

Lemma cost_step_insert (acc : gmap string number) r :
  cost_step acc r =
  <[resource_type r :=
      number_add (default Int0 (acc !! resource_type r)) (cost_or_0 r)]> acc.
Proof.
  unfold cost_step. destruct (acc !! resource_type r) as [v|] eqn:Hk.
  - rewrite Hk. reflexivity.
  - rewrite lookup_insert_eq, insert_insert_eq. reflexivity.
Qed.

(** the entry of a kind after the loop: the entry before it, to which the
    costs of the records of that kind were added in list order *)
Lemma foldl_cost_step_lookup rs : forall (acc : gmap string number) k,
  foldl cost_step acc rs !! k =
  match of_kind k rs with
  | [] => acc !! k
  | _ :: _ =>
      Some (foldl (fun a r => number_add a (cost_or_0 r))
              (default Int0 (acc !! k)) (of_kind k rs))
  end.
Proof.
  unfold of_kind.
  induction rs as [|r rs IH]; intros acc k; simpl; [done|].
  rewrite IH, cost_step_insert.
  rewrite filter_cons. case_decide as Hk.
  - subst k. rewrite lookup_insert_eq. simpl.
    by destruct (filter _ rs).
  - rewrite lookup_insert_ne by done. done.
Qed.

Lemma sum_costs_no_cost rs : no_cost rs -> sum_costs rs = Int0.
Proof.
  unfold sum_costs. induction 1 as [|r rs Hr _ IH]; simpl; [done|].
  unfold cost_or_0 at 2. rewrite Hr. simpl. exact IH.
Qed.

Lemma no_cost_summary_zero rs :
  no_cost rs ->
  estimated_monthly_total (_build_cost_summary rs) = Int0 /\
  forall k v, by_resource_type (_build_cost_summary rs) !! k = Some v -> v = Int0.
Proof.
  intros H. unfold _build_cost_summary; cbn [estimated_monthly_total by_resource_type].
  split.
  - by rewrite sum_costs_no_cost.
  - intros k v. rewrite lookup_fmap, foldl_cost_step_lookup, lookup_empty.
    assert (Hk : no_cost (of_kind k rs)).
    { unfold of_kind. induction H as [|r rs Hr _ IH]; [constructor|].
      rewrite filter_cons. case_decide; [constructor|]; done. }
    pose proof (sum_costs_no_cost _ Hk) as Hs. unfold sum_costs in Hs.
    destruct (of_kind k rs); [done|].
    cbn [from_option]. unfold id. rewrite Hs. by intros [= <-].
Qed.

End Cost_facts.

(** floats are not decimals: 0.001 + 0.014 is below 0.015, and the total of
    these two costs is 0.01 *)
Example float_sum_below_the_tie :
  _build_cost_summary two_small_costs
  = mkCostSummary (Float 0x1.47ae147ae147bp-7%float)
      {[ "EC2_Instance" := Float 0x1.47ae147ae147bp-7%float ]}.
Proof. vm_compute. reflexivity. Qed.

(** C7, as stated, fails: the rounded per-kind costs need not sum to the
    rounded total.  Two kinds costing 0.004 each are both rounded to 0.0,
    and the total 0.008 is rounded to 0.01: the difference is far above a
    floating-point tolerance. *)
Lemma cost_summary_kinds_sum_differs :
  let cost_summary := _build_cost_summary two_cheap_kinds in
  let total := to_float (estimated_monthly_total cost_summary) in
  by_resource_type cost_summary
    = {[ "EC2_Instance" := Float 0%float; "EBS_Volume" := Float 0%float ]} /\
  total = 0x1.47ae147ae147bp-7%float /\
  (float_tolerance <? abs (total - (0 + 0)))%float = true.
Proof. vm_compute. repeat split. Qed.

(** C7 (amended). The total of the cost summary is the sum of the estimated
    monthly costs in list order, an absent or zero cost counting as 0,
    rounded to 2 decimal places; its entry for a kind is there when a record
    has that kind, and is the sum of the costs of the records of that kind
    in list order, rounded to 2 decimal places. *)
Theorem build_cost_summary_rounded (resources : list ResourceMetadata) :
  estimated_monthly_total (_build_cost_summary resources)
    = number_round2 (sum_costs resources) /\
  (forall k,
     by_resource_type (_build_cost_summary resources) !! k =
     match of_kind k resources with
     | [] => None
     | _ :: _ => Some (number_round2 (sum_costs (of_kind k resources)))
     end).
Proof.
  split; [reflexivity|].
  intros k. unfold _build_cost_summary; cbn [by_resource_type].
  rewrite lookup_fmap, foldl_cost_step_lookup, lookup_empty.
  by destruct (of_kind k resources).
Qed.
(** * The monad: how a property of the local list is kept *)

Section Monad_facts.

Context {L S : Type}.

Lemma keeps_ret {A} P (a : A) : keeps (L:=L) (S:=S) P (ret a).
Proof. intros l s r l' s' H Hl. inversion H; subst; done. Qed.

Lemma keeps_raise {A} P e : keeps (L:=L) (S:=S) P (@raise _ A e).
Proof. intros l s r l' s' H Hl. inversion H; subst; done. Qed.

Lemma keeps_bind {A B} P (m : M (L * S) A) (k : A -> M (L * S) B) :
  keeps (L:=L) (S:=S) P m -> (forall a, keeps (L:=L) (S:=S) P (k a)) -> keeps (L:=L) (S:=S) P (bind m k).
Proof.
  intros Hm Hk l s r l' s' H Hl. unfold bind in H.
  destruct (m (l, s)) as [[a|e] [l1 s1]] eqn:Em.
  - eapply Hk; eauto.
  - inversion H; subst. eapply Hm; eauto.
Qed.

Lemma keeps_lift {A} P (m : M S A) : keeps (L:=L) (S:=S) P (lift m).
Proof.
  intros l s r l' s' H Hl. unfold lift in H.
  destruct (m s) as [r1 s1]. inversion H; subst; done.
Qed.

Lemma keeps_of_res {A} P (x : res A) : keeps (L:=L) (S:=S) P (of_res x).
Proof. intros l s r l' s' H Hl. inversion H; subst; done. Qed.

Lemma keeps_try_except {A} P (m : M (L * S) A) c h :
  keeps (L:=L) (S:=S) P m -> (forall e, keeps (L:=L) (S:=S) P (h e)) -> keeps (L:=L) (S:=S) P (try_except m c h).
Proof.
  intros Hm Hh l s r l' s' H Hl. unfold try_except in H.
  destruct (m (l, s)) as [[a|e] [l1 s1]] eqn:Em.
  - inversion H; subst. eapply Hm; eauto.
  - destruct (c e).
    + eapply Hh; eauto.
    + inversion H; subst. eapply Hm; eauto.
Qed.

Lemma keeps_for {A} P (l : list A) (body : A -> M (L * S) unit) :
  (forall x, keeps (L:=L) (S:=S) P (body x)) -> keeps (L:=L) (S:=S) P (for_ l body).
Proof.
  intros Hb. induction l as [|x l IH]; simpl.
  - apply keeps_ret.
  - apply keeps_bind; auto.
Qed.

Lemma keeps_for_pages {A} P (pages : paged A) (body : A -> M (L * S) unit) :
  (forall x, keeps (L:=L) (S:=S) P (body x)) -> keeps (L:=L) (S:=S) P (for_pages pages body).
Proof.
  intros Hb. unfold for_pages. apply keeps_bind.
  - apply keeps_for; auto.
  - intros _. destruct (snd pages); [apply keeps_raise | apply keeps_ret].
Qed.

Lemma keeps_getitem {A} P key (o : option A) : keeps (L:=L) (S:=S) P (getitem key o).
Proof. destruct o; [apply keeps_ret | apply keeps_raise]. Qed.

Lemma keeps_first_item {A} P (l : list A) : keeps (L:=L) (S:=S) P (first_item l).
Proof. destruct l; [apply keeps_raise | apply keeps_ret]. Qed.

Lemma keeps_tags_dict P l : forall acc, keeps (L:=L) (S:=S) P (tags_dict l acc).
Proof.
  induction l as [|t l IH]; intros acc; simpl.
  - apply keeps_ret.
  - apply keeps_bind; [apply keeps_getitem|]. intros k.
    apply keeps_bind; [apply keeps_getitem|]. intros v. apply IH.
Qed.

Lemma keeps_tag_descriptions_tags P l :
  forall acc, keeps (L:=L) (S:=S) P (tag_descriptions_tags l acc).
Proof.
  induction l as [|t l IH]; intros acc; simpl.
  - apply keeps_ret.
  - apply keeps_bind; [apply keeps_tags_dict|]. intros k. apply IH.
Qed.

Lemma keeps_attachment_ids P l : keeps (L:=L) (S:=S) P (attachment_ids l).
Proof.
  induction l as [|t l IH]; simpl.
  - apply keeps_ret.
  - apply keeps_bind; [apply keeps_getitem|]. intros k.
    apply keeps_bind; [apply IH|]. intros v. apply keeps_ret.
Qed.

End Monad_facts.

Section Scanner_facts.

Lemma keeps_append (P : list ResourceMetadata -> Prop) r :
  (forall rs, P rs -> P (rs ++ [r])) -> keeps (S := world) P (append r).
Proof.
  intros Hr l s x l' s' H Hl. unfold append, modify in H.
  inversion H; subst. auto.
Qed.

Lemma no_cost_snoc rs id name type region state date tags meta :
  no_cost rs ->
  no_cost (rs ++ [ResourceMetadata_ id name type region state date tags meta]).
Proof.
  intros H. apply Forall_app. split; [done|]. by constructor.
Qed.

(** what a scanner method returns, from the run of its [try] block *)
Lemma scanner_unfold body w :
  scanner body w =
  match body ([], w) with
  | (Ok _, (rs, w')) => (Ok rs, w')
  | (Raise e, (rs, w')) =>
      if is_ClientError e then (Ok rs, w') else (Raise e, w')
  end.
Proof.
  unfold scanner, try_except.
  destruct (body ([], w)) as [[[]|e] [rs w']]; [done|].
  destruct (is_ClientError e); done.
Qed.

Lemma scanner_keeps (P : list ResourceMetadata -> Prop) body w rs w' :
  keeps P body -> P [] -> scanner body w = (Ok rs, w') -> P rs.
Proof.
  intros Hk H0 H. rewrite scanner_unfold in H.
  destruct (body ([], w)) as [[[]|e] [rs1 w1]] eqn:Eb.
  - inversion H; subst. eapply Hk; eauto.
  - destruct (is_ClientError e); inversion H; subst. eapply Hk; eauto.
Qed.

Lemma scanner_no_ClientError body w msg :
  fst (scanner body w) <> Raise (ClientError msg).
Proof.
  rewrite scanner_unfold.
  destruct (body ([], w)) as [[[]|e] [rs1 w1]]; [done|].
  destruct e; simpl; done.
Qed.

Lemma run_scanner_try_block E m region :
  run_scanner E m region = scanner (try_block E m region).
Proof. destruct m; reflexivity. Qed.

Ltac keeps_step :=
  first
    [ apply keeps_ret | apply keeps_raise | apply keeps_lift | apply keeps_of_res
    | apply keeps_getitem | apply keeps_first_item | apply keeps_tags_dict
    | apply keeps_tag_descriptions_tags | apply keeps_attachment_ids
    | apply keeps_append; intros; apply no_cost_snoc; assumption
    | apply keeps_bind; [ | intros ? ]
    | apply keeps_try_except; [ | intros ? ]
    | apply keeps_for; intros ?
    | apply keeps_for_pages; intros ?
    | match goal with
      | |- keeps _ (match ?x with _ => _ end) => destruct x
      | |- keeps _ (let _ := _ in _) => cbv zeta
      end ].

Lemma try_block_keeps_no_cost E m region :
  keeps no_cost (try_block E m region).
Proof.
  destruct m; cbv [try_block
    EC2Scanner_scan_instances_try EC2Scanner_scan_volumes_try
    EC2Scanner_scan_elastic_ips_try RDSScanner_scan_instances_try
    LambdaScanner_scan_functions_try ELBScanner_scan_load_balancers_try
    CloudWatchLogsScanner_scan_log_groups_try
    NATGatewayScanner_scan_nat_gateways_try S3Scanner_scan_buckets_try
    IAMScanner_scan_users_try IAMScanner_scan_roles_try];
  repeat keeps_step.
Qed.

(** every record a scanner method returns carries no cost estimate *)
Lemma run_scanner_no_cost E m region w rs w' :
  run_scanner E m region w = (Ok rs, w') -> no_cost rs.
Proof.
  rewrite run_scanner_try_block. apply scanner_keeps.
  - apply try_block_keeps_no_cost.
  - constructor.
Qed.

End Scanner_facts.
(** * The orchestrator *)

Section Orchestrator_facts.

Context (E : Env).

Lemma bind_Ok {S A B} (m : M S A) (k : A -> M S B) s a s' :
  m s = (Ok a, s') -> bind m k s = k a s'.
Proof. intros H. unfold bind. by rewrite H. Qed.

Lemma bind_Raise {S A B} (m : M S A) (k : A -> M S B) s e s' :
  m s = (Raise e, s') -> bind m k s = (Raise e, s').
Proof. intros H. unfold bind. by rewrite H. Qed.

Lemma bind_Ok_inv {S A B} (m : M S A) (k : A -> M S B) s b s'' :
  bind m k s = (Ok b, s'') ->
  exists a s', m s = (Ok a, s') /\ k a s' = (Ok b, s'').
Proof.
  unfold bind. destruct (m s) as [[a|e] s']; [eauto | discriminate].
Qed.

Lemma lift_eq {L S A} (m : M S A) (l : L) s r s' :
  m s = (r, s') -> lift m (l, s) = (r, (l, s')).
Proof. intros H. unfold lift. by rewrite H. Qed.

Lemma run_tasks_spec tasks : forall w,
  exists fs w', run_tasks E tasks w = (Ok fs, w') /\
                length fs = length tasks /\ Forall future_no_cost fs.
Proof.
  induction tasks as [|t tasks IH]; intros w; simpl.
  - exists [], w. repeat split; constructor.
  - unfold bind at 1. unfold run_task at 1.
    destruct (run_scanner E t.1 t.2 w) as [r w1] eqn:Er.
    destruct (IH w1) as (fs & w2 & Hfs & Hlen & Hall).
    unfold bind. rewrite Hfs. exists (r :: fs), w2. simpl.
    repeat split; [congruence|]. constructor; [|done].
    intros rs ->. eapply run_scanner_no_cost; eauto.
Qed.

Lemma as_completed_Forall {A} (P : A -> Prop) schedule :
  forall l, Forall P l -> Forall P (as_completed schedule l).
Proof.
  induction schedule as [|i schedule IH]; intros l Hl; simpl; [done|].
  destruct (l !! (i mod length l)) as [x|] eqn:Hx; [|done].
  constructor.
  - eapply Forall_lookup_1; eauto.
  - apply IH. by apply Forall_delete.
Qed.

Lemma as_completed_Permutation {A} schedule :
  forall l : list A, as_completed schedule l ≡ₚ l.
Proof.
  induction schedule as [|i schedule IH]; intros l; simpl; [done|].
  destruct (l !! (i mod length l)) as [x|] eqn:Hx; [|done].
  rewrite IH. symmetry. by apply delete_Permutation.
Qed.

(** the collection loop returns; it touches only the error list, which it
    extends *)
Lemma collect_spec futures : forall acc self w,
  exists rs new,
    collect futures acc (self, w)
      = (Ok rs, (mkAWSResourceScanner (self_errors self ++ new), w)) /\
    (Forall future_no_cost futures -> no_cost acc -> no_cost rs) /\
    (Forall (fun f => is_Ok f = true) futures -> new = []).
Proof.
  induction futures as [|f futures IH]; intros acc self w; simpl.
  - exists acc, []. rewrite app_nil_r. destruct self. done.
  - unfold bind at 1, try_except, of_res. destruct f as [rs|e]; simpl.
    + destruct (IH (acc ++ rs) self w) as (rs' & new & Hc & Hn & He).
      exists rs', new. split; [done|]. split.
      * intros Hf Ha. inversion Hf; subst. apply Hn; [done|].
        apply Forall_app. split; [done|]. by apply H1.
      * intros Hf. inversion Hf; subst. auto.
    + set (self1 := mkAWSResourceScanner
                      (self_errors self ++ [mkScanError "scan_error" (str_exn e)])).
      destruct (IH acc self1 w) as (rs' & new & Hc & Hn & He).
      exists rs', (mkScanError "scan_error" (str_exn e) :: new).
      split; [|split].
      * rewrite Hc. subst self1. simpl. by rewrite <- app_assoc.
      * intros Hf Ha. inversion Hf; subst. auto.
      * intros Hf. inversion Hf; subst. discriminate.
Qed.

(** [scan] from the point where the regions are known *)
Lemma scan_from_regions max_workers schedule self w regions w1 :
  (0 < max_workers)%Z ->
  get_regions E w = (Ok regions, w1) ->
  exists result new w',
    scan E max_workers schedule (self, w)
      = (Ok result, (mkAWSResourceScanner (self_errors self ++ new), w')) /\
    regions_scanned result = regions /\
    errors result = self_errors self ++ new /\
    no_cost (resources result) /\
    summary result = _build_summary (resources result) /\
    cost_summary result = _build_cost_summary (resources result).
Proof.
  intros Hmw Hg. unfold scan.
  rewrite (bind_Ok _ _ _ _ _ (lift_eq _ self _ _ _ Hg)).
  destruct (Z.leb_spec max_workers 0) as [?|_]; [lia|].
  rewrite (bind_Ok _ _ _ tt (self, w1) eq_refl).
  destruct (run_tasks_spec (concat (map regional_tasks regions)) w1)
    as (fs & w2 & Hfs & _ & Hall).
  rewrite (bind_Ok _ _ _ _ _ (lift_eq _ self _ _ _ Hfs)).
  destruct (collect_spec (as_completed schedule fs) [] self w2)
    as (rs1 & new1 & Hc & Hn1 & _).
  rewrite (bind_Ok _ _ _ _ _ Hc).
  assert (Hrs1 : no_cost rs1).
  { apply Hn1; [by apply as_completed_Forall | constructor]. }
  clear Hn1 Hc Hfs Hg.
  set (self1 := mkAWSResourceScanner (self_errors self ++ new1)).
  (* S3 *)
  unfold bind at 1, try_except at 1. unfold bind at 1.
  destruct (S3Scanner_scan_buckets E w2) as [rb w3] eqn:Eb.
  rewrite (lift_eq _ self1 _ _ _ Eb).
  assert (exists rs2 new2,
    (let (r, s') :=
       match rb with
       | Ok a => ret (rs1 ++ a) (self1, w3)
       | Raise e => (Raise e, (self1, w3))
       end in
     match r with
     | Ok a => (Ok a, s')
     | Raise e =>
         if any_Exception e
         then (errors_append "S3_scan_error" e;;; ret rs1) s'
         else (Raise e, s')
     end) = (Ok rs2, (mkAWSResourceScanner (self_errors self ++ new2), w3))
    /\ no_cost rs2) as (rs2 & new2 & -> & Hrs2).
  { destruct rb as [bs|e]; simpl.
    - exists (rs1 ++ bs), new1. split; [done|].
      apply Forall_app. split; [done|].
      apply (run_scanner_no_cost E S3_scan_buckets EmptyString w2 bs w3 Eb).
    - exists rs1, (new1 ++ [mkScanError "S3_scan_error" (str_exn e)]).
      split; [|done]. unfold bind, errors_append, modify, ret. simpl.
      by rewrite <- app_assoc. }
  clear Hrs1 Eb. set (self2 := mkAWSResourceScanner (self_errors self ++ new2)).
  (* IAM *)
  unfold bind at 1.
  destruct (IAMScanner_scan_users E w3) as [ru w4] eqn:Eu.
  rewrite (lift_eq _ self2 _ _ _ Eu).
  destruct ru as [us|e].
  - destruct (IAMScanner_scan_roles E w4) as [rr w5] eqn:Er.
    rewrite (lift_eq _ self2 _ _ _ Er).
    pose proof (run_scanner_no_cost E IAM_scan_users EmptyString w3 us w4 Eu) as Hus.
    destruct rr as [ros|e].
    + pose proof (run_scanner_no_cost E IAM_scan_roles EmptyString w4 ros w5 Er) as Hros.
      eexists _, new2, w5. unfold bind, get_state, ret; simpl.
      repeat split; try reflexivity.
      repeat (apply Forall_app; split); done.
    + eexists _, (new2 ++ [mkScanError "IAM_scan_error" (str_exn e)]), w5.
      unfold bind, errors_append, modify, get_state, ret; simpl.
      rewrite <- app_assoc.
      repeat split; try reflexivity.
      repeat (apply Forall_app; split); done.
  - eexists _, (new2 ++ [mkScanError "IAM_scan_error" (str_exn e)]), w4.
    unfold bind, errors_append, modify, get_state, ret; simpl.
    rewrite <- app_assoc.
    repeat split; try reflexivity. done.
Qed.

(** a scan that returns has resolved its regions with a valid pool size *)
Lemma scan_Ok_inv max_workers schedule s result s' :
  scan E max_workers schedule s = (Ok result, s') ->
  (0 < max_workers)%Z /\
  exists regions w1, get_regions E (snd s) = (Ok regions, w1).
Proof.
  intros H. unfold scan in H.
  apply bind_Ok_inv in H as (regions & [self1 w1] & Hg & H).
  apply bind_Ok_inv in H as ([] & s2 & Hmw & H).
  destruct s as [self w]. unfold lift in Hg.
  destruct (get_regions E w) as [r w1'] eqn:Eg. inversion Hg; subst.
  split; [|eauto].
  destruct (Z.leb_spec max_workers 0); [discriminate | lia].
Qed.

End Orchestrator_facts.
(** * Scanners and scans: the claims *)

(** a database scan stopped by a throttled tag call returns the record built
    before the failure *)
Example rds_scan_partial_on_throttling :
  (fun rs => map resource_id rs) <$>
    (match fst (run_scanner throttled_tags_env RDS_scan_instances "eu-west-1"
                  fresh_world) with
     | Ok rs => Some rs
     | Raise _ => None
     end) = Some ["db1"].
Proof. vm_compute. reflexivity. Qed.

(** with every call refused, every scanner method returns the empty list *)
Lemma scanner_returns_empty_when_denied m region :
  fst (run_scanner denied_env m region fresh_world) = Ok [].
Proof. destruct m; vm_compute; reflexivity. Qed.

(** C1, as stated, fails: a listing in which an instance lacks the key
    ['InstanceId'] makes [EC2Scanner.scan_instances] raise [KeyError]
    outward. *)
Lemma scan_instances_raises_on_malformed_listing :
  fst (run_scanner malformed_listing_env EC2_scan_instances "us-east-1" fresh_world)
  = Raise (KeyError "InstanceId").
Proof. vm_compute. reflexivity. Qed.

(** C1 (amended). For every scanner method, region and provider, a failure
    raised as [ClientError] never leaves the method: the method returns the
    records its [try] block had accumulated when it ended, normally or by a
    [ClientError]; an exception of another class leaves the method. *)
Theorem scanner_catches_ClientError (E : Env) (m : scanner_method)
    (region : string) (w : world) :
  (forall msg, fst (run_scanner E m region w) <> Raise (ClientError msg)) /\
  run_scanner E m region w =
    match try_block E m region ([], w) with
    | (Ok _, (rs, w')) => (Ok rs, w')
    | (Raise e, (rs, w')) =>
        if is_ClientError e then (Ok rs, w') else (Raise e, w')
    end.
Proof.
  rewrite run_scanner_try_block. split.
  - intros msg. apply scanner_no_ClientError.
  - apply scanner_unfold.
Qed.

(** C10. Every record produced by every scanner method has no cost estimate,
    so the cost summary of every scan is zero, in total and for each kind. *)
Theorem scanners_assign_no_cost (E : Env) :
  (forall m region w rs,
     fst (run_scanner E m region w) = Ok rs ->
     Forall (fun r => estimated_cost_monthly r = None) rs) /\
  (forall max_workers schedule s result,
     fst (scan E max_workers schedule s) = Ok result ->
     estimated_monthly_total (cost_summary result) = Int0 /\
     forall k v, by_resource_type (cost_summary result) !! k = Some v -> v = Int0).
Proof.
  split.
  - intros m region w rs H.
    destruct (run_scanner E m region w) as [r w'] eqn:Er. simpl in H. subst r.
    eapply run_scanner_no_cost; eauto.
  - intros max_workers schedule [self w] result H.
    destruct (scan E max_workers schedule (self, w)) as [r s'] eqn:Es.
    simpl in H. subst r.
    destruct (scan_Ok_inv E _ _ _ _ _ Es) as (Hmw & regions & w1 & Hg).
    destruct (scan_from_regions E max_workers schedule self w regions w1 Hmw Hg)
      as (result' & new & w' & Hs & _ & _ & Hnc & _ & Hcs).
    rewrite Hs in Es. inversion Es; subst result'. rewrite Hcs.
    apply no_cost_summary_zero. exact Hnc.
Qed.

Lemma scanners_assign_no_cost_witness :
  Forall (fun r => estimated_cost_monthly r = None) small_account_instances /\
  length small_account_instances = 1 /\
  estimated_monthly_total (cost_summary small_account_scan) = Int0 /\
  length (resources small_account_scan) = 2.
Proof.
  destruct (scanners_assign_no_cost (small_account_env "running")) as [H1 H2].
  split; [|split; [|split]].
  - apply (H1 EC2_scan_instances "eu-west-1" fresh_world). vm_compute. reflexivity.
  - vm_compute. reflexivity.
  - apply (H2 5%Z [3; 1] (mkAWSResourceScanner [], fresh_world)).
    vm_compute. reflexivity.
  - vm_compute. reflexivity.
Defined.

(** C3: the second scan of an orchestrator reports the error of the first.
    The bucket listing fails during the first scan only; a new orchestrator
    scanning after it reports no error, the reused one still reports the
    error of its first scan. *)
Theorem second_scan_reports_first_scan_errors :
  match scan flaky_s3_env 5 [] (mkAWSResourceScanner [], fresh_world) with
  | (Ok first, (self, w1)) =>
      errors first = [mkScanError "S3_scan_error" "Read timeout on endpoint URL"] /\
      (errors <$> fst (scan_results flaky_s3_env (mkAWSResourceScanner [], w1)))
        = Some [] /\
      (errors <$> fst (scan_results flaky_s3_env (self, w1)))
        = Some [mkScanError "S3_scan_error" "Read timeout on endpoint URL"]
  | _ => False
  end.
Proof. vm_compute. repeat split. Qed.

(** whatever the orchestrator and the provider, the errors recorded before a
    scan are part of its result, and stay recorded after it *)
Lemma scan_keeps_earlier_errors E max_workers schedule self w result s' :
  scan E max_workers schedule (self, w) = (Ok result, s') ->
  exists new, errors result = self_errors self ++ new /\
              self_errors (fst s') = errors result.
Proof.
  intros Hs.
  destruct (scan_Ok_inv E _ _ _ _ _ Hs) as (Hmw & regions & w1 & Hg).
  destruct (scan_from_regions E max_workers schedule self w regions w1 Hmw Hg)
    as (result' & new & w' & Hs' & _ & He & _).
  rewrite Hs' in Hs. inversion Hs; subst. exists new. by rewrite He.
Qed.

(** C5. When the provider cannot be reached, the discovery call raises an
    error that is no [ClientError]; region listing does not fall back to the
    common regions but raises it outward, and so does the scan. *)
Theorem get_regions_raises_when_unreachable :
  fst (get_regions unreachable_env fresh_world)
    = Raise (BotoCoreError "Could not connect to the endpoint URL") /\
  fst (scan unreachable_env 5 [] (mkAWSResourceScanner [], fresh_world))
    = Raise (BotoCoreError "Could not connect to the endpoint URL").
Proof. vm_compute. split; reflexivity. Qed.

(** the fallback of [get_regions]: when the discovery call fails with a
    [ClientError], region listing returns the fixed non-empty list of common
    regions, and a scan with a positive pool size returns a result whose
    [regions_scanned] is that list *)
Lemma get_regions_falls_back_on_ClientError (E : Env) (w : world)
    (ec2 : client) (w1 : world) (msg : string) :
  get_client E "ec2" (Some (sm_region (session w))) w = (Ok ec2, w1) ->
  aws E (history w1) (Call ec2 Op.describe_regions) = Raise (ClientError msg) ->
  fst (get_regions E w) = Ok fallback_regions /\
  fallback_regions <> [] /\
  forall max_workers schedule self,
    (0 < max_workers)%Z ->
    exists result,
      fst (scan E max_workers schedule (self, w)) = Ok result /\
      regions_scanned result = fallback_regions.
Proof.
  intros Hc Hd.
  assert (Hg : exists w2, get_regions E w = (Ok fallback_regions, w2)).
  { unfold get_regions, try_except.
    unfold bind at 1, get_state at 1. cbv beta iota.
    rewrite (bind_Ok _ _ _ _ _ Hc).
    unfold bind at 1, call, request_. rewrite Hd. simpl. eauto. }
  destruct Hg as [w2 Hg]. split; [by rewrite Hg|]. split; [done|].
  intros max_workers schedule self Hmw.
  destruct (scan_from_regions E max_workers schedule self w _ w2 Hmw Hg)
    as (result & new & w' & Hs & Hr & _).
  exists result. by rewrite Hs.
Qed.

Lemma get_regions_falls_back_when_denied :
  fst (get_regions denied_env fresh_world) = Ok fallback_regions /\
  exists result,
    fst (scan denied_env 5 [] (mkAWSResourceScanner [], fresh_world)) = Ok result /\
    regions_scanned result = fallback_regions.
Proof.
  destruct (get_regions_falls_back_on_ClientError denied_env fresh_world
              (mkClient "ec2" "us-east-1")
              (snd (get_client denied_env "ec2" (Some "us-east-1") fresh_world))
              "AccessDenied") as (H1 & _ & H2).
  - vm_compute. reflexivity.
  - vm_compute. reflexivity.
  - split; [exact H1|]. apply H2. lia.
Defined.
(** * Resource actions: the claims *)

Section Action_facts.

Context (E : Env).

(** the validator on an instance whose state the provider reports *)
Lemma validate_ec2_stop_reads instance_id region w s :
  provider_reads_state E instance_id region w s ->
  s ∈ ["stopped"; "stopping"; "terminated"; "terminating"] ->
  exists v w2,
    validate_ec2_stop E instance_id region w = (Ok v, w2) /\
    valid v = false /\
    (s = "stopped" -> reason v = Some "Instance already stopped") /\
    only_reads_since w w2.
Proof.
  intros (ec2 & w1 & response & rsv & rsvs & inst & insts & St
          & Hc & Ha & Hr & Hi & Hs & Hn) Hin.
  assert (Hw1 : only_reads_since w w1).
  { revert Hc. unfold get_client, bind, get_state, only_reads_since.
    destruct (_clients (session w) !! _).
    - intros [= _ <-]. exists []. by rewrite app_nil_r.
    - destruct (_session (session w)); [|discriminate].
      unfold request_. destruct (aws E (history w) _); [|discriminate].
      unfold modify, ret. intros [= _ <-]. simpl. eexists. split; [done|].
      by repeat constructor. }
  destruct Hw1 as (new & Hnew & Hall).
  unfold validate_ec2_stop, try_except.
  rewrite (bind_Ok _ _ _ _ _ Hc).
  unfold bind at 1, call, request_. rewrite Ha. cbv beta iota.
  rewrite Hr. unfold bind at 1, getitem at 1, ret at 1. cbv beta iota.
  rewrite Hi. unfold bind at 1, getitem at 1, ret at 1. cbv beta iota.
  unfold bind at 1, first_item at 1, ret at 1. cbv beta iota.
  rewrite Hs. unfold bind at 1, getitem at 1, ret at 1. cbv beta iota.
  rewrite Hn. unfold bind at 1, getitem at 1, ret at 1. cbv beta iota.
  assert (Hro : only_reads_since w
            (mkWorld (heap w1) (session w1)
               (history w1 ++ [Call ec2 (Op.describe_instances (Some [instance_id]))]))).
  { exists (new ++ [Call ec2 (Op.describe_instances (Some [instance_id]))]).
    simpl. rewrite Hnew, <- app_assoc. split; [done|].
    apply Forall_app. split; [done|]. by repeat constructor. }
  repeat (apply elem_of_cons in Hin as [-> | Hin]);
    [ .. | by apply elem_of_nil in Hin ];
    simpl; eexists _, _; (split; [reflexivity|]); repeat split; try done.
Qed.

End Action_facts.

(** C4. For a compute instance whose state, as the provider reports it, is
    stopped, stopping, terminated or terminating, the validation of the stop
    action is invalid; and stopping an instance that is already stopped
    returns a failed result whose reason contains "already stopped", without
    any mutating request to the provider. *)
Theorem stop_rejected_unless_running (E : Env) (instance_id region : option string)
    (w : world) (s : string) :
  provider_reads_state E instance_id region w s ->
  s ∈ ["stopped"; "stopping"; "terminated"; "terminating"] ->
  (exists v w', validate_ec2_stop E instance_id region w = (Ok v, w') /\
                valid v = false) /\
  (s = "stopped" ->
   exists result w',
     stop_ec2_instance E instance_id region w = (Ok result, w') /\
     success result = false /\
     verification_status result = "failed" /\
     contains (message result) "already stopped" = true /\
     (exists r, error result = Some r /\ contains r "already stopped" = true) /\
     only_reads_since w w').
Proof.
  intros Hread Hin.
  destruct (validate_ec2_stop_reads E instance_id region w s Hread Hin)
    as (v & w2 & Hv & Hinv & Hreason & Hro).
  split; [eauto|].
  intros ->. specialize (Hreason eq_refl).
  unfold stop_ec2_instance.
  rewrite (bind_Ok _ _ _ _ _ Hv).
  unfold rejected. rewrite Hinv, Hreason. simpl.
  eexists _, w2. split; [reflexivity|]. simpl. repeat split; try done.
  eexists. split; reflexivity.
Qed.

Lemma stop_rejected_unless_running_witness :
  exists result w',
    stop_ec2_instance (small_account_env "stopped") (Some "i-0abc")
      (Some "eu-west-1") fresh_world = (Ok result, w') /\
    success result = false /\
    verification_status result = "failed" /\
    contains (message result) "already stopped" = true /\
    (exists r, error result = Some r /\ contains r "already stopped" = true) /\
    only_reads_since fresh_world w'.
Proof.
  apply (stop_rejected_unless_running (small_account_env "stopped")
           (Some "i-0abc") (Some "eu-west-1") fresh_world "stopped").
  - unfold provider_reads_state.
    eexists _, _, _, _, _, _, _, _.
    repeat split; vm_compute; reflexivity.
  - constructor.
  - reflexivity.
Defined.

(** C9. Deleting a bucket through [execute_action] always fails with
    'Unexpected error during action execution' and never reaches the
    provider: the dispatch passes two arguments to [delete_s3_bucket], which
    takes the bucket name only, and the error of the call is caught. *)
Theorem s3_delete_fails_before_provider (E : Env)
    (resource_id region : option string) (w : world) :
  action_map (Some "S3_Bucket") DELETE = Some self_delete_s3_bucket /\
  (exists msg, apply_ E self_delete_s3_bucket [resource_id; region] w
               = (Raise (TypeError msg), w)) /\
  exists result,
    execute_action E (Some "S3_Bucket") resource_id region DELETE w
      = (Ok result, w) /\
    success result = false /\
    verification_status result = "failed" /\
    message result = "Unexpected error during action execution" /\
    dr_resource_id result = resource_id.
Proof.
  split; [reflexivity|]. split; [eexists; reflexivity|].
  eexists. split; [reflexivity|]. repeat split.
Qed.
(** * Session teardown and the bulk endpoint: the claims *)

(** C8, as stated, fails: [cleanup] rebinds the credential attributes and
    writes to no string; after it the strings the attributes referred to
    still hold the credentials. *)
Lemma cleanup_leaves_credential_strings :
  _access_key (session fresh_world) = Some 0 /\
  _secret_key (session fresh_world) = Some 1 /\
  heap (snd (cleanup fresh_world)) !! 0 = Some "AKIAEXAMPLE" /\
  heap (snd (cleanup fresh_world)) !! 1 = Some "wJalrEXAMPLEKEY".
Proof. vm_compute. repeat split. Qed.

(** C8 (amended). After [cleanup()] the client cache is empty and the session
    and credential attributes are [None]; the strings they referred to are
    left as they were; calling [cleanup()] again, any number of times, does
    not fail and leaves the same state. *)
Theorem cleanup_drops_references (w : world) :
  fst (cleanup w) = Ok tt /\
  _clients (session (snd (cleanup w))) = ∅ /\
  _access_key (session (snd (cleanup w))) = None /\
  _secret_key (session (snd (cleanup w))) = None /\
  _session (session (snd (cleanup w))) = None /\
  heap (snd (cleanup w)) = heap w /\
  forall n, Nat.iter n (fun x => snd (cleanup x)) (snd (cleanup w)) = snd (cleanup w)
            /\ fst (cleanup (Nat.iter n (fun x => snd (cleanup x)) (snd (cleanup w))))
               = Ok tt.
Proof.
  do 6 (split; [reflexivity|]).
  intros n.
  assert (Hn : Nat.iter n (fun x => snd (cleanup x)) (snd (cleanup w))
               = snd (cleanup w)).
  { induction n as [|n IH]; [done|]. rewrite Nat.iter_succ, IH. reflexivity. }
  split; [exact Hn | rewrite Hn; reflexivity].
Qed.

Section Bulk_facts.

Context (E : Env) (L : Library).

(** an entry that is an object gets an outcome, whatever happens *)
Lemma bulk_entry_Ok e w :
  is_object e -> exists o w', bulk_entry E L e w = (Ok o, w').
Proof.
  intros [d ->]. unfold bulk_entry, try_except.
  match goal with |- context [match ?b w with _ => _ end] =>
    destruct (b w) as [[o|ex] w'] end; simpl; eauto.
Qed.

Lemma bulk_loop_Ok l : Forall is_object l -> forall w,
  exists os w', length os = length l /\
                forall acc, bulk_loop E L l acc w = (Ok (acc ++ os), w').
Proof.
  induction 1 as [|e l He _ IH]; intros w; simpl.
  - exists [], w. split; [done|]. intros acc. by rewrite app_nil_r.
  - destruct (bulk_entry_Ok e w He) as (o & w1 & Ho).
    destruct (IH w1) as (os & w' & Hlen & Hos).
    exists (o :: os), w'. split; [simpl; lia|]. intros acc.
    rewrite (bind_Ok _ _ _ _ _ Ho), Hos. by rewrite <- app_assoc.
Qed.

Lemma bulk_loop_app l1 l2 w :
  Forall is_object l1 -> Forall is_object l2 ->
  exists r1 w1 r2 w2,
    bulk_loop E L l1 [] w = (Ok r1, w1) /\ length r1 = length l1 /\
    bulk_loop E L l2 [] w1 = (Ok r2, w2) /\ length r2 = length l2 /\
    bulk_loop E L (l1 ++ l2) [] w = (Ok (r1 ++ r2), w2).
Proof.
  intros H1 H2. revert w. induction H1 as [|e l1 He Hl1 IH]; intros w.
  - destruct (bulk_loop_Ok l2 H2 w) as (r2 & w2 & Hlen & Hr2).
    exists [], w, r2, w2. simpl. rewrite (Hr2 []). done.
  - destruct (bulk_entry_Ok e w He) as (o & w0 & Ho).
    destruct (IH w0) as (r1 & w1 & r2 & w2 & Hr1 & Hn1 & Hr2 & Hn2 & H12).
    destruct (bulk_loop_Ok l1 Hl1 w0) as (r1' & w1' & _ & Hr1').
    destruct (bulk_loop_Ok (l1 ++ l2) (proj2 (Forall_app _ _ _) (conj Hl1 H2)) w0)
      as (r' & w' & _ & Hr').
    rewrite (Hr1' []) in Hr1. rewrite (Hr' []) in H12. simpl in Hr1, H12.
    inversion Hr1; subst. inversion H12; subst.
    exists (o :: r1), w1, r2, w2. simpl.
    rewrite !(bind_Ok _ _ _ _ _ Ho), Hr1', Hr', Hr2. simpl.
    repeat split; try done. by f_equal.
Qed.

Lemma bulk_entry_malformed e ex w :
  malformed_action L e ex ->
  exists members,
    e = JObj members /\
    bulk_entry E L e w
    = (Ok (mkBulkOutcome (obj_get members "resource_id") false (str L ex)), w).
Proof.
  intros (d & -> & H). exists d. split; [done|].
  unfold bulk_entry, try_except. unfold bind at 1, as_object at 1, ret at 1.
  cbv beta iota. rewrite (bind_Raise _ _ _ _ _ (H w)). reflexivity.
Qed.

Lemma counts_add_up results :
  count_successful results + count_failed results = length results.
Proof.
  unfold count_successful, count_failed.
  induction results as [|r results IH]; simpl; [done|].
  rewrite !filter_cons. destruct (bo_success r) eqn:Hs; simpl;
    repeat case_decide; try congruence; simpl; lia.
Qed.

Lemma extract_credentials_truthy req w a s w' :
  extract_credentials_from_request req w = (Ok (a, s), w') ->
  w' = w /\
  AWSSessionManager_init (heap w) a s "us-east-1"
    = Ok (session (bulk_world w a s)).
Proof.
  unfold extract_credentials_from_request, bind, get_state.
  destruct (or_ _ _ _) as [a'|]; [|discriminate].
  destruct (or_ _ _ _) as [s'|]; [|discriminate].
  unfold AWSSessionManager_init.
  destruct (negb (truthy (heap w !! a')) || negb (truthy (heap w !! s'))) eqn:Ht;
    [discriminate|].
  intros [= <- <- <-]. by rewrite Ht.
Qed.

End Bulk_facts.

(** C6, as stated, fails: for the empty list the endpoint returns no batch
    result but the error 'No actions provided'. *)
Lemma bulk_rejects_empty_list :
  perform_bulk_action validating_env ascii_library (Data no_entries_request)
    fresh_world
  = (Response400 "No actions provided", fresh_world).
Proof. vm_compute. reflexivity. Qed.

(** an entry with an unknown action fails alone: the entries around it get
    the outcomes they get without it *)
Example bulk_unknown_action_isolated :
  fst (perform_bulk_action validating_env ascii_library
         (Data (mkBulkRequest (Some 0) None (Some 1) None
            (Some (JArr [stop_entry (Some "i-0abc");
                         entry_with_action "reboot";
                         stop_entry (Some "i-0abc")]))))
         fresh_world)
  = Response200 3 2 1
      [ mkBulkOutcome (JStr "i-0abc") true
          "Instance stop initiated. Current state: running";
        mkBulkOutcome (JStr "i-0abc") false "'REBOOT'";
        mkBulkOutcome (JStr "i-0abc") true
          "Instance stop initiated. Current state: running" ].
Proof. vm_compute. reflexivity. Qed.

(** an entry that is no object aborts the batch: the handler of the entry
    raises again, the entries before it have been executed, and the session
    is not torn down *)
Example bulk_aborts_on_entry_that_is_no_object :
  fst (perform_bulk_action validating_env ascii_library
         (Data string_entry_request) fresh_world)
  = Response500 "Internal server error" /\
  mutations (history (snd (perform_bulk_action validating_env ascii_library
                             (Data string_entry_request) fresh_world)))
  = [Call (mkClient "ec2" "eu-west-1") (Op.stop_instances (Some "i-0abc"))].
Proof. vm_compute. split; reflexivity. Qed.

(** C6 (amended). For a request with credentials and a non-empty list of n
    entries, each a JSON object, the bulk endpoint returns n outcomes, in the
    order of the entries, with the counts of the successful and of the failed
    ones; the outcome of an entry is the one of processing it alone in the
    world the entries before it left; an entry whose action cannot be read
    gets a failure outcome and leaves the other outcomes as they are without
    it. *)
Theorem bulk_returns_one_outcome_per_entry (E : Env) (L : Library)
    (req : BulkRequest) (w : world) (a s : loc) (entry : json)
    (rest : list json) :
  extract_credentials_from_request req w = (Ok (a, s), w) ->
  actions req = Some (JArr (entry :: rest)) ->
  Forall is_object (entry :: rest) ->
  exists results w',
    perform_bulk_action E L (Data req) w
      = (Response200 (length (entry :: rest)) (count_successful results)
           (count_failed results) results, w') /\
    length results = length (entry :: rest) /\
    count_successful results + count_failed results = length (entry :: rest) /\
    (forall i e,
       (entry :: rest) !! i = Some e ->
       exists o,
         results !! i = Some o /\
         fst (bulk_entry E L e
                (snd (bulk_loop E L (take i (entry :: rest)) [] (bulk_world w a s))))
           = Ok o) /\
    (forall l1 e l2 ex,
       entry :: rest = l1 ++ e :: l2 ->
       malformed_action L e ex ->
       exists r1 r2 members,
         e = JObj members /\
         results = r1 ++ mkBulkOutcome (obj_get members "resource_id") false
                           (str L ex) :: r2 /\
         length r1 = length l1 /\
         fst (bulk_loop E L (l1 ++ l2) [] (bulk_world w a s)) = Ok (r1 ++ r2)).
Proof.
  intros Hcred Hact Hobj.
  destruct (extract_credentials_truthy req w a s w Hcred) as [_ Hinit].
  destruct (bulk_loop_Ok E L (entry :: rest) Hobj (bulk_world w a s))
    as (results & w1 & Hlen & Hloop).
  specialize (Hloop []). rewrite app_nil_l in Hloop.
  exists results, (snd (cleanup w1)).
  split; [|split; [|split; [|split]]].
  - unfold perform_bulk_action.
    rewrite (bind_Ok _ _ _ _ _ Hcred), Hact. cbn [from_option]. unfold id.
    cbn [json_truthy negb].
    unfold bind at 1, get_state at 1. cbv beta iota.
    unfold bind at 1, of_res at 1. cbn [fst snd].
    rewrite Hinit. cbv beta iota.
    unfold bind at 1, modify at 1. cbv beta iota.
    change (mkWorld (heap w) (session (bulk_world w a s)) (history w))
      with (bulk_world w a s).
    unfold bulk_for.
    rewrite (bind_Ok _ _ _ _ _ Hloop).
    unfold bind, cleanup, modify, ret. simpl. by rewrite Hlen.
  - done.
  - rewrite counts_add_up. done.
  - intros i e Hi.
    pose proof (take_drop_middle _ _ _ Hi) as Hsplit.
    assert (Hobj' : Forall is_object (take i (entry :: rest))
                    /\ Forall is_object (e :: drop (S i) (entry :: rest))).
    { apply Forall_app. by rewrite Hsplit. }
    destruct Hobj' as [Ho1 Ho2].
    destruct (bulk_loop_app E L (take i (entry :: rest))
                (e :: drop (S i) (entry :: rest)) (bulk_world w a s) Ho1 Ho2)
      as (r1 & wi & r2 & w2 & H1 & Hl1 & H2 & Hl2 & H12).
    rewrite Hsplit, Hloop in H12. inversion H12; subst results w2.
    rewrite H1. cbn [snd].
    destruct (bulk_entry_Ok E L e wi (Forall_inv Ho2)) as (o & wo & He).
    simpl in H2. rewrite (bind_Ok _ _ _ _ _ He) in H2.
    destruct (bulk_loop_Ok E L (drop (S i) (entry :: rest)) (Forall_inv_tail Ho2) wo)
      as (os & w' & _ & Hos).
    rewrite Hos in H2. inversion H2; subst r2.
    exists o. rewrite He. split; [|done].
    assert (length r1 = i) as Hi1.
    { rewrite Hl1, length_take. apply lookup_lt_Some in Hi. lia. }
    rewrite lookup_app_r by lia. by rewrite Hi1, Nat.sub_diag.
  - intros l1 e l2 ex Hsplit Hmal.
    assert (Hobj' : Forall is_object l1 /\ Forall is_object (e :: l2)).
    { apply Forall_app. by rewrite <- Hsplit. }
    destruct Hobj' as [Ho1 Ho2].
    destruct (bulk_loop_app E L l1 (e :: l2) (bulk_world w a s) Ho1 Ho2)
      as (r1 & wi & r2 & w2 & H1 & Hl1 & H2 & Hl2 & H12).
    rewrite <- Hsplit, Hloop in H12. inversion H12; subst results w2.
    simpl in H2.
    destruct (bulk_entry_malformed E L e ex wi Hmal) as (members & -> & Hm).
    rewrite (bind_Ok _ _ _ _ _ Hm) in H2.
    destruct (bulk_loop_Ok E L l2 (Forall_inv_tail Ho2) wi) as (os & w' & _ & Hos).
    rewrite Hos in H2. inversion H2; subst r2.
    exists r1, os, members. split; [done|]. split; [done|]. split; [done|].
    destruct (bulk_loop_app E L l1 l2 (bulk_world w a s) Ho1 (Forall_inv_tail Ho2))
      as (r1' & wi' & r2' & w2' & H1' & _ & H2' & _ & H12').
    rewrite H1 in H1'. inversion H1'; subst r1' wi'.
    rewrite (Hos []) in H2'. inversion H2'; subst r2' w2'.
    by rewrite H12'.
Qed.

Lemma bulk_returns_one_outcome_per_entry_witness :
  exists results w',
    perform_bulk_action validating_env ascii_library (Data three_entries_request)
      fresh_world
      = (Response200 3 (count_successful results) (count_failed results) results, w') /\
    length results = 3 /\
    count_successful results + count_failed results = 3.
Proof.
  destruct (bulk_returns_one_outcome_per_entry validating_env ascii_library
              three_entries_request fresh_world 0 1
              (stop_entry (Some "i-0abc"))
              [stop_entry None; stop_entry (Some "i-0abc")])
    as (results & w' & H1 & H2 & H3 & _).
  - vm_compute. reflexivity.
  - reflexivity.
  - repeat constructor; eexists; reflexivity.
  - exists results, w'. auto.
Defined.
(** * Further properties: what the code never does *)

Section Reads_only_facts.

Lemma only_reads_since_refl w : only_reads_since w w.
Proof. exists []. by rewrite app_nil_r. Qed.

Lemma only_reads_since_trans w1 w2 w3 :
  only_reads_since w1 w2 -> only_reads_since w2 w3 -> only_reads_since w1 w3.
Proof.
  intros (n1 & H1 & F1) (n2 & H2 & F2). exists (n1 ++ n2).
  rewrite H2, H1, app_assoc. split; [done|]. by apply Forall_app.
Qed.

Context {S : Type} (pi : S -> world).

Lemma ro_ret {A} (a : A) : reads_only pi (ret a).
Proof. intros s r s' [= _ <-]. split; [apply only_reads_since_refl | done]. Qed.

Lemma ro_raise {A} e : reads_only pi (@raise S A e).
Proof. intros s r s' [= _ <-]. split; [apply only_reads_since_refl | done]. Qed.

Lemma ro_of_res {A} (x : res A) : reads_only pi (of_res x).
Proof. intros s r s' [= _ <-]. split; [apply only_reads_since_refl | done]. Qed.

Lemma ro_get_state : reads_only pi get_state.
Proof. intros s r s' [= _ <-]. split; [apply only_reads_since_refl | done]. Qed.

Lemma ro_bind {A B} (m : M S A) (k : A -> M S B) :
  reads_only pi m -> (forall a, reads_only pi (k a)) -> reads_only pi (bind m k).
Proof.
  intros Hm Hk s r s' H. unfold bind in H.
  destruct (m s) as [[a|e] s1] eqn:Em.
  - destruct (Hm _ _ _ Em) as [H1 G1]. destruct (Hk a _ _ _ H) as [H2 G2].
    split; [eapply only_reads_since_trans; eauto | congruence].
  - inversion H; subst. eapply Hm; eauto.
Qed.

Lemma ro_try_except {A} (m : M S A) c h :
  reads_only pi m -> (forall e, reads_only pi (h e)) ->
  reads_only pi (try_except m c h).
Proof.
  intros Hm Hh s r s' H. unfold try_except in H.
  destruct (m s) as [[a|e] s1] eqn:Em.
  - inversion H; subst. eapply Hm; eauto.
  - destruct (c e).
    + destruct (Hm _ _ _ Em) as [H1 G1]. destruct (Hh e _ _ _ H) as [H2 G2].
      split; [eapply only_reads_since_trans; eauto | congruence].
    + inversion H; subst. eapply Hm; eauto.
Qed.

Lemma ro_for {A} (l : list A) (body : A -> M S unit) :
  (forall x, reads_only pi (body x)) -> reads_only pi (for_ l body).
Proof.
  intros Hb. induction l as [|x l IH]; simpl.
  - apply ro_ret.
  - apply ro_bind; auto.
Qed.

Lemma ro_for_pages {A} (pages : paged A) (body : A -> M S unit) :
  (forall x, reads_only pi (body x)) -> reads_only pi (for_pages pages body).
Proof.
  intros Hb. unfold for_pages. apply ro_bind.
  - apply ro_for; auto.
  - intros _. destruct (snd pages); [apply ro_raise | apply ro_ret].
Qed.

Lemma ro_getitem {A} key (o : option A) : reads_only pi (getitem key o).
Proof. destruct o; [apply ro_ret | apply ro_raise]. Qed.

Lemma ro_first_item {A} (l : list A) : reads_only pi (first_item l).
Proof. destruct l; [apply ro_raise | apply ro_ret]. Qed.

Lemma ro_tags_dict l : forall acc, reads_only pi (tags_dict l acc).
Proof.
  induction l as [|t l IH]; intros acc; simpl.
  - apply ro_ret.
  - apply ro_bind; [apply ro_getitem|]. intros k.
    apply ro_bind; [apply ro_getitem|]. intros v. apply IH.
Qed.

Lemma ro_tag_descriptions_tags l :
  forall acc, reads_only pi (tag_descriptions_tags l acc).
Proof.
  induction l as [|t l IH]; intros acc; simpl.
  - apply ro_ret.
  - apply ro_bind; [apply ro_tags_dict|]. intros k. apply IH.
Qed.

Lemma ro_attachment_ids l : reads_only pi (attachment_ids l).
Proof.
  induction l as [|t l IH]; simpl.
  - apply ro_ret.
  - apply ro_bind; [apply ro_getitem|]. intros k.
    apply ro_bind; [apply IH|]. intros v. apply ro_ret.
Qed.

End Reads_only_facts.

Section Reads_only_world.

Context (E : Env).

Lemma ro_lift {L A} (m : M world A) :
  reads_only id m -> reads_only (snd : L * world -> world) (lift m).
Proof.
  intros Hm [l w] r [l' w'] H. unfold lift in H.
  destruct (m w) as [r1 w1] eqn:Em. inversion H; subst. simpl.
  apply (Hm _ _ _ Em).
Qed.

Lemma ro_request r :
  is_mutation r = false -> reads_only id (request_ E r).
Proof.
  intros Hr w x w' [= _ <-]. simpl. split; [|done].
  exists [r]. split; [done|]. by constructor.
Qed.

Lemma ro_call c op :
  Op.is_mutation op = false -> reads_only id (call E c op).
Proof. intros H. exact (ro_request (Call c op) H). Qed.

Lemma ro_append r : reads_only (snd : frame -> world) (append r).
Proof.
  intros [l w] x [l' w'] H. unfold append, modify in H. inversion H; subst.
  split; [apply only_reads_since_refl | done].
Qed.

Lemma ro_get_client service region : reads_only id (get_client E service region).
Proof.
  unfold get_client. apply ro_bind; [apply ro_get_state|]. intros st.
  cbv zeta. destruct (_clients (session st) !! _); [apply ro_ret|].
  destruct (_session (session st)); [|apply ro_raise].
  apply ro_bind; [exact (ro_request (NewClient _ _) eq_refl)|]. intros _.
  apply ro_bind; [|intros _; apply ro_ret].
  intros w r w' [= _ <-]. split; [|done].
  exists []. simpl. by rewrite app_nil_r.
Qed.

Lemma ro_region_names l : reads_only id (region_names l).
Proof.
  induction l as [|t l IH]; simpl.
  - apply ro_ret.
  - apply ro_bind; [apply ro_getitem|]. intros k.
    apply ro_bind; [apply IH|]. intros v. apply ro_ret.
Qed.

Lemma ro_get_regions : reads_only id (get_regions E).
Proof.
  unfold get_regions. apply ro_try_except; [|intros; apply ro_ret].
  apply ro_bind; [apply ro_get_state|]. intros st.
  apply ro_bind; [apply ro_get_client|]. intros ec2.
  apply ro_bind; [by apply ro_call|]. intros response.
  apply ro_bind; [apply ro_getitem|]. intros Regions.
  apply ro_bind; [apply ro_region_names|]. intros regions. apply ro_ret.
Qed.

Ltac ro_step :=
  first
    [ apply ro_ret | apply ro_raise | apply ro_of_res
    | apply ro_getitem | apply ro_first_item | apply ro_tags_dict
    | apply ro_tag_descriptions_tags | apply ro_attachment_ids
    | apply ro_append
    | apply ro_lift; first [ apply ro_get_client | apply ro_call; reflexivity ]
    | apply ro_bind; [ | intros ? ]
    | apply ro_try_except; [ | intros ? ]
    | apply ro_for; intros ?
    | apply ro_for_pages; intros ?
    | match goal with
      | |- reads_only _ (match ?x with _ => _ end) => destruct x
      | |- reads_only _ (let _ := _ in _) => cbv zeta
      end ].

Lemma ro_try_block m region : reads_only snd (try_block E m region).
Proof.
  destruct m; cbv [try_block
    EC2Scanner_scan_instances_try EC2Scanner_scan_volumes_try
    EC2Scanner_scan_elastic_ips_try RDSScanner_scan_instances_try
    LambdaScanner_scan_functions_try ELBScanner_scan_load_balancers_try
    CloudWatchLogsScanner_scan_log_groups_try
    NATGatewayScanner_scan_nat_gateways_try S3Scanner_scan_buckets_try
    IAMScanner_scan_users_try IAMScanner_scan_roles_try];
  repeat ro_step.
Qed.

Lemma ro_scanner body :
  reads_only snd body -> reads_only id (scanner body).
Proof.
  intros Hb w r w' H. rewrite scanner_unfold in H.
  destruct (body ([], w)) as [[[]|e] [rs w1]] eqn:Eb;
    [|destruct (is_ClientError e)]; inversion H; subst;
    apply (Hb _ _ _ Eb).
Qed.

Lemma ro_run_scanner m region : reads_only id (run_scanner E m region).
Proof. rewrite run_scanner_try_block. apply ro_scanner, ro_try_block. Qed.

End Reads_only_world.
(** * Further properties: the session manager *)

Section Session_more.

Context (E : Env).

Lemma insert_sorted_Permutation x l : insert_sorted x l ≡ₚ x :: l.
Proof.
  induction l as [|y l IH]; simpl; [done|].
  destruct (String.leb x y); [done|].
  rewrite IH. apply Permutation_swap.
Qed.

Lemma sorted_Permutation l : sorted l ≡ₚ l.
Proof.
  unfold sorted. induction l as [|x l IH]; simpl; [done|].
  by rewrite insert_sorted_Permutation, IH.
Qed.

Lemma insert_sorted_HdRel a x l :
  String.leb a x = true ->
  HdRel (fun a b => String.leb a b = true) a l ->
  HdRel (fun a b => String.leb a b = true) a (insert_sorted x l).
Proof.
  intros Hax Hl. destruct l as [|y l]; simpl; [by constructor|].
  destruct (String.leb x y); constructor; [done|]. by inversion Hl.
Qed.

Lemma insert_sorted_Sorted x l :
  Sorted (fun a b => String.leb a b = true) l ->
  Sorted (fun a b => String.leb a b = true) (insert_sorted x l).
Proof.
  induction 1 as [|y l Hs IH Hd]; simpl; [by repeat constructor|].
  destruct (String.leb x y) eqn:Hxy.
  - constructor; [by constructor|]. by constructor.
  - constructor; [done|]. apply insert_sorted_HdRel; [|done].
    destruct (String.leb_total x y) as [H|H]; [congruence|done].
Qed.

Lemma sorted_Sorted l : Sorted (fun a b => String.leb a b = true) (sorted l).
Proof.
  unfold sorted. induction l as [|x l IH]; simpl; [constructor|].
  by apply insert_sorted_Sorted.
Qed.

Lemma region_names_complete l w :
  Forall (fun r => is_Some (Region.RegionName r)) l ->
  exists names, region_names l w = (Ok names, w) /\
                Some <$> names = Region.RegionName <$> l.
Proof.
  induction 1 as [|r l [n Hn] _ (names & IH & Hnames)]; simpl.
  - by exists [].
  - exists (n :: names). rewrite Hn. unfold bind at 1, getitem, ret at 1.
    rewrite (bind_Ok _ _ _ _ _ IH). split; [done|].
    by rewrite !fmap_cons, Hnames, ?Hn.
Qed.

End Session_more.

(** X1. The client cache memoizes by service and effective region: after
    [get_client] has returned a client, a call for the same service and the
    same effective region (the one given, or the default when none or the
    empty one is given) returns the same client, makes no request and
    changes nothing. *)
Theorem get_client_memoized (E : Env) (service : string)
    (region region2 : option string) (w w1 : world) (c : client) :
  get_client E service region w = (Ok c, w1) ->
  or_else region2 (sm_region (session w)) = or_else region (sm_region (session w)) ->
  get_client E service region2 w1 = (Ok c, w1) /\
  (history w1 = history w \/
   history w1 = history w
     ++ [NewClient service (or_else region (sm_region (session w)))]).
Proof.
  unfold get_client, bind, get_state. intros H Hr.
  destruct (_clients (session w) !! _) as [c0|] eqn:Hc.
  - inversion H; subst. rewrite Hr, Hc. auto.
  - destruct (_session (session w)); [|discriminate].
    unfold request_ in H. destruct (aws E (history w) _); [|discriminate].
    unfold modify, ret in H. inversion H; subst. simpl.
    rewrite Hr, lookup_insert_eq. auto.
Qed.

Lemma get_client_memoized_witness :
  get_client denied_env "ec2" None
    (snd (get_client denied_env "ec2" (Some "us-east-1") fresh_world))
  = (Ok (mkClient "ec2" "us-east-1"),
     snd (get_client denied_env "ec2" (Some "us-east-1") fresh_world)).
Proof.
  apply (get_client_memoized denied_env "ec2" (Some "us-east-1") None fresh_world).
  - vm_compute. reflexivity.
  - reflexivity.
Defined.

(** X2. A session that was cleaned up cannot be used again: every
    [get_client] raises [AttributeError] without a request, and so do region
    listing, every scanner method and a scan; the error is not a
    [ClientError], so nothing falls back or returns an empty list. *)
Theorem session_unusable_after_cleanup (E : Env) (w : world) :
  let w' := snd (cleanup w) in
  let e := AttributeError "'NoneType' object has no attribute 'client'" in
  (forall service region, get_client E service region w' = (Raise e, w')) /\
  get_regions E w' = (Raise e, w') /\
  (forall m region, run_scanner E m region w' = (Raise e, w')) /\
  (forall max_workers schedule self,
     scan E max_workers schedule (self, w') = (Raise e, (self, w'))).
Proof.
  cbv zeta.
  assert (Hg : forall service region,
    get_client E service region (snd (cleanup w))
    = (Raise (AttributeError "'NoneType' object has no attribute 'client'"),
       snd (cleanup w))).
  { intros. unfold get_client, bind, get_state. simpl.
    by rewrite lookup_empty. }
  assert (Hr : get_regions E (snd (cleanup w))
    = (Raise (AttributeError "'NoneType' object has no attribute 'client'"),
       snd (cleanup w))).
  { unfold get_regions, try_except. unfold bind at 1, get_state at 1.
    cbv beta iota. rewrite (bind_Raise _ _ _ _ _ (Hg _ _)). reflexivity. }
  split; [exact Hg|]. split; [exact Hr|]. split.
  - intros m region. rewrite run_scanner_try_block, scanner_unfold.
    destruct m; cbv [try_block
      EC2Scanner_scan_instances_try EC2Scanner_scan_volumes_try
      EC2Scanner_scan_elastic_ips_try RDSScanner_scan_instances_try
      LambdaScanner_scan_functions_try ELBScanner_scan_load_balancers_try
      CloudWatchLogsScanner_scan_log_groups_try
      NATGatewayScanner_scan_nat_gateways_try S3Scanner_scan_buckets_try
      IAMScanner_scan_users_try IAMScanner_scan_roles_try];
    rewrite (bind_Raise _ _ _ _ _ (lift_eq _ [] _ _ _ (Hg _ _))); reflexivity.
  - intros max_workers schedule self. unfold scan.
    rewrite (bind_Raise _ _ _ _ _ (lift_eq _ self _ _ _ Hr)). reflexivity.
Qed.

(** X3. When region discovery succeeds and every region of the response has
    a name, [get_regions] returns these names, each as often as listed, in
    ascending order. *)
Theorem get_regions_sorted (E : Env) (w w1 : world) (ec2 : client)
    (response : DescribeRegions.t) (l : list Region.t) :
  get_client E "ec2" (Some (sm_region (session w))) w = (Ok ec2, w1) ->
  aws E (history w1) (Call ec2 Op.describe_regions) = Ok response ->
  DescribeRegions.Regions response = Some l ->
  Forall (fun r => is_Some (Region.RegionName r)) l ->
  exists names,
    fst (get_regions E w) = Ok names /\
    Sorted (fun a b => String.leb a b = true) names /\
    Some <$> names ≡ₚ Region.RegionName <$> l.
Proof.
  intros Hc Ha Hl Hall.
  set (w2 := mkWorld (heap w1) (session w1)
               (history w1 ++ [Call ec2 Op.describe_regions])).
  destruct (region_names_complete l w2 Hall) as (names & Hn & Hnames).
  exists (sorted names). split; [|split].
  - unfold get_regions, try_except. unfold bind at 1, get_state at 1.
    cbv beta iota. rewrite (bind_Ok _ _ _ _ _ Hc).
    unfold bind at 1, call, request_. rewrite Ha. cbv beta iota.
    rewrite Hl. unfold bind at 1, getitem at 1, ret at 1. cbv beta iota.
    fold w2. rewrite (bind_Ok _ _ _ _ _ Hn). reflexivity.
  - apply sorted_Sorted.
  - rewrite <- Hnames. apply fmap_Permutation, sorted_Permutation.
Qed.

Lemma get_regions_sorted_witness :
  exists names,
    fst (get_regions (small_account_env "running") fresh_world) = Ok names /\
    Sorted (fun a b => String.leb a b = true) names /\
    Some <$> names ≡ₚ [Some "eu-west-1"].
Proof.
  apply (get_regions_sorted (small_account_env "running") fresh_world
           (snd (get_client (small_account_env "running") "ec2"
                   (Some "us-east-1") fresh_world))
           (mkClient "ec2" "us-east-1")
           (DescribeRegions.mk (Some [Region.mk (Some "eu-west-1")]))
           [Region.mk (Some "eu-west-1")]).
  - vm_compute. reflexivity.
  - vm_compute. reflexivity.
  - reflexivity.
  - repeat constructor. by eexists.
Defined.
(** * Further properties: scanners and scans *)

Section Scanner_more.

Context (E : Env).

Ltac shape_append :=
  apply keeps_append; intros; apply Forall_app; split; [assumption|];
  constructor; [|constructor];
  unfold record_of, ResourceMetadata_; cbn;
  repeat split; try (by eexists);
  try (match goal with |- context [match ?x with _ => _ end] => destruct x end;
       auto).

Ltac shape_step :=
  first
    [ apply keeps_ret | apply keeps_raise | apply keeps_lift | apply keeps_of_res
    | apply keeps_getitem | apply keeps_first_item | apply keeps_tags_dict
    | apply keeps_tag_descriptions_tags | apply keeps_attachment_ids
    | shape_append
    | apply keeps_bind; [ | intros ? ]
    | apply keeps_try_except; [ | intros ? ]
    | apply keeps_for; intros ?
    | apply keeps_for_pages; intros ?
    | match goal with
      | |- keeps _ (match ?x with _ => _ end) => destruct x
      | |- keeps _ (let _ := _ in _) => cbv zeta
      end ].

Lemma try_block_keeps_shape m region :
  keeps (Forall (record_of m region)) (try_block E m region).
Proof.
  destruct m; cbv [try_block
    EC2Scanner_scan_instances_try EC2Scanner_scan_volumes_try
    EC2Scanner_scan_elastic_ips_try RDSScanner_scan_instances_try
    LambdaScanner_scan_functions_try ELBScanner_scan_load_balancers_try
    CloudWatchLogsScanner_scan_log_groups_try
    NATGatewayScanner_scan_nat_gateways_try S3Scanner_scan_buckets_try
    IAMScanner_scan_users_try IAMScanner_scan_roles_try];
  repeat shape_step.
Qed.

Lemma kind_of_supported m : kind_of m ∈ RESOURCE_TYPES.
Proof. destruct m; unfold RESOURCE_TYPES; set_solver. Qed.

(** a loop whose body appends, for each entry, records related to it *)
Lemma for_appends {A} (l : list A) (body : A -> M frame unit)
    (R : A -> list ResourceMetadata -> Prop) :
  (forall x, x ∈ l ->
     exists out, R x out /\
       forall rs w, body x (rs, w) = (Ok tt, (rs ++ out, w))) ->
  exists outs, Forall2 R l outs /\
    forall rs w, for_ l body (rs, w) = (Ok tt, (rs ++ concat outs, w)).
Proof.
  induction l as [|x l IH]; intros Hb.
  - exists []. split; [constructor|]. intros. simpl. by rewrite app_nil_r.
  - destruct (Hb x ltac:(left)) as (out & HR & Hx).
    destruct IH as (outs & HF & Hl); [intros; apply Hb; by right|].
    exists (out :: outs). split; [by constructor|]. intros rs w. simpl.
    rewrite (bind_Ok _ _ _ _ _ (Hx rs w)), Hl. by rewrite <- app_assoc.
Qed.

Lemma tags_dict_complete {S} (l : list Tag.t) :
  Forall tag_complete l ->
  forall acc, exists tags, forall s : S, tags_dict l acc s = (Ok tags, s).
Proof.
  induction 1 as [|t l [[k Hk] [v Hv]] _ IH]; intros acc; simpl.
  - by eexists.
  - rewrite Hk, Hv. unfold bind, getitem, ret. apply IH.
Qed.

(** the dictionary built from complete tags *)
Lemma tags_dict_provider {S} (l : list Tag.t) :
  Forall tag_complete l ->
  forall acc (s : S),
    tags_dict l acc s
    = (Ok (foldl (fun acc t =>
                    match Tag.Key t, Tag.Value t with
                    | Some k, Some v => <[k := v]> acc
                    | _, _ => acc
                    end) acc l), s).
Proof.
  induction 1 as [|t l [[k Hk] [v Hv]] _ IH]; intros acc s; simpl.
  - done.
  - rewrite Hk, Hv. unfold bind, getitem, ret. apply IH.
Qed.

(** the record [scan_instances] appends for a complete instance *)
Lemma instance_body_appends reg (instance : Instance.t) :
  instance_complete instance ->
  exists out,
    Forall2 (made_from reg) [instance] out /\
    forall rs w,
      (tags <- tags_dict (default [] (Instance.Tags instance)) ∅ ;;
       InstanceId <- getitem "InstanceId" (Instance.InstanceId instance) ;;
       State <- getitem "State" (Instance.State instance) ;;
       Name <- getitem "Name" (InstanceState.Name State) ;;
       LaunchTime <- getitem "LaunchTime" (Instance.LaunchTime instance) ;;
       append (ResourceMetadata_ InstanceId (default "Unnamed" (tags !! "Name"))
         "EC2_Instance" reg Name (isoformat LaunchTime) tags
         [ ("instance_type", opt_str (Instance.InstanceType instance));
           ("vpc_id", opt_str (Instance.VpcId instance));
           ("subnet_id", opt_str (Instance.SubnetId instance));
           ("public_ip", opt_str (Instance.PublicIpAddress instance));
           ("private_ip", opt_str (Instance.PrivateIpAddress instance)) ]))
        (rs, w)
      = (Ok tt, (rs ++ out, w)).
Proof.
  intros ([id Hid] & (st & Hst & [n Hn]) & [lt Hlt] & Htags).
  pose proof (tags_dict_provider (S := frame) _ Htags ∅) as Ht.
  eexists [_]. split.
  2: { intros rs w. rewrite (bind_Ok _ _ _ _ _ (Ht (rs, w))).
       rewrite Hid, Hst. unfold bind at 1, getitem at 1, ret at 1. cbv beta iota.
       unfold bind at 1, getitem at 1, ret at 1. cbv beta iota.
       rewrite Hn, Hlt. unfold bind, getitem, ret, append, modify. reflexivity. }
  constructor; [|constructor]. unfold made_from, instance_state, provider_tags.
  simpl. rewrite Hid, Hst, Hlt. simpl. rewrite Hn. repeat split.
Qed.

Lemma Forall2_concat_made_from reg (ll : list (list Instance.t)) outs :
  Forall2 (fun l out => Forall2 (made_from reg) l out) ll outs ->
  Forall2 (made_from reg) (concat ll) (concat outs).
Proof.
  induction 1; simpl; [constructor|]. by apply Forall2_app.
Qed.

End Scanner_more.

(** X4. Every record a scanner method returns has the kind of that method,
    which is one of [Config.RESOURCE_TYPES]; the region scanned (['global']
    for users and roles), the literal state where the kind has no provider
    state, a name and a creation date, and no cost estimate. *)
Theorem scanner_records_shape (E : Env) (m : scanner_method) (region : string)
    (w : world) (rs : list ResourceMetadata) :
  fst (run_scanner E m region w) = Ok rs ->
  Forall (record_of m region) rs /\
  Forall (fun r => resource_type r ∈ RESOURCE_TYPES) rs.
Proof.
  intros H. destruct (run_scanner E m region w) as [r w'] eqn:Er.
  simpl in H. subst r. rewrite run_scanner_try_block in Er.
  assert (Hs : Forall (record_of m region) rs).
  { eapply scanner_keeps; [apply try_block_keeps_shape | constructor | exact Er]. }
  split; [done|].
  clear Er. induction Hs as [|r rs [Hk _] _ IH]; constructor; [|done].
  rewrite Hk. apply kind_of_supported.
Qed.

Lemma scanner_records_shape_witness :
  Forall (record_of EC2_scan_instances "eu-west-1") small_account_instances /\
  length small_account_instances = 1.
Proof.
  split; [|vm_compute; reflexivity].
  apply (scanner_records_shape (small_account_env "running") EC2_scan_instances
           "eu-west-1" fresh_world).
  vm_compute. reflexivity.
Defined.

(** X5. No scanner method ever changes a resource: whatever the provider
    answers, and whether the method returns or raises, every request it makes
    is a read, and the credential strings are left as they are. *)
Theorem scanners_never_mutate (E : Env) (m : scanner_method) (region : string)
    (w : world) :
  only_reads_since w (snd (run_scanner E m region w)) /\
  heap (snd (run_scanner E m region w)) = heap w.
Proof.
  destruct (run_scanner E m region w) as [r w'] eqn:Er.
  apply (ro_run_scanner E m region _ _ _ Er).
Qed.

(** X6. When the instance listing of a region is complete (every instance
    has its identifier, state and launch time, every tag its key and value),
    [EC2Scanner.scan_instances] returns one record for each listed instance,
    in listing order, with the identifier and the state the provider gave,
    the region scanned, the tags of the provider (a later tag replacing an
    earlier one of its key), as name the tag ['Name'] of the provider or
    else ['Unnamed'], the launch time as creation date, and the instance
    type and addresses the provider gave as metadata. *)
Theorem scan_instances_lists_every_instance (E : Env) (reg : string)
    (w w1 : world) (ec2 : client) (response : DescribeInstances.t) :
  get_client E "ec2" (Some reg) w = (Ok ec2, w1) ->
  aws E (history w1) (Call ec2 (Op.describe_instances None)) = Ok response ->
  Forall instance_complete (listed_instances response) ->
  exists rs,
    fst (EC2Scanner_scan_instances E reg w) = Ok rs /\
    Forall2 (made_from reg) (listed_instances response) rs.
Proof.
  intros Hc Ha Hall.
  set (w2 := mkWorld (heap w1) (session w1)
               (history w1 ++ [Call ec2 (Op.describe_instances None)])).
  destruct (for_appends (default [] (DescribeInstances.Reservations response))
    (fun reservation =>
       for_ (default [] (Reservation.Instances reservation)) (fun instance =>
         tags <- tags_dict (default [] (Instance.Tags instance)) ∅ ;;
         InstanceId <- getitem "InstanceId" (Instance.InstanceId instance) ;;
         State <- getitem "State" (Instance.State instance) ;;
         Name <- getitem "Name" (InstanceState.Name State) ;;
         LaunchTime <- getitem "LaunchTime" (Instance.LaunchTime instance) ;;
         append (ResourceMetadata_ InstanceId (default "Unnamed" (tags !! "Name"))
           "EC2_Instance" reg Name (isoformat LaunchTime) tags
           [ ("instance_type", opt_str (Instance.InstanceType instance));
             ("vpc_id", opt_str (Instance.VpcId instance));
             ("subnet_id", opt_str (Instance.SubnetId instance));
             ("public_ip", opt_str (Instance.PublicIpAddress instance));
             ("private_ip", opt_str (Instance.PrivateIpAddress instance)) ])))
    (fun rsv out =>
       Forall2 (made_from reg) (default [] (Reservation.Instances rsv)) out))
    as (outs & HF & Hloop).
  { intros rsv Hrsv.
    destruct (for_appends (default [] (Reservation.Instances rsv))
      (fun instance =>
         tags <- tags_dict (default [] (Instance.Tags instance)) ∅ ;;
         InstanceId <- getitem "InstanceId" (Instance.InstanceId instance) ;;
         State <- getitem "State" (Instance.State instance) ;;
         Name <- getitem "Name" (InstanceState.Name State) ;;
         LaunchTime <- getitem "LaunchTime" (Instance.LaunchTime instance) ;;
         append (ResourceMetadata_ InstanceId (default "Unnamed" (tags !! "Name"))
           "EC2_Instance" reg Name (isoformat LaunchTime) tags
           [ ("instance_type", opt_str (Instance.InstanceType instance));
             ("vpc_id", opt_str (Instance.VpcId instance));
             ("subnet_id", opt_str (Instance.SubnetId instance));
             ("public_ip", opt_str (Instance.PublicIpAddress instance));
             ("private_ip", opt_str (Instance.PrivateIpAddress instance)) ]))
      (fun i out => Forall2 (made_from reg) [i] out))
      as (outs & HF & Hloop).
    { intros i Hi. apply instance_body_appends.
      rewrite Forall_forall in Hall. apply Hall.
      unfold listed_instances. apply in_concat.
      exists (default [] (Reservation.Instances rsv)).
      split; [|by apply list_elem_of_In].
      apply (in_map (fun rsv => default [] (Reservation.Instances rsv))).
      by apply list_elem_of_In. }
    exists (concat outs). split; [|exact Hloop].
    clear -HF. induction HF as [|i out l outs Hi _ IH]; simpl; [constructor|].
    inversion Hi as [|? r ? ? Hr Hnil]; subst. inversion Hnil; subst. simpl.
    by constructor. }
  exists (concat outs). split.
  - unfold EC2Scanner_scan_instances. rewrite scanner_unfold.
    unfold EC2Scanner_scan_instances_try.
    rewrite (bind_Ok _ _ _ _ _ (lift_eq _ [] _ _ _ Hc)).
    unfold bind at 1, lift, call, request_. rewrite Ha. cbv beta iota.
    fold w2. rewrite Hloop. reflexivity.
  - unfold listed_instances.
    clear -HF. induction HF; simpl; [constructor|]. by apply Forall2_app.
Qed.

Lemma scan_instances_lists_every_instance_witness :
  exists rs,
    fst (EC2Scanner_scan_instances (small_account_env "running") "eu-west-1"
           fresh_world) = Ok rs /\
    Forall2 (made_from "eu-west-1") [example_instance "i-0abc" "running"] rs.
Proof.
  apply (scan_instances_lists_every_instance (small_account_env "running")
           "eu-west-1" fresh_world
           (snd (get_client (small_account_env "running") "ec2"
                   (Some "eu-west-1") fresh_world))
           (mkClient "ec2" "eu-west-1")
           (DescribeInstances.mk (Some [Reservation.mk (Some
              [example_instance "i-0abc" "running"])]))).
  - vm_compute. reflexivity.
  - vm_compute. reflexivity.
  - repeat constructor; simpl; try (by eexists).
Defined.
(** * Further properties: aggregation and the order of completion *)

Section Aggregation_more.

Lemma foldl_count_incr_lookup (f : ResourceMetadata -> string) rs :
  forall (d : gmap string nat) k,
    foldl (fun d r => count_incr d (f r)) d rs !! k =
    match count_by f k rs with
    | 0 => d !! k
    | S n => Some (default 0 (d !! k) + S n)
    end.
Proof.
  unfold count_by.
  induction rs as [|r rs IH]; intros d k; simpl; [done|].
  rewrite IH. unfold count_incr. rewrite filter_cons.
  case_decide as Hk.
  - subst k. rewrite lookup_insert_eq. simpl.
    destruct (length (filter _ rs)); simpl; f_equal; lia.
  - rewrite lookup_insert_ne by done. done.
Qed.

Lemma foldl_summary_step_split rs : forall t r s,
  foldl summary_step (t, r, s) rs =
  (foldl (fun d x => count_incr d (resource_type x)) t rs,
   foldl (fun d x => count_incr d (region x)) r rs,
   foldl (fun d x => count_incr d (state x)) s rs).
Proof. induction rs as [|x rs IH]; intros t r s; simpl; [done|]. apply IH. Qed.

Lemma build_summary_totals_aux rs :
  total_resources (_build_summary rs) = length rs /\ True.
Proof.
  unfold _build_summary.
  destruct (foldl summary_step (∅, ∅, ∅) rs) as [[t r] s]. done.
Qed.

Lemma build_summary_lookup rs k :
  by_type (_build_summary rs) !! k = count_entry (count_by resource_type k rs) /\
  by_region (_build_summary rs) !! k = count_entry (count_by region k rs) /\
  by_state (_build_summary rs) !! k = count_entry (count_by state k rs).
Proof.
  unfold _build_summary. rewrite foldl_summary_step_split. simpl.
  rewrite !foldl_count_incr_lookup, !lookup_empty. unfold count_entry.
  repeat split; match goal with |- context [count_by ?f k rs] =>
    destruct (count_by f k rs) end; done.
Qed.

Lemma count_by_Permutation f k rs rs' :
  rs ≡ₚ rs' -> count_by f k rs = count_by f k rs'.
Proof. intros H. unfold count_by. by rewrite H. Qed.

Lemma build_summary_Permutation rs rs' :
  rs ≡ₚ rs' -> _build_summary rs = _build_summary rs'.
Proof.
  intros H.
  assert (Hl : forall k, by_type (_build_summary rs) !! k
                         = by_type (_build_summary rs') !! k).
  { intros k. destruct (build_summary_lookup rs k) as (-> & _).
    destruct (build_summary_lookup rs' k) as (-> & _).
    by rewrite (count_by_Permutation _ _ _ _ H). }
  assert (Hr : forall k, by_region (_build_summary rs) !! k
                         = by_region (_build_summary rs') !! k).
  { intros k. destruct (build_summary_lookup rs k) as (_ & -> & _).
    destruct (build_summary_lookup rs' k) as (_ & -> & _).
    by rewrite (count_by_Permutation _ _ _ _ H). }
  assert (Hs : forall k, by_state (_build_summary rs) !! k
                         = by_state (_build_summary rs') !! k).
  { intros k. destruct (build_summary_lookup rs k) as (_ & _ & ->).
    destruct (build_summary_lookup rs' k) as (_ & _ & ->).
    by rewrite (count_by_Permutation _ _ _ _ H). }
  apply map_eq in Hl, Hr, Hs.
  assert (Hn : total_resources (_build_summary rs)
               = total_resources (_build_summary rs')).
  { destruct (build_summary_totals_aux rs) as [-> _].
    destruct (build_summary_totals_aux rs') as [-> _]. by rewrite H. }
  destruct (_build_summary rs), (_build_summary rs'). simpl in *. congruence.
Qed.

(** the kinds of the cost summary are the kinds of the records *)
Lemma cost_summary_kinds rs k :
  is_Some (by_resource_type (_build_cost_summary rs) !! k) <->
  exists r, r ∈ rs /\ resource_type r = k.
Proof.
  unfold _build_cost_summary; cbn [by_resource_type].
  rewrite lookup_fmap, foldl_cost_step_lookup, lookup_empty.
  unfold of_kind. destruct (filter _ rs) as [|x l] eqn:Hf; simpl.
  - split; [by intros [? [=]]|]. intros (r & Hr & Hk).
    assert (r ∈ filter (fun r => resource_type r = k) rs)
      by by apply list_elem_of_filter.
    rewrite Hf in H. by apply elem_of_nil in H.
  - split; [intros _|by eauto].
    assert (Hx : x ∈ filter (fun r => resource_type r = k) rs)
      by (rewrite Hf; left).
    apply list_elem_of_filter in Hx as [? ?]. eauto.
Qed.

End Aggregation_more.

(** X7. Each frequency table of the summary holds, for a key, the number of
    records with that type, region or state, and has no entry for a key that
    no record has. *)
Theorem summary_tables_count (resources : list ResourceMetadata) (k : string) :
  by_type (_build_summary resources) !! k
    = count_entry (count_by resource_type k resources) /\
  by_region (_build_summary resources) !! k
    = count_entry (count_by region k resources) /\
  by_state (_build_summary resources) !! k
    = count_entry (count_by state k resources).
Proof. apply build_summary_lookup. Qed.

(** X8. The summary does not depend on the order of the resources, and
    neither do the kinds that the cost summary has an entry for: two lists
    that are permutations of each other have the same summary and the same
    kinds. The costs themselves are floats added in list order and may
    differ. *)
Theorem summaries_ignore_order (rs rs' : list ResourceMetadata) :
  rs ≡ₚ rs' ->
  _build_summary rs = _build_summary rs' /\
  forall k,
    is_Some (by_resource_type (_build_cost_summary rs) !! k) <->
    is_Some (by_resource_type (_build_cost_summary rs') !! k).
Proof.
  intros H. split.
  - by apply build_summary_Permutation.
  - intros k. rewrite !cost_summary_kinds. by setoid_rewrite H.
Qed.

Lemma summaries_ignore_order_witness :
  _build_summary two_cheap_kinds = _build_summary (reverse two_cheap_kinds).
Proof.
  apply (summaries_ignore_order two_cheap_kinds (reverse two_cheap_kinds)).
  apply Permutation_swap.
Defined.

(** the total of the cost summary depends on the order of the resources:
    the costs 0.096, 0.192 and 0.017 give 0.31, and 0.3 when the last comes
    second *)
Example cost_total_depends_on_order :
  estimated_monthly_total (_build_cost_summary three_instances)
    = Float 0x1.3d70a3d70a3d7p-2%float /\
  estimated_monthly_total (_build_cost_summary three_instances_reordered)
    = Float 0x1.3333333333333p-2%float /\
  three_instances ≡ₚ three_instances_reordered.
Proof.
  split; [vm_compute; reflexivity|]. split; [vm_compute; reflexivity|].
  unfold three_instances, three_instances_reordered.
  apply perm_skip, Permutation_swap.
Qed.
(** * Further properties: the scan *)

Section Scan_more.

Context (E : Env).

Lemma collect_exact futures : forall acc self w,
  collect futures acc (self, w)
  = (Ok (acc ++ ok_records futures),
     (mkAWSResourceScanner (self_errors self ++ err_records futures), w)).
Proof.
  unfold ok_records, err_records.
  induction futures as [|f futures IH]; intros acc self w; simpl.
  - rewrite !app_nil_r. by destruct self.
  - unfold bind at 1, try_except, of_res. destruct f as [rs|e]; simpl.
    + rewrite IH. by rewrite <- app_assoc.
    + rewrite IH. simpl. by rewrite <- app_assoc.
Qed.

Lemma ok_records_Permutation l l' : l ≡ₚ l' -> ok_records l ≡ₚ ok_records l'.
Proof.
  unfold ok_records. induction 1; simpl.
  - done.
  - by f_equiv.
  - rewrite !app_assoc. f_equiv. apply Permutation_app_comm.
  - etrans; eauto.
Qed.

Lemma err_records_Permutation l l' : l ≡ₚ l' -> err_records l ≡ₚ err_records l'.
Proof.
  unfold err_records. induction 1; simpl.
  - done.
  - by f_equiv.
  - rewrite !app_assoc. f_equiv. apply Permutation_app_comm.
  - etrans; eauto.
Qed.

(** the records and errors the account-wide scanners add, and the world
    they leave, from the world [w] the regional tasks left *)
Lemma scan_exact max_workers w regions w1 fs w2 :
  (0 < max_workers)%Z ->
  get_regions E w = (Ok regions, w1) ->
  run_tasks E (concat (map regional_tasks regions)) w1 = (Ok fs, w2) ->
  exists grs gerrs w3,
    only_reads_since w2 w3 /\ heap w3 = heap w2 /\
    forall schedule self,
      let rs := ok_records (as_completed schedule fs) ++ grs in
      let errs := self_errors self ++ err_records (as_completed schedule fs) ++ gerrs in
      scan E max_workers schedule (self, w)
      = (Ok (mkScanResult (utcnow_isoformat E) regions rs errs
               (_build_summary rs) (_build_cost_summary rs)),
         (mkAWSResourceScanner errs, w3)).
Proof.
  intros Hmw Hg Hfs.
  destruct (S3Scanner_scan_buckets E w2) as [rb w3] eqn:Eb.
  destruct (IAMScanner_scan_users E w3) as [ru w4] eqn:Eu.
  destruct (IAMScanner_scan_roles E w4) as [rr w5] eqn:Er.
  pose proof (ro_run_scanner E S3_scan_buckets EmptyString _ _ _ Eb) as [Rb Gb].
  pose proof (ro_run_scanner E IAM_scan_users EmptyString _ _ _ Eu) as [Ru Gu].
  pose proof (ro_run_scanner E IAM_scan_roles EmptyString _ _ _ Er) as [Rr Gr].
  simpl in Rb, Gb, Ru, Gu, Rr, Gr.
  set (s3rs := match rb with Ok bs => bs | Raise _ => [] end).
  set (s3err := match rb with
                | Ok _ => []
                | Raise e => [mkScanError "S3_scan_error" (str_exn e)]
                end).
  exists (s3rs ++ match ru with
                  | Ok us => us ++ match rr with Ok ros => ros | Raise _ => [] end
                  | Raise _ => []
                  end),
         (s3err ++ match ru with
                   | Ok _ => match rr with
                             | Ok _ => []
                             | Raise e => [mkScanError "IAM_scan_error" (str_exn e)]
                             end
                   | Raise e => [mkScanError "IAM_scan_error" (str_exn e)]
                   end),
         (match ru with Ok _ => w5 | Raise _ => w4 end).
  split; [|split].
  { destruct ru.
    - eapply only_reads_since_trans; [exact Rb|].
      eapply only_reads_since_trans; [exact Ru|exact Rr].
    - eapply only_reads_since_trans; [exact Rb|exact Ru]. }
  { destruct ru; congruence. }
  intros schedule self. cbv zeta. unfold scan.
  rewrite (bind_Ok _ _ _ _ _ (lift_eq _ self _ _ _ Hg)).
  destruct (Z.leb_spec max_workers 0) as [?|_]; [lia|].
  rewrite (bind_Ok _ _ _ tt (self, w1) eq_refl).
  rewrite (bind_Ok _ _ _ _ _ (lift_eq _ self _ _ _ Hfs)).
  rewrite (bind_Ok _ _ _ _ _ (collect_exact _ _ _ _)). rewrite app_nil_l.
  set (fs' := as_completed schedule fs).
  set (self1 := mkAWSResourceScanner (self_errors self ++ err_records fs')).
  (* S3 *)
  unfold bind at 1, try_except at 1. unfold bind at 1.
  rewrite (lift_eq _ self1 _ _ _ Eb).
  destruct rb as [bs|eb]; subst s3rs s3err; cbn [any_Exception ret].
  - (* IAM *)
    unfold bind at 1. rewrite (lift_eq _ self1 _ _ _ Eu).
    destruct ru as [us|eu]; [rewrite (lift_eq _ self1 _ _ _ Er);
                             destruct rr as [ros|er]|];
      unfold bind, errors_append, modify, get_state, ret;
      try subst self2; subst self1; simpl;
      repeat (rewrite app_nil_r || rewrite <- app_assoc); simpl; reflexivity.
  - unfold bind at 1, errors_append at 1, modify at 1. cbn [ret].
    unfold bind at 1. cbn [ret].
    set (self2 := mkAWSResourceScanner
           (self_errors self1 ++ [mkScanError "S3_scan_error" (str_exn eb)])).
    unfold bind at 1. rewrite (lift_eq _ self2 _ _ _ Eu).
    destruct ru as [us|eu]; [rewrite (lift_eq _ self2 _ _ _ Er);
                             destruct rr as [ros|er]|];
      unfold bind, errors_append, modify, get_state, ret;
      try subst self2; subst self1; simpl;
      repeat (rewrite app_nil_r || rewrite <- app_assoc); simpl; reflexivity.
Qed.

Lemma run_tasks_reads_only tasks : reads_only id (run_tasks E tasks).
Proof.
  induction tasks as [|t tasks IH]; simpl; [apply ro_ret|].
  apply ro_bind; [|intros f; apply ro_bind; [apply IH | intros; apply ro_ret]].
  intros w r w' H. unfold run_task in H.
  destruct (run_scanner E t.1 t.2 w) as [x w1] eqn:Ex. inversion H; subst.
  apply (ro_run_scanner E _ _ _ _ _ Ex).
Qed.

Lemma get_regions_not_ClientError w msg :
  fst (get_regions E w) <> Raise (ClientError msg).
Proof.
  unfold get_regions, try_except.
  match goal with |- context [match ?b w with _ => _ end] =>
    destruct (b w) as [[x|e] w'] end; [done|].
  destruct e; simpl; done.
Qed.

End Scan_more.

(** X9. The collection loop does not depend on the order in which
    [as_completed] hands the futures back: for the same futures in two
    orders it never raises and leaves the world as it is, the resources
    collected and the errors recorded are the same up to their order, and
    the summary of the resources is the same. *)
Theorem collection_ignores_completion_order
    (futures futures' : list (res (list ResourceMetadata)))
    (all_resources : list ResourceMetadata) (self : AWSResourceScanner)
    (w : world) :
  futures ≡ₚ futures' ->
  exists rs rs' self1 self2,
    collect futures all_resources (self, w) = (Ok rs, (self1, w)) /\
    collect futures' all_resources (self, w) = (Ok rs', (self2, w)) /\
    rs ≡ₚ rs' /\
    self_errors self1 ≡ₚ self_errors self2 /\
    _build_summary rs = _build_summary rs'.
Proof.
  intros H. rewrite !collect_exact. eexists _, _, _, _.
  split; [reflexivity|]. split; [reflexivity|].
  assert (Hrs : all_resources ++ ok_records futures
                ≡ₚ all_resources ++ ok_records futures').
  { f_equiv. by apply ok_records_Permutation. }
  split; [exact Hrs|]. split.
  - simpl. f_equiv. by apply err_records_Permutation.
  - by apply build_summary_Permutation.
Qed.

Lemma collection_ignores_completion_order_witness :
  exists rs rs' self1 self2,
    collect [Ok two_cheap_kinds; Raise (ClientError "AccessDenied")] []
      (mkAWSResourceScanner [], fresh_world) = (Ok rs, (self1, fresh_world)) /\
    collect [Raise (ClientError "AccessDenied"); Ok two_cheap_kinds] []
      (mkAWSResourceScanner [], fresh_world) = (Ok rs', (self2, fresh_world)) /\
    rs ≡ₚ rs' /\
    self_errors self1 ≡ₚ self_errors self2 /\
    _build_summary rs = _build_summary rs'.
Proof.
  apply (collection_ignores_completion_order
           [Ok two_cheap_kinds; Raise (ClientError "AccessDenied")]
           [Raise (ClientError "AccessDenied"); Ok two_cheap_kinds]
           [] (mkAWSResourceScanner []) fresh_world).
  apply Permutation_swap.
Defined.

(** X10. A scan raises only at its start: when region listing raises (never
    a [ClientError]) or, the regions being known, when the pool size is not
    positive ([ValueError]); once the regional tasks are submitted no failure
    of a task or of an account-wide scanner makes the scan raise. *)
Theorem scan_raises_only_at_start (E : Env) (max_workers : Z)
    (schedule : list nat) (self : AWSResourceScanner) (w : world) (e : exn) :
  fst (scan E max_workers schedule (self, w)) = Raise e <->
  fst (get_regions E w) = Raise e \/
  (is_Ok (fst (get_regions E w)) = true /\ (max_workers <= 0)%Z /\
   e = ValueError "max_workers must be greater than 0").
Proof.
  destruct (get_regions E w) as [[regions|eg] w1] eqn:Hg; simpl.
  - destruct (Z.leb_spec max_workers 0) as [Hle|Hlt].
    + unfold scan. rewrite (bind_Ok _ _ _ _ _ (lift_eq _ self _ _ _ Hg)).
      destruct (Z.leb_spec max_workers 0) as [_|?]; [|lia].
      unfold bind, raise. simpl. split.
      * intros [= <-]. right. done.
      * intros [[=]|(_ & _ & ->)]. done.
    + destruct (scan_from_regions E max_workers schedule self w regions w1 Hlt Hg)
        as (result & new & w' & Hs & _). rewrite Hs. simpl. split.
      * discriminate.
      * intros [[=]|(_ & ? & _)]. lia.
  - unfold scan. rewrite (bind_Raise _ _ _ _ _ (lift_eq _ self _ _ _ Hg)).
    simpl. split.
    + intros [= <-]. by left.
    + intros [[= <-]|([=] & _)]. done.
Qed.

(** X11. Region listing and a whole scan never change a resource: every
    request they make is a read, and the credential strings are left as they
    are, whether they return or raise. *)
Theorem scan_never_mutates (E : Env) (max_workers : Z) (schedule : list nat)
    (self : AWSResourceScanner) (w : world) :
  (only_reads_since w (snd (get_regions E w)) /\
   heap (snd (get_regions E w)) = heap w) /\
  (only_reads_since w (snd (snd (scan E max_workers schedule (self, w)))) /\
   heap (snd (snd (scan E max_workers schedule (self, w)))) = heap w).
Proof.
  split.
  { destruct (get_regions E w) as [r w'] eqn:Hg.
    apply (ro_get_regions E _ _ _ Hg). }
  destruct (get_regions E w) as [[regions|eg] w1] eqn:Hg.
  - pose proof (ro_get_regions E _ _ _ Hg) as [R1 G1]. simpl in R1, G1.
    destruct (Z.leb_spec max_workers 0) as [Hle|Hlt].
    + unfold scan. rewrite (bind_Ok _ _ _ _ _ (lift_eq _ self _ _ _ Hg)).
      destruct (Z.leb_spec max_workers 0) as [_|?]; [|lia].
      unfold bind, raise. simpl. done.
    + destruct (run_tasks_spec E (concat (map regional_tasks regions)) w1)
        as (fs & w2 & Hfs & _ & _).
      pose proof (run_tasks_reads_only E _ _ _ _ Hfs) as [R2 G2].
      simpl in R2, G2.
      destruct (scan_exact E max_workers w regions w1 fs w2 Hlt Hg Hfs)
        as (grs & gerrs & w3 & R3 & G3 & Hscan).
      rewrite (Hscan schedule self). simpl. split; [|congruence].
      eapply only_reads_since_trans; [exact R1|].
      eapply only_reads_since_trans; [exact R2|exact R3].
  - pose proof (ro_get_regions E _ _ _ Hg) as [R1 G1]. simpl in R1, G1.
    unfold scan. rewrite (bind_Raise _ _ _ _ _ (lift_eq _ self _ _ _ Hg)).
    simpl. done.
Qed.
(** * Further properties: validators and actions *)

Section Yields_facts.

Context {S : Type}.

Lemma yields_ret {A} (P : A -> Prop) (a : A) : P a -> yields (S := S) P (ret a).
Proof. intros H s x s' [= <- _]. done. Qed.

Lemma yields_raise {A} (P : A -> Prop) e : yields (S := S) P (raise e).
Proof. intros s x s' [=]. Qed.

Lemma yields_bind {A B} (Q : A -> Prop) (P : B -> Prop) (m : M S A) k :
  yields Q m -> (forall a, Q a -> yields P (k a)) -> yields P (bind m k).
Proof.
  intros Hm Hk s b s' H. apply bind_Ok_inv in H as (a & s1 & Ha & Hb).
  eapply Hk; eauto.
Qed.

Lemma yields_any {A} (m : M S A) : yields (fun _ => True) m.
Proof. done. Qed.

Lemma yields_try_except {A} (P : A -> Prop) (m : M S A) c h :
  yields P m -> (forall e, yields P (h e)) -> yields P (try_except m c h).
Proof.
  intros Hm Hh s a s' H. unfold try_except in H.
  destruct (m s) as [[x|e] s1] eqn:Em.
  - inversion H; subst. eapply Hm; eauto.
  - destruct (c e); [|discriminate]. eapply Hh; eauto.
Qed.

End Yields_facts.

Ltac ro_world :=
  repeat first
    [ apply ro_ret | apply ro_raise | apply ro_getitem | apply ro_first_item
    | apply ro_tags_dict | apply ro_get_client
    | apply ro_call; reflexivity
    | apply ro_bind; [ | intros ? ]
    | apply ro_try_except; [ | intros ? ]
    | match goal with
      | |- reads_only _ (match ?x with _ => _ end) => destruct x
      end ].

Section Action_more.

Context (E : Env).

Lemma ro_run_validator v resource_id region :
  reads_only id (run_validator E v resource_id region).
Proof.
  destruct v; cbv [run_validator validate_ec2_stop validate_rds_stop
    validate_nat_gateway_delete validate_elastic_ip_release api_error];
  ro_world.
Qed.

Lemma validator_not_ClientError v resource_id region w msg :
  fst (run_validator E v resource_id region w) <> Raise (ClientError msg).
Proof.
  destruct v; cbv [run_validator validate_ec2_stop validate_rds_stop
    validate_nat_gateway_delete validate_elastic_ip_release];
  unfold try_except;
  match goal with |- context [match ?b w with _ => _ end] =>
    destruct (b w) as [[x|e] w'] end; try done;
  destruct e; simpl; done.
Qed.

(** the read of a validator, made with the client it obtained *)
Lemma validator_after_read v resource_id region w c w1 :
  get_client E (validator_service v) region w = (Ok c, w1) ->
  forall answer,
    aws E (history w1) (Call c (validator_read v resource_id)) = answer ->
    (forall msg, answer = Raise (ClientError msg) ->
       fst (run_validator E v resource_id region w)
       = Ok (invalid ("API error: " +:+ msg))) /\
    (forall response, answer = Ok response ->
       listing_empty v resource_id response ->
       fst (run_validator E v resource_id region w)
       = Ok (invalid (not_found_reason v))).
Proof.
  intros Hc answer Ha. split.
  - intros msg ->.
    destruct v; cbv [run_validator validate_ec2_stop validate_rds_stop
      validate_nat_gateway_delete validate_elastic_ip_release];
    unfold try_except; simpl in Hc, Ha;
    rewrite (bind_Ok _ _ _ _ _ Hc);
    unfold bind at 1, call, request_; rewrite Ha; reflexivity.
  - intros response -> Hempty.
    destruct v; cbv [run_validator validate_ec2_stop validate_rds_stop
      validate_nat_gateway_delete validate_elastic_ip_release];
    unfold try_except; simpl in Hc, Ha, Hempty;
    rewrite (bind_Ok _ _ _ _ _ Hc);
    unfold bind at 1, call, request_; rewrite Ha; cbv beta iota;
    rewrite Hempty; reflexivity.
Qed.

End Action_more.

(** X12. A validator never changes a resource and never raises a
    [ClientError]: whatever the provider answers, every request it makes is a
    read and the credential strings are left as they are. *)
Theorem validators_never_mutate (E : Env) (v : validator)
    (resource_id region : option string) (w : world) :
  only_reads_since w (snd (run_validator E v resource_id region w)) /\
  heap (snd (run_validator E v resource_id region w)) = heap w /\
  forall msg,
    fst (run_validator E v resource_id region w) <> Raise (ClientError msg).
Proof.
  split; [|split].
  - destruct (run_validator E v resource_id region w) as [r w'] eqn:Hv.
    apply (ro_run_validator E v _ _ _ _ _ Hv).
  - destruct (run_validator E v resource_id region w) as [r w'] eqn:Hv.
    apply (ro_run_validator E v _ _ _ _ _ Hv).
  - intros msg. apply validator_not_ClientError.
Qed.

(** X13. When the read of a validator fails with a [ClientError], the
    validator answers invalid with the reason 'API error: ' followed by the
    text of the error; when the read returns an empty listing, it answers
    invalid with the reason that the resource was not found. *)
Theorem validators_report_read_failures (E : Env) (v : validator)
    (resource_id region : option string) (w w1 : world) (c : client) :
  get_client E (validator_service v) region w = (Ok c, w1) ->
  (forall msg,
     aws E (history w1) (Call c (validator_read v resource_id))
       = Raise (ClientError msg) ->
     fst (run_validator E v resource_id region w)
     = Ok (invalid ("API error: " +:+ msg))) /\
  (forall response,
     aws E (history w1) (Call c (validator_read v resource_id)) = Ok response ->
     listing_empty v resource_id response ->
     fst (run_validator E v resource_id region w)
     = Ok (invalid (not_found_reason v))).
Proof.
  intros Hc. split.
  - intros msg Ha.
    by apply (proj1 (validator_after_read E v resource_id region w c w1 Hc _ Ha)).
  - intros response Ha.
    by apply (proj2 (validator_after_read E v resource_id region w c w1 Hc _ Ha)).
Qed.

Lemma validators_report_read_failures_witness :
  fst (run_validator denied_env rds_stop (Some "db1") (Some "eu-west-1") fresh_world)
  = Ok (invalid "API error: AccessDenied").
Proof.
  destruct (validators_report_read_failures denied_env rds_stop (Some "db1")
              (Some "eu-west-1") fresh_world
              (snd (get_client denied_env "rds" (Some "eu-west-1") fresh_world))
              (mkClient "rds" "eu-west-1")) as [H _].
  - vm_compute. reflexivity.
  - apply (H "AccessDenied"). vm_compute. reflexivity.
Defined.
(** * Further properties: what each validator decides *)

(** X14. Once the provider has reported the status of a database,
    [validate_rds_stop] is valid exactly when that status is neither
    'stopping' nor 'stopped'; otherwise its reason is 'Instance already '
    followed by the status. *)
Theorem validate_rds_stop_decides (E : Env) (db_instance_id region : option string)
    (w w1 : world) (rds : client) (response : DescribeDBInstances.t)
    (db : DBInstance.t) (rest : list DBInstance.t) (s : string) :
  get_client E "rds" region w = (Ok rds, w1) ->
  aws E (history w1) (Call rds (Op.describe_db_instances (Some db_instance_id)))
    = Ok response ->
  DescribeDBInstances.DBInstances response = Some (db :: rest) ->
  DBInstance.DBInstanceStatus db = Some s ->
  exists v,
    fst (validate_rds_stop E db_instance_id region w) = Ok v /\
    (valid v = true <-> s <> "stopping" /\ s <> "stopped") /\
    (valid v = false -> reason v = Some ("Instance already " +:+ s)).
Proof.
  intros Hc Ha Hl Hs. unfold validate_rds_stop, try_except.
  rewrite (bind_Ok _ _ _ _ _ Hc).
  unfold bind at 1, call, request_. rewrite Ha. cbv beta iota.
  rewrite Hl. unfold bind at 1, getitem at 1, ret at 1. cbv beta iota.
  rewrite Hs. unfold bind at 1, getitem at 1, ret at 1. cbv beta iota.
  destruct (String.eqb_spec s "stopping") as [->|H1]; simpl.
  { eexists. split; [reflexivity|]. simpl. split; [|done].
    split; [discriminate|]. intros [? ?]. done. }
  destruct (String.eqb_spec s "stopped") as [->|H2]; simpl.
  { eexists. split; [reflexivity|]. simpl. split; [|done].
    split; [discriminate|]. intros [? ?]. done. }
  eexists. split; [reflexivity|]. simpl. split; [|discriminate]. done.
Qed.

Lemma validate_rds_stop_decides_witness :
  exists v,
    fst (validate_rds_stop throttled_tags_env (Some "db1") (Some "eu-west-1")
           fresh_world) = Ok v /\
    (valid v = true <-> "available" <> "stopping" /\ "available" <> "stopped").
Proof.
  destruct (validate_rds_stop_decides throttled_tags_env (Some "db1")
              (Some "eu-west-1") fresh_world
              (snd (get_client throttled_tags_env "rds" (Some "eu-west-1") fresh_world))
              (mkClient "rds" "eu-west-1")
              (DescribeDBInstances.mk (Some [example_db "db1"; example_db "db2"]))
              (example_db "db1") [example_db "db2"] "available")
    as (v & H1 & H2 & _).
  - vm_compute. reflexivity.
  - vm_compute. reflexivity.
  - reflexivity.
  - reflexivity.
  - exists v. split; [exact H1 | exact H2].
Defined.

(** X15. Once the provider has reported the state of a NAT gateway,
    [validate_nat_gateway_delete] is valid exactly when that state is neither
    'deleted' nor 'deleting'; the reason says which of the two it is. *)
Theorem validate_nat_gateway_delete_decides (E : Env)
    (nat_gateway_id region : option string) (w w1 : world) (ec2 : client)
    (response : DescribeNatGateways.t) (gw : NatGateway.t)
    (rest : list NatGateway.t) (s : string) :
  get_client E "ec2" region w = (Ok ec2, w1) ->
  aws E (history w1) (Call ec2 (Op.describe_nat_gateways (Some [nat_gateway_id])))
    = Ok response ->
  DescribeNatGateways.NatGateways response = Some (gw :: rest) ->
  NatGateway.State gw = Some s ->
  exists v,
    fst (validate_nat_gateway_delete E nat_gateway_id region w) = Ok v /\
    (valid v = true <-> s <> "deleted" /\ s <> "deleting") /\
    (s = "deleted" -> reason v = Some "NAT Gateway already deleted") /\
    (s = "deleting" -> reason v = Some "NAT Gateway is already deleting").
Proof.
  intros Hc Ha Hl Hs. unfold validate_nat_gateway_delete, try_except.
  rewrite (bind_Ok _ _ _ _ _ Hc).
  unfold bind at 1, call, request_. rewrite Ha. cbv beta iota.
  rewrite Hl. unfold bind at 1, getitem at 1, ret at 1. cbv beta iota.
  rewrite Hs. unfold bind at 1, getitem at 1, ret at 1. cbv beta iota.
  destruct (String.eqb_spec s "deleted") as [->|H1]; simpl.
  { eexists. split; [reflexivity|]. simpl. repeat split; try done.
    intros [? ?]. done. }
  destruct (String.eqb_spec s "deleting") as [->|H2]; simpl.
  { eexists. split; [reflexivity|]. simpl. repeat split; try done.
    intros [? ?]. done. }
  eexists. split; [reflexivity|]. simpl. repeat split; done.
Qed.

Lemma validate_nat_gateway_delete_decides_witness :
  exists v,
    fst (validate_nat_gateway_delete (one_gateway_env "deleting") (Some "nat-1")
           (Some "eu-west-1") fresh_world) = Ok v /\
    valid v = false /\
    reason v = Some "NAT Gateway is already deleting".
Proof.
  destruct (validate_nat_gateway_delete_decides (one_gateway_env "deleting")
              (Some "nat-1") (Some "eu-west-1") fresh_world
              (snd (get_client (one_gateway_env "deleting") "ec2"
                      (Some "eu-west-1") fresh_world))
              (mkClient "ec2" "eu-west-1")
              (DescribeNatGateways.mk (Some [example_gateway "nat-1" "deleting"]))
              (example_gateway "nat-1" "deleting") [] "deleting")
    as (v & H1 & H2 & _ & H3).
  - vm_compute. reflexivity.
  - vm_compute. reflexivity.
  - reflexivity.
  - reflexivity.
  - exists v. split; [exact H1|]. split; [|apply H3; reflexivity].
    destruct (valid v); [|reflexivity].
    destruct (proj1 H2 eq_refl) as [_ H]. exfalso. apply H. reflexivity.
Defined.

(** X16. Once the provider has listed an address, [validate_elastic_ip_release]
    is valid exactly when the address has no association; otherwise it is
    invalid, says that the address is still associated, and gives the
    instance the provider names. *)
Theorem validate_elastic_ip_release_decides (E : Env)
    (allocation_id region : option string) (w w1 : world) (ec2 : client)
    (response : DescribeAddresses.t) (address : Address.t)
    (rest : list Address.t) :
  get_client E "ec2" region w = (Ok ec2, w1) ->
  aws E (history w1) (Call ec2 (Op.describe_addresses (Some [allocation_id])))
    = Ok response ->
  DescribeAddresses.Addresses response = Some (address :: rest) ->
  exists v,
    fst (validate_elastic_ip_release E allocation_id region w) = Ok v /\
    (valid v = true <-> Address.AssociationId address = None) /\
    (valid v = false ->
     reason v = Some "Elastic IP is still associated with an instance" /\
     details v = [("associated_instance", opt_str (Address.InstanceId address))]).
Proof.
  intros Hc Ha Hl. unfold validate_elastic_ip_release, try_except.
  rewrite (bind_Ok _ _ _ _ _ Hc).
  unfold bind at 1, call, request_. rewrite Ha. cbv beta iota.
  rewrite Hl. unfold bind at 1, getitem at 1, ret at 1. cbv beta iota.
  destruct (Address.AssociationId address); simpl;
    eexists; (split; [reflexivity|]); simpl; repeat split; done.
Qed.

Lemma validate_elastic_ip_release_decides_witness :
  exists v,
    fst (validate_elastic_ip_release (one_address_env (Some "i-0abc"))
           (Some "eipalloc-1") (Some "eu-west-1") fresh_world) = Ok v /\
    valid v = false /\
    details v = [("associated_instance", PStr "i-0abc")].
Proof.
  destruct (validate_elastic_ip_release_decides (one_address_env (Some "i-0abc"))
              (Some "eipalloc-1") (Some "eu-west-1") fresh_world
              (snd (get_client (one_address_env (Some "i-0abc")) "ec2"
                      (Some "eu-west-1") fresh_world))
              (mkClient "ec2" "eu-west-1")
              (DescribeAddresses.mk (Some [example_address "eipalloc-1" (Some "i-0abc")]))
              (example_address "eipalloc-1" (Some "i-0abc")) [])
    as (v & H1 & H2 & H3).
  - vm_compute. reflexivity.
  - vm_compute. reflexivity.
  - reflexivity.
  - exists v. split; [exact H1|].
    assert (Hv : valid v = false).
    { destruct (valid v); [|reflexivity].
      discriminate (proj1 H2 eq_refl). }
    split; [exact Hv|]. exact (proj2 (H3 Hv)).
Defined.

(** X17. For an instance whose state, as the provider reports it, is none of
    stopped, stopping, terminated and terminating, and whose tags have their
    keys and values, [validate_ec2_stop] is valid and gives that state as
    the current one. *)
Theorem validate_ec2_stop_accepts (E : Env) (instance_id region : option string)
    (w w1 : world) (ec2 : client) (response : DescribeInstances.t)
    (reservation : Reservation.t) (reservations : list Reservation.t)
    (instance : Instance.t) (instances : list Instance.t)
    (State : InstanceState.t) (s : string) :
  get_client E "ec2" region w = (Ok ec2, w1) ->
  aws E (history w1) (Call ec2 (Op.describe_instances (Some [instance_id])))
    = Ok response ->
  DescribeInstances.Reservations response = Some (reservation :: reservations) ->
  Reservation.Instances reservation = Some (instance :: instances) ->
  Instance.State instance = Some State ->
  InstanceState.Name State = Some s ->
  s ∉ ["stopped"; "stopping"; "terminated"; "terminating"] ->
  Forall tag_complete (default [] (Instance.Tags instance)) ->
  exists v,
    fst (validate_ec2_stop E instance_id region w) = Ok v /\
    valid v = true /\
    details v !! 0 = Some ("current_state", PStr s).
Proof.
  intros Hc Ha Hr Hi Hs Hn Hnot Htags.
  destruct (tags_dict_complete (S := world) _ Htags ∅) as [tags Ht].
  unfold validate_ec2_stop, try_except.
  rewrite (bind_Ok _ _ _ _ _ Hc).
  unfold bind at 1, call, request_. rewrite Ha. cbv beta iota.
  rewrite Hr. unfold bind at 1, getitem at 1, ret at 1. cbv beta iota.
  rewrite Hi. unfold bind at 1, getitem at 1, ret at 1. cbv beta iota.
  unfold bind at 1, first_item at 1, ret at 1. cbv beta iota.
  rewrite Hs. unfold bind at 1, getitem at 1, ret at 1. cbv beta iota.
  rewrite Hn. unfold bind at 1, getitem at 1, ret at 1. cbv beta iota.
  destruct (String.eqb_spec s "stopped") as [->|_]; [set_solver|].
  destruct (String.eqb_spec s "stopping") as [->|_]; [set_solver|].
  destruct (String.eqb_spec s "terminated") as [->|_]; [set_solver|].
  destruct (String.eqb_spec s "terminating") as [->|_]; [set_solver|].
  rewrite (bind_Ok _ _ _ _ _ (Ht _)). eexists. split; [reflexivity|]. done.
Qed.

Lemma validate_ec2_stop_accepts_witness :
  exists v,
    fst (validate_ec2_stop (small_account_env "running") (Some "i-0abc")
           (Some "eu-west-1") fresh_world) = Ok v /\
    valid v = true /\
    details v !! 0 = Some ("current_state", PStr "running").
Proof.
  apply (validate_ec2_stop_accepts (small_account_env "running") (Some "i-0abc")
           (Some "eu-west-1") fresh_world
           (snd (get_client (small_account_env "running") "ec2"
                   (Some "eu-west-1") fresh_world))
           (mkClient "ec2" "eu-west-1")
           (DescribeInstances.mk (Some [Reservation.mk (Some
              [example_instance "i-0abc" "running"])]))
           (Reservation.mk (Some [example_instance "i-0abc" "running"])) []
           (example_instance "i-0abc" "running") []
           (InstanceState.mk (Some "running")) "running").
  - vm_compute. reflexivity.
  - vm_compute. reflexivity.
  - reflexivity.
  - reflexivity.
  - reflexivity.
  - reflexivity.
  - intros H. repeat (apply elem_of_cons in H as [H|H]; [discriminate H|]).
    by apply elem_of_nil in H.
  - repeat constructor; simpl; by eexists.
Defined.
(** * Further properties: the executor *)

Section Touches_facts.

Lemma mutations_app l1 l2 : mutations (l1 ++ l2) = mutations l1 ++ mutations l2.
Proof. unfold mutations. apply list.filter_app. Qed.

Lemma mutations_reads l :
  Forall (fun r => is_mutation r = false) l -> mutations l = [].
Proof.
  induction 1 as [|r l Hr _ IH]; [done|].
  unfold mutations in *. rewrite filter_cons.
  destruct (decide (is_mutation r = true)); [congruence | done].
Qed.

Lemma touches_ret op x : success x = false -> touches op (ret x).
Proof.
  intros Hx w r w' [= <- <-]. exists []. rewrite app_nil_r.
  split; [done|]. split; [done|]. left. split; [done|]. by intros ? [= <-].
Qed.

Lemma touches_raise op e : touches op (raise e).
Proof.
  intros w r w' [= <- <-]. exists []. rewrite app_nil_r.
  split; [done|]. split; [done|]. left. split; [done|]. intros ? [=].
Qed.

Lemma touches_bind {A} op (m : M world A) k :
  reads_only id m -> (forall a, touches op (k a)) -> touches op (bind m k).
Proof.
  intros Hm Hk w r w' H. unfold bind in H.
  destruct (m w) as [[a|e] w1] eqn:Em.
  - destruct (Hm _ _ _ Em) as [(n1 & H1 & F1) G1]. simpl in *.
    destruct (Hk a _ _ _ H) as (n2 & H2 & G2 & D).
    exists (n1 ++ n2). rewrite H2, H1, app_assoc. split; [done|].
    split; [congruence|].
    by rewrite mutations_app, (mutations_reads _ F1).
  - inversion H; subst. destruct (Hm _ _ _ Em) as [(n1 & H1 & F1) G1].
    simpl in *. exists n1. split; [done|]. split; [done|]. left.
    split; [by apply mutations_reads|]. intros ? [=].
Qed.

Lemma touches_try_except op (m : M world DeleteResult) c (h : exn -> DeleteResult) :
  touches op m -> (forall e, success (h e) = false) ->
  touches op (try_except m c (fun e => ret (h e))).
Proof.
  intros Hm Hh w r w' H. unfold try_except in H.
  destruct (m w) as [[a|e] w1] eqn:Em.
  - inversion H; subst. eapply Hm; eauto.
  - destruct (Hm _ _ _ Em) as (n & H1 & G1 & D).
    destruct (c e).
    + inversion H; subst. exists n. split; [done|]. split; [done|].
      destruct D as [[D _]|D]; [left | by right].
      split; [done|]. intros ? [= <-]. apply Hh.
    + inversion H; subst. exists n. eauto.
Qed.

(** the mutating request, followed by reads *)
Lemma touches_call E c op (k : M world DeleteResult) :
  Op.is_mutation op = true -> reads_only id k ->
  touches op (call E c op ;;; k).
Proof.
  intros Hop Hk w r w' H. unfold bind, call, request_ in H.
  destruct (aws E (history w) (Call c op)) as [a|e].
  - destruct (Hk _ _ _ H) as [(n & H1 & F1) G1]. simpl in *.
    exists (Call c op :: n). rewrite H1, <- app_assoc. split; [done|].
    split; [done|]. right. exists c.
    unfold mutations. rewrite filter_cons. simpl.
    destruct (decide (Op.is_mutation op = true)); [|done].
    f_equal. by apply mutations_reads.
  - inversion H; subst. simpl. exists [Call c op]. split; [done|].
    split; [done|]. right. exists c.
    unfold mutations. rewrite filter_cons. simpl.
    destruct (decide (Op.is_mutation op = true)); done.
Qed.

End Touches_facts.

Ltac touches_step :=
  first
    [ apply touches_ret; reflexivity
    | apply touches_raise
    | apply touches_call; [reflexivity | ro_world]
    | apply touches_try_except; [ | intros ?; reflexivity ]
    | apply touches_bind; [ ro_world | intros ? ]
    | match goal with
      | |- touches _ (match ?x with _ => _ end) => destruct x
      end ].

Ltac yields_step :=
  first
    [ apply yields_ret; repeat split; done
    | apply yields_raise
    | apply yields_try_except; [ | intros ? ]
    | eapply yields_bind; [ apply yields_any | intros ? _ ]
    | match goal with
      | |- yields _ (match ?x with _ => _ end) => destruct x
      end ].

Section Executor_facts.

Context (E : Env).

Lemma ro_rejected v resource_id resource_type action_value :
  reads_only id (rejected v resource_id resource_type action_value).
Proof. unfold rejected. ro_world. Qed.

(** an early return of [rejected] is a failure that echoes the request *)
Lemma rejected_early v resource_id resource_type action_value w early w' :
  rejected v resource_id resource_type action_value w = (Ok (Some early), w') ->
  success early = false /\
  answers resource_id (Some resource_type) action_value early.
Proof.
  unfold rejected. destruct (valid v); [intros [=]|].
  destruct (reason v); simpl; [|intros [=]].
  intros [= <- _]. repeat split; done.
Qed.

Lemma touches_after_rejected op v resource_id resource_type action_value k :
  touches op k ->
  touches op
    (early <- rejected v resource_id resource_type action_value ;;
     match early with Some result => ret result | None => k end).
Proof.
  intros Hk w r w' H. unfold bind in H.
  destruct (rejected v resource_id resource_type action_value w)
    as [[[early|]|e] w1] eqn:Er.
  - destruct (rejected_early _ _ _ _ _ _ _ Er) as [Hs _].
    destruct (ro_rejected _ _ _ _ _ _ _ Er) as [(n & H1 & F1) G1].
    inversion H; subst. simpl in *. exists n. split; [done|]. split; [done|].
    left. split; [by apply mutations_reads|]. by intros ? [= <-].
  - destruct (ro_rejected _ _ _ _ _ _ _ Er) as [(n1 & H1 & F1) G1].
    simpl in *. destruct (Hk _ _ _ H) as (n2 & H2 & G2 & D).
    exists (n1 ++ n2). rewrite H2, H1, app_assoc. split; [done|].
    split; [congruence|].
    by rewrite mutations_app, (mutations_reads _ F1).
  - destruct (ro_rejected _ _ _ _ _ _ _ Er) as [(n & H1 & F1) G1].
    inversion H; subst. simpl in *. exists n. split; [done|]. split; [done|].
    left. split; [by apply mutations_reads|]. intros ? [=].
Qed.

Lemma yields_after_rejected (P : DeleteResult -> Prop) v resource_id resource_type
    action_value k :
  (forall r, answers resource_id (Some resource_type) action_value r -> P r) ->
  yields P k ->
  yields P
    (early <- rejected v resource_id resource_type action_value ;;
     match early with Some result => ret result | None => k end).
Proof.
  intros HP Hk w r w' H. apply bind_Ok_inv in H as ([early|] & w1 & Er & H).
  - inversion H; subst. apply HP. eapply rejected_early; eauto.
  - eapply Hk; eauto.
Qed.

(** each action makes at most its own mutating request *)
Lemma apply_touches f resource_id region :
  touches (mutation_of f resource_id) (apply_ E f [resource_id; region]).
Proof.
  destruct f; cbn [apply_ mutation_of];
    [ unfold stop_ec2_instance | unfold stop_rds_instance
    | unfold delete_nat_gateway | unfold release_elastic_ip
    | unfold delete_ebs_volume | ];
    try (apply touches_bind; [apply (ro_run_validator E ec2_stop)
                             || apply (ro_run_validator E rds_stop)
                             || apply (ro_run_validator E nat_gateway_delete)
                             || apply (ro_run_validator E elastic_ip_release)
                             | intros ?];
         apply touches_after_rejected);
    repeat touches_step.
Qed.

(** the pairs [action_map] holds, and what it holds for them *)
Lemma action_map_Some resource_type action f :
  action_map resource_type action = Some f ->
  (resource_type, action, f) ∈
    [ (Some "EC2_Instance", STOP, self_stop_ec2_instance);
      (Some "RDS_Instance", STOP, self_stop_rds_instance);
      (Some "NAT_Gateway", DELETE, self_delete_nat_gateway);
      (Some "Elastic_IP", DELETE, self_release_elastic_ip);
      (Some "EBS_Volume", DELETE, self_delete_ebs_volume);
      (Some "S3_Bucket", DELETE, self_delete_s3_bucket) ].
Proof.
  unfold action_map. destruct resource_type as [t|]; [|done].
  destruct action; [| |done];
    repeat match goal with
    | |- context [String.eqb t ?k] => destruct (String.eqb_spec t k)
    end; subst; intros [= <-]; set_solver.
Qed.

Lemma action_map_None resource_type action :
  action_map resource_type action = None <->
  forall t, resource_type = Some t -> (t, action) ∉ supported_pairs.
Proof.
  split.
  - destruct resource_type as [t|]; [|done].
    intros H t' [= <-] Hin. unfold supported_pairs in Hin.
    repeat (apply elem_of_cons in Hin as [[= -> ->]|Hin]);
      try (vm_compute in H; discriminate H).
    by apply elem_of_nil in Hin.
  - unfold action_map, supported_pairs.
    destruct resource_type as [t|]; [|done].
    intros H. specialize (H t eq_refl).
    destruct action; [| |done];
      repeat match goal with
      | |- context [String.eqb t ?k] => destruct (String.eqb_spec t k)
      end; try done; subst; exfalso; apply H; repeat constructor.
Qed.

(** what an action returns echoes its request *)
Lemma apply_answers resource_type action f resource_id region :
  action_map resource_type action = Some f ->
  yields (answers resource_id resource_type (ActionType_value action))
    (apply_ E f [resource_id; region]).
Proof.
  intros H. apply action_map_Some in H.
  repeat (apply elem_of_cons in H as [[= -> -> ->]|H]);
    [ .. | by apply elem_of_nil in H ];
    cbn [apply_ ActionType_value];
    [ unfold stop_ec2_instance | unfold stop_rds_instance
    | unfold delete_nat_gateway | unfold release_elastic_ip
    | unfold delete_ebs_volume | ];
    try (eapply yields_bind; [apply yields_any | intros ? _];
         apply yields_after_rejected; [done|]);
    repeat yields_step.
Qed.

(** [execute_action] returns, and what it returns echoes the request *)
Lemma execute_action_returns resource_type resource_id region action w :
  exists result w',
    execute_action E resource_type resource_id region action w = (Ok result, w') /\
    answers resource_id resource_type (ActionType_value action) result.
Proof.
  unfold execute_action.
  destruct (action_map resource_type action) as [f|] eqn:Hf.
  - unfold try_except.
    destruct (apply_ E f [resource_id; region] w) as [[result|e] w'] eqn:Ha.
    + exists result, w'. split; [done|].
      apply (apply_answers _ _ _ _ _ Hf _ _ _ Ha).
    + eexists _, _. split; [reflexivity|]. repeat split; done.
  - eexists _, _. split; [reflexivity|]. repeat split; done.
Qed.

(** the requests of a run of [execute_action] *)
Lemma execute_action_requests resource_type resource_id region action w r w' :
  execute_action E resource_type resource_id region action w = (r, w') ->
  exists new,
    history w' = history w ++ new /\ heap w' = heap w /\
    ((mutations new = [] /\ forall result, r = Ok result -> success result = false) \/
     (exists f c,
        action_map resource_type action = Some f /\
        mutations new = [Call c (mutation_of f resource_id)])).
Proof.
  unfold execute_action.
  destruct (action_map resource_type action) as [f|] eqn:Hf.
  - intros Hm.
    destruct (touches_try_except (mutation_of f resource_id)
      (apply_ E f [resource_id; region]) any_Exception
      (fun e => failed_result resource_id resource_type (ActionType_value action)
                  "Unexpected error during action execution" (Some (str_exn e)))
      (apply_touches f resource_id region) (fun _ => eq_refl) _ _ _ Hm)
      as (new & H1 & G1 & D).
    exists new. split; [done|]. split; [done|].
    destruct D as [D|[c D]]; [by left | right; eauto].
  - intros [= <- <-]. exists []. rewrite app_nil_r. split; [done|].
    split; [done|]. left. split; [done|]. by intros ? [= <-].
Qed.

End Executor_facts.

(** X18. [execute_action] never raises: for every resource type, id, region
    and action, and whatever the provider answers, it returns an outcome; the
    outcome carries the resource id, the resource type and the action value
    of the request, its verification status is 'verified' when it reports
    success and 'failed' otherwise, and a success carries no error. *)
Theorem execute_action_always_answers (E : Env)
    (resource_type resource_id region : option string) (action : ActionType)
    (w : world) :
  exists result,
    fst (execute_action E resource_type resource_id region action w) = Ok result /\
    answers resource_id resource_type (ActionType_value action) result.
Proof.
  destruct (execute_action_returns E resource_type resource_id region action w)
    as (result & w' & H & Ha).
  exists result. by rewrite H.
Qed.

(** X19. A run of [execute_action] makes at most one request that changes a
    resource, and leaves the credential strings as they are. When it makes
    none, the outcome is a failure; when it makes one, it is the operation of
    the method that [action_map] holds for the resource type and the action,
    on the resource id of the request. *)
Theorem execute_action_mutates_at_most_once (E : Env)
    (resource_type resource_id region : option string) (action : ActionType)
    (w : world) :
  exists new,
    history (snd (execute_action E resource_type resource_id region action w))
      = history w ++ new /\
    heap (snd (execute_action E resource_type resource_id region action w)) = heap w /\
    ((mutations new = [] /\
      forall result,
        fst (execute_action E resource_type resource_id region action w) = Ok result ->
        success result = false) \/
     (exists f c,
        action_map resource_type action = Some f /\
        mutations new = [Call c (mutation_of f resource_id)])).
Proof.
  destruct (execute_action E resource_type resource_id region action w)
    as [r w'] eqn:Hm.
  apply (execute_action_requests E _ _ _ _ _ _ _ Hm).
Qed.

(** X20. [action_map] holds a method for six pairs of a resource type and an
    action. For every other pair, among them the terminate action on every
    type, [execute_action] makes no request at all: it returns a failure
    whose message names the action and the type, and the world is as it
    was. *)
Theorem unsupported_action_refused (E : Env)
    (resource_type resource_id region : option string) (action : ActionType)
    (w : world) :
  (forall t, resource_type = Some t -> (t, action) ∉ supported_pairs) ->
  execute_action E resource_type resource_id region action w
  = (Ok (failed_result resource_id resource_type (ActionType_value action)
           ("Unsupported action " +:+ ActionType_value action
            +:+ " for resource type " +:+ fmt resource_type) None), w).
Proof.
  intros H. apply action_map_None in H. unfold execute_action. by rewrite H.
Qed.

Lemma unsupported_action_refused_witness :
  execute_action denied_env (Some "EC2_Instance") (Some "i-0abc")
    (Some "eu-west-1") TERMINATE fresh_world
  = (Ok (failed_result (Some "i-0abc") (Some "EC2_Instance") "terminate"
           "Unsupported action terminate for resource type EC2_Instance" None),
     fresh_world).
Proof.
  apply (unsupported_action_refused denied_env (Some "EC2_Instance")
           (Some "i-0abc") (Some "eu-west-1") TERMINATE fresh_world).
  intros t [= <-] H.
  repeat (apply elem_of_cons in H as [H|H]; [discriminate H|]).
  by apply elem_of_nil in H.
Defined.
(** * Further properties: deleting volumes and buckets *)

(** X21. [delete_ebs_volume] deletes a volume only when the provider reports
    it as 'available'. For any other state it returns a failure that names
    the state, after reads only; for 'available' it makes the delete request
    right after the read, and reports success exactly when the provider
    accepts that request. *)
Theorem delete_ebs_volume_needs_available (E : Env)
    (volume_id region : option string) (w w1 : world) (ec2 : client)
    (response : DescribeVolumes.t) (volume : Volume.t) (rest : list Volume.t)
    (s : string) :
  get_client E "ec2" region w = (Ok ec2, w1) ->
  aws E (history w1) (Call ec2 (Op.describe_volumes (Some [volume_id])))
    = Ok response ->
  DescribeVolumes.Volumes response = Some (volume :: rest) ->
  Volume.State volume = Some s ->
  let read := Call ec2 (Op.describe_volumes (Some [volume_id])) in
  let delete := Call ec2 (Op.delete_volume volume_id) in
  let run := delete_ebs_volume E volume_id region w in
  (s <> "available" ->
   fst run = Ok (failed_result volume_id (Some "EBS_Volume") "delete"
                   ("Volume is in " +:+ s +:+ " state. Must be available to delete.")
                   (Some ("Volume state: " +:+ s))) /\
   history (snd run) = history w1 ++ [read]) /\
  (s = "available" ->
   history (snd run) = history w1 ++ [read; delete] /\
   forall result, fst run = Ok result ->
     (success result = true <->
      exists answer, aws E (history w1 ++ [read]) delete = Ok answer)).
Proof.
  intros Hc Ha Hl Hs read delete run. subst run read delete.
  destruct (delete_ebs_volume E volume_id region w) as [r w'] eqn:Hrun.
  cbn [fst snd]. revert Hrun.
  unfold delete_ebs_volume, try_except.
  rewrite (bind_Ok _ _ _ _ _ Hc).
  unfold bind at 1, call at 1, request_ at 1. rewrite Ha. cbv beta iota.
  rewrite Hl. unfold bind at 1, getitem at 1, ret at 1. cbv beta iota.
  rewrite Hs. unfold bind at 1, getitem at 1, ret at 1. cbv beta iota.
  destruct (String.eqb_spec s "available") as [->|Hne]; cbn [negb].
  - unfold bind, call, request_, ret. cbn [history].
    destruct (aws E _ (Call ec2 (Op.delete_volume volume_id))) as [a|e] eqn:Hd.
    + intros [= <- <-]. split; [done|]. intros _. simpl.
      rewrite <- app_assoc. split; [done|].
      intros result [= <-]. simpl. split; [eauto|done].
    + destruct (is_ClientError e); intros [= <- <-]; (split; [done|]);
        intros _; simpl; rewrite <- app_assoc; (split; [done|]).
      * intros result [= <-]. simpl. split; [done|]. intros [? [=]].
      * intros result [=].
  - unfold ret. intros [= <- <-]. split; [|done]. intros _. done.
Qed.

Lemma delete_ebs_volume_needs_available_witness :
  fst (delete_ebs_volume (one_volume_env "in-use") (Some "vol-1")
         (Some "eu-west-1") fresh_world)
  = Ok (failed_result (Some "vol-1") (Some "EBS_Volume") "delete"
          "Volume is in in-use state. Must be available to delete."
          (Some "Volume state: in-use")).
Proof.
  destruct (delete_ebs_volume_needs_available (one_volume_env "in-use")
              (Some "vol-1") (Some "eu-west-1") fresh_world
              (snd (get_client (one_volume_env "in-use") "ec2" (Some "eu-west-1")
                      fresh_world))
              (mkClient "ec2" "eu-west-1")
              (DescribeVolumes.mk (Some [example_volume "vol-1" "in-use"]))
              (example_volume "vol-1" "in-use") [] "in-use") as [H _].
  - vm_compute. reflexivity.
  - vm_compute. reflexivity.
  - reflexivity.
  - reflexivity.
  - destruct H as [H _]; [discriminate | exact H].
Defined.

(** X22. [delete_s3_bucket], called with the bucket name: when the listing
    shows that the bucket has contents, it returns a failure after reads
    only; when the listing itself fails with a [ClientError], the error is
    dropped and the delete request is made all the same. *)
Theorem delete_s3_bucket_checks_contents (E : Env) (bucket_name : option string)
    (w w1 : world) (s3 : client) :
  get_client E "s3" (Some "us-east-1") w = (Ok s3, w1) ->
  let listing := Call s3 (Op.list_objects_v2 bucket_name) in
  let delete := Call s3 (Op.delete_bucket bucket_name) in
  let run := delete_s3_bucket E bucket_name w in
  (forall response,
     aws E (history w1) listing = Ok response ->
     ListObjectsV2.has_Contents response = true ->
     fst run = Ok (failed_result bucket_name (Some "S3_Bucket") "delete"
                     "Bucket is not empty. All objects must be deleted first."
                     None) /\
     history (snd run) = history w1 ++ [listing]) /\
  (forall msg,
     aws E (history w1) listing = Raise (ClientError msg) ->
     history (snd run) = history w1 ++ [listing; delete] /\
     forall answer, aws E (history w1 ++ [listing]) delete = Ok answer ->
       fst run = Ok (verified_result bucket_name "S3_Bucket" "delete"
                       "S3 bucket deleted successfully")).
Proof.
  intros Hc listing delete run. subst run listing delete.
  destruct (delete_s3_bucket E bucket_name w) as [r w'] eqn:Hrun.
  cbn [fst snd]. revert Hrun.
  unfold delete_s3_bucket. unfold try_except at 1.
  rewrite (bind_Ok _ _ _ _ _ Hc).
  unfold bind at 1, try_except at 1, bind at 1, call at 1, request_ at 1.
  destruct (aws E (history w1) (Call s3 (Op.list_objects_v2 bucket_name)))
    as [response|e] eqn:Ha; cbv beta iota.
  - destruct (ListObjectsV2.has_Contents response) eqn:Hcont.
    + unfold ret. intros [= <- <-]. split; [|intros ? [=]].
      intros ? [= <-] _. done.
    + intros _. split; [|intros ? [=]]. intros ? [= <-]. congruence.
  - intros Hrun. split; [intros ? [=]|]. intros msg [= ->]. revert Hrun.
    cbn [is_ClientError ret].
    unfold bind, call, request_, ret. cbn [history].
    destruct (aws E _ (Call s3 (Op.delete_bucket bucket_name))) as [a|e] eqn:Hd.
    + intros [= <- <-]. simpl. rewrite <- app_assoc. split; [done|]. done.
    + destruct (is_ClientError e); intros [= <- <-]; simpl;
        rewrite <- app_assoc; (split; [done|]); intros ? [=].
Qed.

Lemma delete_s3_bucket_checks_contents_witness :
  history (snd (delete_s3_bucket denied_env (Some "logs") fresh_world))
  = history (snd (get_client denied_env "s3" (Some "us-east-1") fresh_world))
    ++ [ Call (mkClient "s3" "us-east-1") (Op.list_objects_v2 (Some "logs"));
         Call (mkClient "s3" "us-east-1") (Op.delete_bucket (Some "logs")) ].
Proof.
  destruct (delete_s3_bucket_checks_contents denied_env (Some "logs") fresh_world
              (snd (get_client denied_env "s3" (Some "us-east-1") fresh_world))
              (mkClient "s3" "us-east-1")) as [_ H].
  - vm_compute. reflexivity.
  - destruct (H "AccessDenied") as [H1 _].
    + vm_compute. reflexivity.
    + exact H1.
Defined.
(** * Further properties: authentication *)

Section Split_facts.

Context (sep : ascii).

Lemma split_no_sep s : has_char sep s = false -> split sep s = [s].
Proof.
  induction s as [|c s IH]; simpl; [done|].
  destruct (Ascii.eqb c sep); simpl; [done|].
  intros H. by rewrite (IH H).
Qed.

Lemma split_app_sep x rest :
  has_char sep x = false ->
  split sep (x +:+ String sep rest) = x :: split sep rest.
Proof.
  induction x as [|c x IH]; simpl.
  - by rewrite Ascii.eqb_refl.
  - destruct (Ascii.eqb c sep); simpl; [done|].
    intros H. by rewrite (IH H).
Qed.

(** splitting what [sep.join] made of pieces without the separator *)
Lemma split_concat pieces :
  pieces <> [] -> Forall (fun p => has_char sep p = false) pieces ->
  split sep (String.concat (String sep EmptyString) pieces) = pieces.
Proof.
  induction pieces as [|p pieces IH]; [done|].
  intros _ Hall. apply list.Forall_cons in Hall as [Hp Hall].
  destruct pieces as [|q pieces].
  - simpl. by apply split_no_sep.
  - change (String.concat (String sep EmptyString) (p :: q :: pieces))
      with (p +:+ String sep (String.concat (String sep EmptyString) (q :: pieces))).
    rewrite (split_app_sep _ _ Hp). f_equal. by apply IH.
Qed.

(** no piece holds the separator *)
Lemma split_pieces s : Forall (fun p => has_char sep p = false) (split sep s).
Proof.
  induction s as [|c s IH]; simpl.
  - by repeat constructor.
  - destruct (Ascii.eqb c sep) eqn:Hc.
    + by constructor.
    + destruct (split sep s) as [|p ps]; simpl.
      * repeat constructor. simpl. by rewrite Hc.
      * apply list.Forall_cons in IH as [Hp Hps]. constructor; [|done].
        simpl. by rewrite Hc.
Qed.

End Split_facts.

(** X23. [validate_api_key] accepts a key exactly when it is one of the
    comma-separated keys of VALID_API_KEYS: when the variable is the join of
    a non-empty list of keys without commas, the keys accepted are those of
    the list; and whatever the variable holds, a key that contains a comma
    is not accepted. *)
Theorem validate_api_key_accepts_configured (environ : Environ)
    (keys : list string) (api_key : string) :
  (keys <> [] ->
   Forall (fun k => has_char "," k = false) keys ->
   VALID_API_KEYS environ = Some (String.concat "," keys) ->
   (validate_api_key environ api_key = true <-> api_key ∈ keys)) /\
  (has_char "," api_key = true -> validate_api_key environ api_key = false).
Proof.
  unfold validate_api_key. split.
  - intros Hne Hall ->. simpl. rewrite (split_concat _ _ Hne Hall).
    apply bool_decide_eq_true.
  - intros Hc. apply bool_decide_eq_false. intros Hin.
    pose proof (split_pieces "," (default EmptyString (VALID_API_KEYS environ))) as H.
    rewrite Forall_forall in H. apply list_elem_of_In in Hin.
    specialize (H _ Hin). simpl in H. congruence.
Qed.

Lemma validate_api_key_accepts_configured_witness :
  validate_api_key (mkEnviron (Some "alpha,beta") None) "beta" = true <->
  "beta" ∈ ["alpha"; "beta"].
Proof.
  apply (proj1 (validate_api_key_accepts_configured
                  (mkEnviron (Some "alpha,beta") None) ["alpha"; "beta"] "beta")).
  - discriminate.
  - repeat constructor.
  - reflexivity.
Defined.

(** X24. A decorated handler runs in two cases only: the request has an
    Authorization header whose second word is a non-empty token that
    [jwt.decode] accepts; or it has no such token (no header, or an empty
    second word), VALID_API_KEYS is set, and the X-API-Key header is a
    non-empty key among the configured ones. In every other case the
    decorator answers 401 and the handler does not run. *)
Theorem require_api_key_admits {A} (jwt_valid : string -> bool)
    (environ : Environ) (headers : Headers) (f : A) :
  (exists a, require_api_key jwt_valid environ headers f = Proceed a) <->
  (exists auth_header token,
     Authorization headers = Some auth_header /\
     split " " auth_header !! 1 = Some token /\
     token <> EmptyString /\ jwt_valid token = true) \/
  ((Authorization headers = None \/
    exists auth_header,
      Authorization headers = Some auth_header /\
      split " " auth_header !! 1 = Some EmptyString) /\
   exists api_key valid_keys,
     X_API_Key headers = Some api_key /\
     VALID_API_KEYS environ = Some valid_keys /\
     api_key <> EmptyString /\
     api_key ∈ split "," valid_keys).
Proof.
  unfold require_api_key, validate_api_key.
  assert (Hkey : forall (P : Prop),
    P ->
    ((exists a : A,
       (if negb (truthy (X_API_Key headers)) then Rejected401 "Missing authentication"
        else if negb (bool_decide (default EmptyString (X_API_Key headers)
                        ∈ split "," (default EmptyString (VALID_API_KEYS environ))))
             then Rejected401 "Invalid API key" else Proceed f) = Proceed a) <->
     exists api_key valid_keys,
       X_API_Key headers = Some api_key /\
       VALID_API_KEYS environ = Some valid_keys /\
       api_key <> EmptyString /\ api_key ∈ split "," valid_keys)).
  { intros P _. destruct (X_API_Key headers) as [k|]; simpl.
    2:{ split; [intros [? [=]] | intros (? & ? & [=] & _)]. }
    destruct (String.eqb_spec k EmptyString) as [->|Hk]; simpl.
    { split; [intros [? [=]] | intros (? & ? & [= <-] & _ & ? & _); done]. }
    case_bool_decide as Hin; simpl.
    - split; [intros _ | eauto].
      destruct (VALID_API_KEYS environ) as [ks|]; simpl in Hin.
      + eauto 10.
      + apply list_elem_of_singleton in Hin. done.
    - split; [intros [? [=]]|]. intros (? & ks & [= <-] & Hv & _ & Hin').
      rewrite Hv in Hin. done. }
  destruct (Authorization headers) as [auth|].
  - destruct (split " " auth !! 1) as [token|] eqn:Ht.
    + destruct (String.eqb_spec token EmptyString) as [->|Hne].
      * simpl. rewrite (Hkey True I). split.
        -- intros H. right. split; [right; eauto|done].
        -- intros [(? & ? & [= <-] & H & ? & _) | [_ H]]; [|done].
           rewrite Ht in H. by inversion H; subst.
      * assert (Htr : truthy (Some token) = true).
        { simpl. by destruct (String.eqb_spec token EmptyString). }
        rewrite Htr. simpl. destruct (jwt_valid token) eqn:Hj.
        -- split; [intros _; left; eauto 10 | eauto].
        -- split; [intros [? [=]]|].
           intros [(? & ? & [= <-] & H & ? & Hj') | [[[=] | (? & [= <-] & H)] _]].
           ++ rewrite Ht in H. inversion H; subst. congruence.
           ++ rewrite Ht in H. by inversion H.
    + split; [intros [? [=]]|].
      intros [(? & ? & [= <-] & H & _) | [[[=] | (? & [= <-] & H)] _]];
        rewrite Ht in H; discriminate.
  - simpl. rewrite (Hkey True I). split.
    + intros H. right. split; [by left | done].
    + intros [(? & ? & [=] & _) | [_ H]]; done.
Qed.
(** * Further properties: filtering *)

Section Comprehension_facts.

Context {S A : Type}.

(** a comprehension whose condition returns is a filter *)
Lemma comprehension_filter (p : A -> bool) (cond : A -> M S bool) l s :
  (forall r s, cond r s = (Ok (p r), s)) ->
  comprehension cond l s = (Ok (filter (fun r => p r = true) l), s).
Proof.
  intros Hc. induction l as [|r l IH]; [done|]. simpl.
  rewrite (bind_Ok _ _ _ _ _ (Hc r s)), (bind_Ok _ _ _ _ _ IH).
  unfold ret. rewrite filter_cons.
  destruct (p r); case_decide; congruence.
Qed.

(** a comprehension whose condition raises does so on the first element *)
Lemma comprehension_raise (cond : A -> M S bool) e l s :
  (forall r s, cond r s = (Raise e, s)) ->
  comprehension cond l s
  = match l with [] => (Ok [], s) | _ :: _ => (Raise e, s) end.
Proof.
  intros Hc. destruct l as [|r l]; [done|]. simpl.
  by rewrite (bind_Raise _ _ _ _ _ (Hc r s)).
Qed.

End Comprehension_facts.

Section Filter_facts.

Context (field : ResourceMetadata -> string) (key : string).

(** one comprehension, applied when its key is among the filters of an
    object *)
Lemma stage_object {B} (members : gmap string json) (l : list ResourceMetadata)
    (k : list ResourceMetadata -> M unit B) :
  (given <- has_key (JObj members) key ;;
   filtered <-
     (if given : bool
      then comprehension
             (fun r => v <- subscript (JObj members) key ;;
                       ret (str_eq (field r) v)) l
      else ret l) ;;
   k filtered) tt
  = k match members !! key with
      | Some v => filter (fun r => str_eq (field r) v = true) l
      | None => l
      end tt.
Proof.
  unfold has_key. unfold bind at 1, ret at 1. cbv beta iota.
  destruct (members !! key) as [v|] eqn:Hk.
  - rewrite bool_decide_eq_true_2 by eauto.
    apply bind_Ok.
    apply (comprehension_filter (fun r => str_eq (field r) v)).
    intros r s. unfold subscript, bind, ret. by rewrite Hk.
  - rewrite bool_decide_eq_false_2 by (by intros [? ?]).
    reflexivity.
Qed.

(** the same comprehension when the filters are a string or a list: it
    leaves the resources as they are, or raises *)
Lemma stage_other {B} (filters : json) (l : list ResourceMetadata)
    (k : list ResourceMetadata -> M unit B) :
  ~ is_object filters ->
  (exists e,
     (given <- has_key filters key ;;
      filtered <-
        (if given : bool
         then comprehension
                (fun r => v <- subscript filters key ;;
                          ret (str_eq (field r) v)) l
         else ret l) ;;
      k filtered) tt = (Raise e, tt)) \/
  (given <- has_key filters key ;;
   filtered <-
     (if given : bool
      then comprehension
             (fun r => v <- subscript filters key ;;
                       ret (str_eq (field r) v)) l
      else ret l) ;;
   k filtered) tt = k l tt.
Proof.
  intros Hn.
  destruct filters as [|b|n|f|s|items|members];
    try (left; eexists; reflexivity); [| |destruct Hn; by eexists].
  all: unfold has_key; unfold bind at 1, ret at 1; cbv beta iota.
  all: match goal with |- context [if ?g then _ else _] => destruct g end;
       [|by right].
  all: unfold bind at 1.
  all: erewrite comprehension_raise by (intros ? ?; reflexivity).
  all: destruct l; [by right | left; eexists; reflexivity].
Qed.

Lemma filter_stage (o : option json) (l : list ResourceMetadata) :
  match o with
  | Some v => filter (fun r => str_eq (field r) v = true) l
  | None => l
  end `sublist_of` l /\
  forall r,
    r ∈ match o with
        | Some v => filter (fun r => str_eq (field r) v = true) l
        | None => l
        end
    <-> r ∈ l /\ forall v, o = Some v -> str_eq (field r) v = true.
Proof.
  destruct o as [v|].
  - split; [apply sublist_filter|]. intros r. rewrite list_elem_of_filter.
    split.
    + intros [? ?]. split; [done|]. by intros ? [= <-].
    + intros [? Hq]. split; [by apply Hq | done].
  - split; [done|]. intros r. split; [|by intros [? _]].
    intros ?. split; [done|]. intros ? [=].
Qed.

Lemma filter_all (Q : ResourceMetadata -> Prop) `{!forall r, Decision (Q r)}
    (l : list ResourceMetadata) :
  (forall r, r ∈ l -> Q r) -> filter Q l = l.
Proof.
  induction l as [|x l IH]; [done|]. intros Hq.
  rewrite filter_cons_True by (apply Hq; left).
  f_equal. apply IH. intros r Hr. apply Hq. by right.
Qed.

Lemma filter_stage_id (o : option json) (l : list ResourceMetadata) :
  (forall r, r ∈ l -> forall v, o = Some v -> str_eq (field r) v = true) ->
  match o with
  | Some v => filter (fun r => str_eq (field r) v = true) l
  | None => l
  end = l.
Proof.
  destruct o as [v|]; [|done]. intros Hq. apply filter_all.
  intros r Hr. by apply (Hq r Hr).
Qed.

End Filter_facts.

(** what the three filters on the fields leave of a list *)
Lemma fields_stage (members : gmap string json) (l : list ResourceMetadata) :
  exists l3,
    l3 `sublist_of` l /\
    (forall r, r ∈ l3 <-> r ∈ l /\ passes_fields members r) /\
    ((forall r, r ∈ l -> passes_fields members r) -> l3 = l) /\
    forall B (k : list ResourceMetadata -> M unit B),
      (given <- has_key (JObj members) "resource_type" ;;
       filtered <-
         (if given : bool
          then comprehension
                 (fun r => v <- subscript (JObj members) "resource_type" ;;
                           ret (str_eq (resource_type r) v)) l
          else ret l) ;;
       given <- has_key (JObj members) "region" ;;
       filtered <-
         (if given : bool
          then comprehension
                 (fun r => v <- subscript (JObj members) "region" ;;
                           ret (str_eq (region r) v)) filtered
          else ret filtered) ;;
       given <- has_key (JObj members) "state" ;;
       filtered <-
         (if given : bool
          then comprehension
                 (fun r => v <- subscript (JObj members) "state" ;;
                           ret (str_eq (state r) v)) filtered
          else ret filtered) ;;
       k filtered) tt = k l3 tt.
Proof.
  destruct (filter_stage resource_type (members !! "resource_type") l) as [S1 E1].
  set (l1 := match members !! "resource_type" with
             | Some v => filter (fun r => str_eq (resource_type r) v = true) l
             | None => l end) in *.
  destruct (filter_stage region (members !! "region") l1) as [S2 E2].
  set (l2 := match members !! "region" with
             | Some v => filter (fun r => str_eq (region r) v = true) l1
             | None => l1 end) in *.
  destruct (filter_stage state (members !! "state") l2) as [S3 E3].
  set (l3 := match members !! "state" with
             | Some v => filter (fun r => str_eq (state r) v = true) l2
             | None => l2 end) in *.
  exists l3. split; [by etrans; [|etrans]|]. split; [|split].
  - intros r. rewrite E3, E2, E1. unfold passes_fields. tauto.
  - intros Hall. subst l3 l2 l1.
    rewrite (filter_stage_id resource_type (members !! "resource_type") l)
      by (intros r Hr; apply (Hall r Hr)).
    rewrite (filter_stage_id region (members !! "region") l)
      by (intros r Hr; apply (Hall r Hr)).
    apply (filter_stage_id state (members !! "state") l).
    intros r Hr; apply (Hall r Hr).
  - intros B k.
    rewrite (stage_object resource_type "resource_type").
    rewrite (stage_object region "region").
    rewrite (stage_object state "state").
    reflexivity.
Qed.

(** the filter on the tags, after the others *)
Lemma tags_stage (members : gmap string json) (l3 : list ResourceMetadata) :
  (given <- has_key (JObj members) "tags" ;;
   filtered <-
     (if given : bool
      then tag_filters <- subscript (JObj members) "tags" ;;
           comprehension
             (fun r => tag_filters <- items tag_filters ;;
                       ret (bool_decide (tags_match tag_filters r))) l3
      else ret l3) ;;
   ret (Filter200 (length filtered) filtered)) tt
  = match members !! "tags" with
    | None => (Ok (Filter200 (length l3) l3), tt)
    | Some (JObj tag_filters) =>
        (Ok (Filter200 (length (filter (tags_match tag_filters) l3))
               (filter (tags_match tag_filters) l3)), tt)
    | Some v =>
        match l3 with
        | [] => (Ok (Filter200 0 []), tt)
        | _ :: _ => (Raise (no_attribute v "items"), tt)
        end
    end.
Proof.
  unfold has_key. unfold bind at 1, ret at 1. cbv beta iota.
  destruct (members !! "tags") as [v|] eqn:Hk.
  2:{ rewrite bool_decide_eq_false_2 by (by intros [? ?]). reflexivity. }
  rewrite bool_decide_eq_true_2 by eauto.
  unfold bind at 1, bind at 1, subscript at 1. rewrite Hk.
  unfold ret at 1. cbv beta iota.
  destruct v as [|b|n|f|s|l|tag_filters].
  7:{ rewrite (comprehension_filter
                 (fun r => bool_decide (tags_match tag_filters r)))
        by reflexivity.
      cbv beta iota. unfold ret.
      assert (filter (fun r => bool_decide (tags_match tag_filters r) = true) l3
              = filter (tags_match tag_filters) l3) as ->; [|done].
      apply list_filter_iff. intros r. by rewrite bool_decide_eq_true. }
  all: erewrite comprehension_raise by (intros ? ?; reflexivity).
  all: by destruct l3.
Qed.

(** the answer to a request whose filters are an object *)
Lemma filter_resources_object (data : FilterRequest) (members : gmap string json) :
  default (JObj ∅) (fr_filters data) = JObj members ->
  exists l3,
    l3 `sublist_of` fr_resources data /\
    (forall r, r ∈ l3 <-> r ∈ fr_resources data /\ passes_fields members r) /\
    ((forall r, r ∈ fr_resources data -> passes_fields members r) ->
     l3 = fr_resources data) /\
    filter_resources (Data data)
    = match members !! "tags" with
      | None => Filter200 (length l3) l3
      | Some (JObj tag_filters) =>
          Filter200 (length (filter (tags_match tag_filters) l3))
            (filter (tags_match tag_filters) l3)
      | Some _ =>
          match l3 with
          | [] => Filter200 0 []
          | _ :: _ => Filter500 "Failed to filter resources"
          end
      end.
Proof.
  intros Hf.
  destruct (fields_stage members (fr_resources data)) as (l3 & S & Ein & Hid & Hk).
  exists l3. split; [done|]. split; [done|]. split; [done|].
  unfold filter_resources. cbv zeta. rewrite Hf, Hk, tags_stage.
  destruct (members !! "tags") as [[| | | | | |]|]; try done; by destruct l3.
Qed.

(** the answer to a request whose filters are no object *)
Lemma filter_resources_other (data : FilterRequest) (v : json) :
  fr_filters data = Some v -> ~ is_object v ->
  filter_resources (Data data) = Filter500 "Failed to filter resources" \/
  (filter_resources (Data data)
   = Filter200 (length (fr_resources data)) (fr_resources data) /\
   ((exists s, v = JStr s) \/ (exists items, v = JArr items))).
Proof.
  intros Hf Hn. unfold filter_resources. cbv zeta.
  rewrite Hf. cbn [default from_option]. unfold id.
  edestruct (stage_other (B:=FilterResponse) resource_type "resource_type" v (fr_resources data))
    as [[e He]|He]; [exact Hn | rewrite He; by left | rewrite He; clear He].
  edestruct (stage_other (B:=FilterResponse) region "region" v (fr_resources data))
    as [[e He]|He]; [exact Hn | rewrite He; by left | rewrite He; clear He].
  edestruct (stage_other (B:=FilterResponse) state "state" v (fr_resources data))
    as [[e He]|He]; [exact Hn | rewrite He; by left | rewrite He; clear He].
  destruct v as [|b|n|f|s|items|members]; try (by left);
    [| |destruct Hn; by eexists].
  all: unfold has_key; unfold bind at 1, ret at 1; cbv beta iota.
  all: match goal with |- context [if ?g then _ else _] => destruct g end;
       [by left|].
  all: right; split; [reflexivity|eauto].
Qed.

(** X25. On resources as the scan endpoint returns them: when the filters
    are an object (or absent), [filter_resources] answers 200 with the
    resources of the request whose fields equal the values given for
    'resource_type', 'region' and 'state' and whose tags have every value of
    the object given for 'tags', in their order in the request and with
    their number as the total, and filtering its answer again gives the
    same answer; a value for 'tags' that is no object is answered 500 if
    some resource passes the other filters, and 200 with no resource
    otherwise. When the filters are a string or a list, the answer is 500 or
    the resources as they are; when they are null, a number or a boolean,
    or the body cannot be read, the answer is 500. *)
Theorem filter_resources_selects (request : Body FilterRequest) :
  (forall data members,
     request = Data data ->
     default (JObj ∅) (fr_filters data) = JObj members ->
     match filter_resources request with
     | Filter200 total filtered =>
         total = length filtered /\
         filtered `sublist_of` fr_resources data /\
         (forall r, r ∈ filtered <-> r ∈ fr_resources data /\ passes members r) /\
         (forall v, members !! "tags" = Some v -> ~ is_object v -> filtered = []) /\
         filter_resources (Data (mkFilterRequest filtered (fr_filters data)))
           = Filter200 total filtered
     | Filter500 error =>
         error = "Failed to filter resources" /\
         (exists v, members !! "tags" = Some v /\ ~ is_object v) /\
         exists r, r ∈ fr_resources data /\ passes_fields members r
     end) /\
  (forall data v,
     request = Data data -> fr_filters data = Some v -> ~ is_object v ->
     match filter_resources request with
     | Filter200 total filtered =>
         filtered = fr_resources data /\ total = length filtered /\
         ((exists s, v = JStr s) \/ (exists items, v = JArr items))
     | Filter500 error => error = "Failed to filter resources"
     end) /\
  (forall data v,
     request = Data data -> fr_filters data = Some v -> ~ is_object v ->
     (forall s, v <> JStr s) -> (forall items, v <> JArr items) ->
     filter_resources request = Filter500 "Failed to filter resources") /\
  (forall text,
     request = Unreadable text ->
     filter_resources request = Filter500 "Failed to filter resources").
Proof.
  destruct request as [text|data0].
  { split; [|split; [|split]];
      [intros ? ? [=] | intros ? ? [=] | intros ? ? [=] | reflexivity]. }
  split; [|split; [|split]]; [ | | | intros ? [=]].
  - intros data members [= <-] Hf.
    destruct (filter_resources_object data0 members Hf)
      as (l3 & S & Ein & _ & ->).
    assert (Hagain : forall l : list ResourceMetadata,
              (forall r, r ∈ l -> r ∈ l3) ->
              filter_resources (Data (mkFilterRequest l (fr_filters data0)))
              = match members !! "tags" with
                | None => Filter200 (length l) l
                | Some (JObj tag_filters) =>
                    Filter200 (length (filter (tags_match tag_filters) l))
                      (filter (tags_match tag_filters) l)
                | Some _ =>
                    match l with
                    | [] => Filter200 0 []
                    | _ :: _ => Filter500 "Failed to filter resources"
                    end
                end).
    { intros l Hl.
      destruct (filter_resources_object (mkFilterRequest l (fr_filters data0))
                  members Hf) as (l' & _ & _ & Hid & ->).
      rewrite Hid; [done|]. intros r Hr. by apply (Ein r), Hl. }
    assert (Hpass : forall r, r ∈ l3 -> r ∈ fr_resources data0 /\
                                        passes_fields members r)
      by (intros r; apply Ein).
    destruct (members !! "tags") as [v|] eqn:Ht.
    2:{ split; [done|]. split; [done|]. split; [|split; [intros ? [=]|]].
        - intros r. rewrite Ein. unfold passes, passes_fields. split.
          + intros (? & ? & ? & ?). repeat split; try done.
            intros ? ?. congruence.
          + intros (? & ? & ? & ? & _). done.
        - by rewrite Hagain. }
    assert (Hother : ~ is_object v ->
      match l3 with
      | [] =>
          0 = @length ResourceMetadata [] /\
          [] `sublist_of` fr_resources data0 /\
          (forall r, r ∈ [] <-> r ∈ fr_resources data0 /\ passes members r) /\
          (forall v0, Some v = Some v0 -> ~ is_object v0 ->
             @nil ResourceMetadata = []) /\
          filter_resources (Data (mkFilterRequest [] (fr_filters data0)))
            = Filter200 0 []
      | _ :: _ =>
          "Failed to filter resources" = "Failed to filter resources" /\
          (exists v0, Some v = Some v0 /\ ~ is_object v0) /\
          exists r, r ∈ fr_resources data0 /\ passes_fields members r
      end).
    { intros Hn. destruct l3 as [|r l3].
      - split; [done|]. split; [apply sublist_nil_l|]. split; [|split; [done|]].
        + intros r. split; [by intros ?%elem_of_nil|].
          intros (Hr & H1 & H2 & H3 & _). apply (Ein r). done.
        + rewrite Hagain by done. by destruct v.
      - split; [done|]. split; [eauto|]. exists r.
        apply Hpass. by left. }
    destruct v as [|b|n|f|s|l|tag_filters];
      try (specialize (Hother ltac:(by intros [? [=]])); destruct l3; exact Hother).
    split; [done|]. split; [by etrans; [apply sublist_filter|]|].
    split; [|split].
    + intros r. rewrite list_elem_of_filter, Ein. unfold passes, passes_fields.
      split.
      * intros [Hm (? & ? & ? & ?)]. repeat split; try done.
        intros ? Hc. rewrite Ht in Hc. by injection Hc as <-.
      * intros (? & ? & ? & ? & Hm). split; [by apply Hm | done].
    + intros ? [= <-] Hn. destruct Hn. by eexists.
    + rewrite Hagain by (intros r; rewrite list_elem_of_filter; tauto).
      rewrite filter_all by (intros r; rewrite list_elem_of_filter; tauto).
      done.
  - intros data v [= <-] Hf Hn.
    destruct (filter_resources_other data0 v Hf Hn) as [->|[-> Hv]]; done.
  - intros data v [= <-] Hf Hn Hs Hl. unfold filter_resources. rewrite Hf.
    destruct v as [|b|n|f|str|entries|members]; try reflexivity.
    + by destruct (Hs str).
    + by destruct (Hl entries).
    + destruct Hn. by eexists.
Qed.

(** the filter on a kind keeps the records of that kind *)
Example filter_by_kind :
  filter_resources (Data kind_filter_request)
  = Filter200 1 (of_kind "EC2_Instance" two_cheap_kinds).
Proof. vm_compute. reflexivity. Qed.

Lemma filter_resources_selects_witness :
  filter_resources (Data null_filter_request)
  = Filter500 "Failed to filter resources".
Proof.
  apply (proj1 (proj2 (proj2 (filter_resources_selects
                                (Data null_filter_request))))
           null_filter_request JNull).
  - reflexivity.
  - reflexivity.
  - by intros [? [=]].
  - discriminate.
  - discriminate.
Defined.
(** * Further properties: the endpoints *)

Section Case_facts.

Lemma ascii_lower_upper_lower c :
  ascii_lower (ascii_upper (ascii_lower c)) = ascii_lower c.
Proof.
  destruct c as [[] [] [] [] [] [] [] []]; reflexivity.
Qed.

Lemma lower_upper_lower s : lower (upper (lower s)) = lower s.
Proof.
  induction s as [|c s IH]; simpl; [done|].
  by rewrite ascii_lower_upper_lower, IH.
Qed.

Lemma ascii_lower_is_ascii c :
  nat_of_ascii c < 128 -> nat_of_ascii (ascii_lower c) < 128.
Proof.
  destruct c as [[] [] [] [] [] [] [] []]; vm_compute; lia.
Qed.

Lemma lower_is_ascii s : is_ascii s -> is_ascii (lower s).
Proof.
  induction s as [|c s IH]; simpl; [done|].
  intros [Hc Hs]. split; [by apply ascii_lower_is_ascii | by apply IH].
Qed.

(** the member looked up by a name *)
Lemma by_name_Ok {S} (name : string) (a : ActionType) (w w' : S) :
  ActionType_by_name name w = (Ok a, w') <-> w' = w /\ name = ActionType_name a.
Proof.
  unfold ActionType_by_name. split.
  - repeat match goal with
    | |- context [String.eqb ?x ?k] =>
        destruct (String.eqb_spec x k) as [Heq|_];
        [ rewrite Heq; by intros [= <- <-] | ]
    end.
    intros [=].
  - intros [-> ->]. by destruct a.
Qed.

Lemma by_name_raises {S} (name : string) (w : S) e w' :
  ActionType_by_name name w = (Raise e, w') -> w' = w /\ e = KeyError name.
Proof.
  unfold ActionType_by_name.
  repeat match goal with
  | |- context [String.eqb ?x ?k] => destruct (String.eqb_spec x k); [intros [=]|]
  end.
  by intros [= <- <-].
Qed.

(** on the ASCII methods the name is the one of an action exactly when the
    string, in lower case, is the value of that action *)
Lemma name_lower (s : string) (a : ActionType) :
  upper (lower s) = ActionType_name a <-> lower s = ActionType_value a.
Proof.
  split.
  - intros Hn. rewrite <- (lower_upper_lower s), Hn. by destruct a.
  - intros ->. by destruct a.
Qed.

End Case_facts.

(** reading the action of an entry leaves the state as it is *)
Lemma parse_action_spec {S} (L : Library) (action_data : gmap string json) (w : S) :
  snd (parse_action L action_data w) = w /\
  forall a,
    fst (parse_action L action_data w) = Ok a <->
    exists s, action_string action_data = Some s /\
              str_upper L (str_lower L s) = ActionType_name a.
Proof.
  assert (Hname : forall s : string,
    snd (ActionType_by_name (S:=S) (str_upper L (str_lower L s)) w) = w /\
    forall a, fst (ActionType_by_name (S:=S) (str_upper L (str_lower L s)) w) = Ok a
              <-> str_upper L (str_lower L s) = ActionType_name a).
  { intros s.
    destruct (ActionType_by_name (str_upper L (str_lower L s)) w) as [[a'|e] w']
      eqn:Hn; cbn [fst snd].
    - apply by_name_Ok in Hn as [-> Hv]. split; [done|]. intros a. split.
      + by intros [= <-].
      + intros Hv'. f_equal. rewrite Hv in Hv'. by destruct a, a'.
    - pose proof (by_name_raises _ _ _ _ Hn) as [-> _]. split; [done|].
      intros a. split; [intros [=]|]. intros Hv'.
      pose proof (proj2 (by_name_Ok _ a w w) (conj eq_refl Hv')) as H.
      rewrite Hn in H. discriminate H. }
  unfold parse_action, action_string.
  destruct (action_data !! "action") as [v|] eqn:Hs.
  - destruct v as [|b|n|f|s|l|m];
      try (cbn; split; [done|]; intros a;
           split; [intros [=] | intros (? & [=] & _)]).
    unfold bind at 1 2, ret at 1 2. cbv beta iota.
    destruct (Hname s) as [H1 H2]. split; [exact H1|]. intros a.
    rewrite H2. split; [eauto | by intros (? & [= <-] & ?)].
  - unfold bind at 1 2, ret at 1 2. cbv beta iota.
    destruct (Hname EmptyString) as [H1 H2]. split; [exact H1|]. intros a.
    rewrite H2. split; [eauto | by intros (? & [= <-] & ?)].
Qed.

(** X26. The action of an entry is the member of [ActionType] named by the
    string under 'action' (the empty string when the key is absent) put in
    lower and then in upper case; a value under 'action' that is no string
    names none; reading the action leaves the state as it is. For a string
    of ASCII characters, on which [lower()] and [upper()] change the ASCII
    letters only, the action is read without regard to case: it is read as
    an action exactly when the string, in lower case, is the value of that
    action ('stop', 'delete' or 'terminate'). *)
Theorem parse_action_reads_values {S} (L : Library)
    (action_data : gmap string json) (a : ActionType) (w : S) :
  snd (parse_action L action_data w) = w /\
  (fst (parse_action L action_data w) = Ok a <->
   exists s, action_string action_data = Some s /\
             str_upper L (str_lower L s) = ActionType_name a) /\
  (ascii_cases L ->
   forall s, action_data !! "action" = Some (JStr s) -> is_ascii s ->
     (fst (parse_action L action_data w) = Ok a <->
      lower s = ActionType_value a)).
Proof.
  destruct (parse_action_spec L action_data w) as [H1 H2].
  split; [exact H1|]. split; [apply H2|].
  intros HL s Hs Ha. rewrite H2. unfold action_string. rewrite Hs.
  destruct (HL s Ha) as [Hl _].
  destruct (HL (lower s) (lower_is_ascii s Ha)) as [_ Hu].
  split.
  - intros (s' & [= <-] & Hn). rewrite Hl, Hu in Hn. by apply name_lower.
  - intros Hv. exists s. split; [done|]. rewrite Hl, Hu. by apply name_lower.
Qed.

Lemma parse_action_reads_values_witness :
  fst (parse_action ascii_library (stop_fields (Some "i-0abc")) fresh_world)
    = Ok STOP
  <-> lower "stop" = ActionType_value STOP.
Proof.
  apply (proj2 (proj2 (parse_action_reads_values ascii_library
                         (stop_fields (Some "i-0abc")) STOP fresh_world))).
  - intros s _. split; reflexivity.
  - reflexivity.
  - vm_compute. repeat split; lia.
Defined.

(** a name in another alphabet: with a library that lowers the letter
    U+017F to [s], as Python does, the entry is read as [STOP] although
    its string, with its ASCII letters lowered, is not 'stop' *)
Example parse_action_beyond_ascii :
  let long_s := String "197" (String "191" "top") in
  let L := mkLibrary lower
             (fun s => if String.eqb s long_s then "STOP" else upper s)
             (repr ascii_library) (execute_action_untyped ascii_library) in
  fst (parse_action L {[ "action" := JStr long_s ]} fresh_world) = Ok STOP /\
  lower long_s <> "stop".
Proof. split; [vm_compute; reflexivity | discriminate]. Qed.

Section Endpoint_facts.

Context (E : Env) (environ : Environ).

(** the credentials of a request are there, or the request is refused; the
    world is left as it is *)
Lemma extract_credentials_cases req w :
  (exists a s,
     extract_credentials_from_request req w = (Ok (a, s), w) /\
     AWSSessionManager_init (heap w) a s "us-east-1"
       = Ok (session (bulk_world w a s))) \/
  extract_credentials_from_request req w
    = (Raise (ValueError "AWS credentials missing from request"), w).
Proof.
  destruct (extract_credentials_from_request req w) as [[[a s]|e] w'] eqn:Hx.
  - destruct (extract_credentials_truthy _ _ _ _ _ Hx) as [-> Hi]. left. eauto.
  - right. revert Hx.
    unfold extract_credentials_from_request, bind, get_state.
    destruct (or_ _ _ _) as [a'|]; [|by intros [= <- <-]].
    destruct (or_ _ _ _) as [s'|]; [|by intros [= <- <-]].
    destruct (negb _ || negb _); [by intros [= <- <-] | intros [=]].
Qed.

Lemma new_session_bulk_world w a s :
  AWSSessionManager_init (heap w) a s "us-east-1" = Ok (session (bulk_world w a s)) ->
  new_session (a, s) w = (Ok tt, bulk_world w a s).
Proof.
  intros Hi. unfold new_session, bind, get_state, of_res, modify. simpl.
  rewrite Hi. reflexivity.
Qed.

Lemma cleanup_cleaned w :
  cleanup w = (Ok tt, snd (cleanup w)) /\
  heap (snd (cleanup w)) = heap w /\
  history (snd (cleanup w)) = history w /\
  cleaned (session (snd (cleanup w))).
Proof. repeat split. Qed.

Lemma str_or_none_inv v o : str_or_none v = Some o -> of_str_or_none o = v.
Proof. destruct v; intros [= <-]; reflexivity. Qed.

(** on a resource id, a resource type and a region that are strings or
    null, the executor is the one of [resource_manager.py] *)
Lemma execute_action_json_typed L data action :
  typed_fields data ->
  exists resource_type resource_id region,
    of_str_or_none resource_type = obj_get data "resource_type" /\
    of_str_or_none resource_id = obj_get data "resource_id" /\
    execute_action_json E L (obj_get data "resource_type")
      (obj_get data "resource_id") (obj_get data "region") action
    = (result <- execute_action E resource_type resource_id region action ;;
       ret (outcome_of result)).
Proof.
  intros Ht. unfold execute_action_json.
  destruct (Ht "resource_id") as [i Hi]; [set_solver|].
  destruct (Ht "resource_type") as [t Hty]; [set_solver|].
  destruct (Ht "region") as [r Hr]; [set_solver|].
  rewrite Hi, Hty, Hr. exists t, i, r.
  split; [by apply str_or_none_inv|]. split; [by apply str_or_none_inv|].
  reflexivity.
Qed.

(** a run of [perform_resource_action] on a body that is read: a refusal
    that leaves the world as it is, or a run of the executor in a new
    session, followed by the teardown of that session if the executor
    returns *)
Lemma resource_action_cases L req w response w' :
  perform_resource_action E environ L (Data req) w = (response, w') ->
  (w' = w /\
   exists status error details,
     response = ActionError status error details /\
     (status = 400 \/
      (status = 500 /\ action_string (ar_data req) = None /\
       is_Ok (fst (extract_credentials_from_request (ar_credentials req) w))
         = true))) \/
  (exists a s action,
     fst (parse_action L (ar_data req) w) = Ok action /\
     json_truthy (obj_get (ar_data req) "resource_id") = true /\
     json_truthy (obj_get (ar_data req) "resource_type") = true /\
     json_truthy (obj_get (ar_data req) "region") = true /\
     match execute_action_json E L (obj_get (ar_data req) "resource_type")
             (obj_get (ar_data req) "resource_id")
             (obj_get (ar_data req) "region") action (bulk_world w a s) with
     | (Ok result, w1) =>
         response = ActionResult (if ao_success result then 200 else 400) result /\
         w' = snd (cleanup w1)
     | (Raise e, w1) =>
         w' = w1 /\
         exists status error details,
           response = ActionError status error details /\
           (status = 400 \/ status = 500)
     end).
Proof.
  unfold perform_resource_action.
  destruct (extract_credentials_cases (ar_credentials req) w)
    as [(a & s & Hx & Hi) | Hx].
  2:{ rewrite (bind_Raise _ _ _ _ _ Hx). simpl. intros [= <- <-]. left.
      split; [done|]. eexists _, _, _. split; [reflexivity|]. by left. }
  rewrite (bind_Ok _ _ _ _ _ Hx).
  unfold parse_action, action_string.
  destruct (ar_data req !! "action") as [v|] eqn:Hact;
    [destruct v as [|b|n|f|str|l|m]|].
  all: try (simpl; intros [= <- <-]; left; split; [done|];
            eexists _, _, _; split; [reflexivity|]; right; by rewrite Hx).
  all: unfold bind at 1, ret at 1; cbv beta iota.
  all: match goal with |- context [negb ?b] => destruct b eqn:Hall end;
       cbn [negb].
  all: try (simpl; intros [= <- <-]; left; split; [done|];
            eexists _, _, _; split; [reflexivity|]; by left).
  all: apply andb_prop in Hall as [Hall _];
       apply andb_prop in Hall as [Hall Hreg];
       apply andb_prop in Hall as [Hid Hty].
  all: unfold bind at 1, try_except at 1, bind at 1.
  all: match goal with |- context [ActionType_by_name ?n ?w1] =>
         destruct (ActionType_by_name n w1) as [[action|e] w0] eqn:Hn
       end.
  all: try (pose proof (by_name_raises _ _ _ _ Hn) as [-> ->];
            simpl; intros [= <- <-]; left; split; [done|];
            eexists _, _, _; split; [reflexivity|]; by left).
  all: pose proof (proj1 (by_name_Ok _ _ _ _) Hn) as [-> _].
  all: unfold ret at 1; cbv beta iota.
  all: rewrite (bind_Ok _ _ _ _ _ (new_session_bulk_world _ _ _ Hi)).
  all: intros Hrun; right; exists a, s, action.
  all: split; [unfold bind at 1, ret at 1; cbv beta iota; by rewrite Hn|].
  all: repeat (split; [done|]).
  all: revert Hrun; unfold bind at 1.
  all: destruct (execute_action_json _ _ _ _ _ _ _) as [[result|e] w1].
  all: try (intros [= <- <-]; split; reflexivity).
  all: destruct (is_ValueError e); intros [= <- <-]; split; try done.
  all: eexists _, _, _; split; [reflexivity|]; auto.
Qed.

(** the executor on typed fields returns, and asks the provider to change
    at most one resource *)
Lemma execute_action_json_requests L data action w :
  typed_fields data ->
  exists result w1 new,
    execute_action_json E L (obj_get data "resource_type")
      (obj_get data "resource_id") (obj_get data "region") action w
    = (Ok result, w1) /\
    ao_resource_id result = obj_get data "resource_id" /\
    ao_resource_type result = obj_get data "resource_type" /\
    ao_action result = ActionType_value action /\
    history w1 = history w ++ new /\ heap w1 = heap w /\
    length (mutations new) <= 1 /\
    (ao_success result = true -> length (mutations new) = 1).
Proof.
  intros Ht.
  destruct (execute_action_json_typed L data action Ht)
    as (t & i & r & Hty & Hid & ->).
  destruct (execute_action_returns E t i r action w) as (result & w1 & Hex & Hans).
  destruct (execute_action_requests E _ _ _ _ _ _ _ Hex) as (new & Hh & Hp & D).
  exists (outcome_of result), w1, new.
  rewrite (bind_Ok _ _ _ _ _ Hex).
  destruct Hans as (Hi & Hti & Ha & _). simpl.
  rewrite Hi, Hti, Ha.
  repeat (split; [done|]).
  destruct D as [[-> Hf]|(f & c & _ & ->)]; simpl.
  - split; [lia|]. intros Hs. rewrite (Hf _ eq_refl) in Hs. discriminate.
  - split; [lia|done].
Qed.

End Endpoint_facts.

(** X27. When [perform_resource_action] answers with an outcome, its status
    is 200 for a success and 400 for a failure, and the session made for the
    request has been torn down. If moreover the resource id, the resource
    type and the region of the request are strings, the outcome carries the
    resource id and the resource type of the request and the value of the
    action read from it, the credential strings are as they were, and the
    provider has received at most one request that changes a resource,
    exactly one if the outcome is a success. *)
Theorem resource_action_outcome (E : Env) (environ : Environ) (L : Library)
    (req : ActionRequest) (w : world) (status : nat) (result : ActionOutcome) :
  fst (perform_resource_action E environ L (Data req) w)
    = ActionResult status result ->
  status = (if ao_success result then 200 else 400) /\
  cleaned (session (snd (perform_resource_action E environ L (Data req) w))) /\
  (typed_fields (ar_data req) ->
   ao_resource_id result = obj_get (ar_data req) "resource_id" /\
   ao_resource_type result = obj_get (ar_data req) "resource_type" /\
   (exists a, fst (parse_action L (ar_data req) w) = Ok a /\
              ao_action result = ActionType_value a) /\
   heap (snd (perform_resource_action E environ L (Data req) w)) = heap w /\
   exists new,
     history (snd (perform_resource_action E environ L (Data req) w))
       = history w ++ new /\
     length (mutations new) <= 1 /\
     (ao_success result = true -> length (mutations new) = 1)).
Proof.
  destruct (perform_resource_action E environ L (Data req) w)
    as [response w'] eqn:Hrun.
  cbn [fst snd]. intros ->.
  destruct (resource_action_cases E environ _ _ _ _ _ Hrun)
    as [(_ & ? & ? & ? & [=] & _)
       |(a & s & act & Hact & _ & _ & _ & Hex)].
  destruct (execute_action_json E L _ _ _ act (bulk_world w a s))
    as [[result'|e] w1] eqn:Hj.
  2:{ destruct Hex as (_ & ? & ? & ? & [=] & _). }
  destruct Hex as [[= -> ->] ->].
  split; [done|]. split; [apply cleanup_cleaned|].
  intros Ht.
  destruct (execute_action_json_requests E L _ act (bulk_world w a s) Ht)
    as (r2 & w2 & new & Hj' & Hid & Hty & Ha & Hh & Hp & Hm1 & Hm2).
  rewrite Hj in Hj'. injection Hj' as <- <-.
  split; [done|]. split; [done|]. split; [eauto|].
  split; [exact Hp|]. exists new. split; [exact Hh|]. done.
Qed.

Lemma resource_action_outcome_witness :
  cleaned (session (snd (perform_resource_action validating_env
                           (mkEnviron None None) ascii_library
                           (Data stop_request) fresh_world))) /\
  exists new,
    history (snd (perform_resource_action validating_env (mkEnviron None None)
                    ascii_library (Data stop_request) fresh_world))
      = history fresh_world ++ new /\
    length (mutations new) <= 1.
Proof.
  destruct (resource_action_outcome validating_env (mkEnviron None None)
              ascii_library stop_request fresh_world 200
              (outcome_of (verified_result (Some "i-0abc") "EC2_Instance" "stop"
                 "Instance stop initiated. Current state: running")))
    as (_ & Hc & Ht).
  - vm_compute. reflexivity.
  - split; [exact Hc|].
    destruct Ht as (_ & _ & _ & _ & new & Hh & Hm & _).
    + intros key Hkey.
      repeat (apply elem_of_cons in Hkey as [->|Hkey];
              [vm_compute; eauto|]).
      by apply elem_of_nil in Hkey.
    + exists new. split; [exact Hh | exact Hm].
Defined.

(** a resource type that is a list: the executor raises when it looks the
    action up, the request is answered 500, and the session made for it is
    not torn down *)
Example resource_action_unhashable_type :
  fst (perform_resource_action validating_env (mkEnviron None None) ascii_library
         (Data list_type_request) fresh_world)
  = ActionError 500 "Internal server error" None /\
  _access_key (session (snd (perform_resource_action validating_env
                               (mkEnviron None None) ascii_library
                               (Data list_type_request) fresh_world)))
  = Some 0.
Proof. vm_compute. split; reflexivity. Qed.

(** X28. [perform_resource_action] answers an error with status 400 or 500.
    A request whose body cannot be read is answered 500; so is, if it has
    credentials, a request with a value under 'action' that is no string. A
    request in which the resource id, the resource type or the region is
    absent or falsy (null, empty, zero, false) is answered with an error,
    and the world is as it was. On a request whose resource id, resource
    type and region are strings, null or absent, every error leaves the
    world as it was, no request made to the provider and no session, and
    its status is 500 only in the two cases above. *)
Theorem resource_action_refusal (E : Env) (environ : Environ) (L : Library)
    (request : Body ActionRequest) (w : world) :
  (forall status error details,
     fst (perform_resource_action E environ L request w)
       = ActionError status error details ->
     (status = 400 \/ status = 500) /\
     ((forall req, request = Data req -> typed_fields (ar_data req)) ->
      snd (perform_resource_action E environ L request w) = w /\
      (status = 500 ->
       (exists text, request = Unreadable text) \/
       (exists req, request = Data req /\ action_string (ar_data req) = None)))) /\
  (forall text, request = Unreadable text ->
     exists details,
       perform_resource_action E environ L request w
       = (ActionError 500 "Internal server error" details, w)) /\
  (forall req,
     request = Data req -> action_string (ar_data req) = None ->
     is_Ok (fst (extract_credentials_from_request (ar_credentials req) w)) = true ->
     exists details,
       perform_resource_action E environ L request w
       = (ActionError 500 "Internal server error" details, w)) /\
  (forall req key,
     request = Data req ->
     key ∈ ["resource_id"; "resource_type"; "region"] ->
     json_truthy (obj_get (ar_data req) key) = false ->
     exists status error details,
       perform_resource_action E environ L request w
       = (ActionError status error details, w)).
Proof.
  destruct request as [text|req].
  { split; [|split; [|split]].
    - intros ? ? ? [= <- <- <-]. split; [by right|]. intros _.
      split; [done|]. intros _. left. eauto.
    - intros ? _. eexists. reflexivity.
    - intros ? [=].
    - intros ? ? [=]. }
  destruct (perform_resource_action E environ L (Data req) w)
    as [response w'] eqn:Hrun.
  cbn [fst snd].
  pose proof (resource_action_cases E environ _ _ _ _ _ Hrun) as Hcases.
  split; [|split; [|split]].
  - intros status error details ->.
    destruct Hcases as [(-> & st & er & de & [= <- <- <-] & Hst)
                       |(a & s & act & Hact & _ & _ & _ & Hex)].
    + split; [destruct Hst as [?|[? _]]; auto|].
      intros _. split; [done|]. intros ->.
      destruct Hst as [[=]|(_ & Hn & _)]. right. eauto.
    + destruct (execute_action_json E L _ _ _ act (bulk_world w a s))
        as [[result|e] w1] eqn:Hj.
      { destruct Hex as [[=] _]. }
      destruct Hex as (-> & st & er & de & [= <- <- <-] & Hst).
      split; [done|]. intros Ht.
      destruct (execute_action_json_requests E L _ act (bulk_world w a s)
                  (Ht req eq_refl)) as (r2 & w2 & new & Hj' & _).
      rewrite Hj in Hj'. discriminate Hj'.
  - intros ? [=].
  - intros req' [= <-] Hn Hc.
    revert Hrun. unfold perform_resource_action.
    destruct (extract_credentials_cases (ar_credentials req) w)
      as [(a & s & Hx & Hi) | Hx]; [|by rewrite Hx in Hc].
    rewrite (bind_Ok _ _ _ _ _ Hx).
    unfold action_string in Hn.
    destruct (ar_data req !! "action") as [[| | | |str| |]|]; try discriminate Hn.
    all: simpl; intros [= <- <-]; eexists; reflexivity.
  - intros req' key [= <-] Hkey Hf.
    destruct Hcases as [(-> & st & er & de & -> & _)
                       |(a & s & act & _ & Hid & Hty & Hreg & _)].
    + eauto.
    + repeat (apply elem_of_cons in Hkey as [->|Hkey]; [congruence|]).
      by apply elem_of_nil in Hkey.
Qed.

Lemma resource_action_refusal_witness :
  exists status error details,
    perform_resource_action validating_env (mkEnviron None None) ascii_library
      (Data stop_request_without_id) fresh_world
    = (ActionError status error details, fresh_world).
Proof.
  apply (proj2 (proj2 (proj2 (resource_action_refusal validating_env
                  (mkEnviron None None) ascii_library
                  (Data stop_request_without_id) fresh_world)))
           stop_request_without_id "resource_id").
  - reflexivity.
  - constructor.
  - vm_compute. reflexivity.
Defined.
(** * Further properties: the bulk endpoint *)

Section Bulk_more.

Context (E : Env) (L : Library).

Lemma typed_entry_is_object e : typed_entry e -> is_object e.
Proof. intros (members & -> & _). by exists members. Qed.

(** the requests of one entry with typed fields: at most one changes a
    resource, and one does when the outcome is a success *)
Lemma bulk_entry_requests e w :
  typed_entry e ->
  exists o w' new,
    bulk_entry E L e w = (Ok o, w') /\
    history w' = history w ++ new /\ heap w' = heap w /\
    length (mutations new) <= 1 /\
    (bo_success o = true -> length (mutations new) = 1).
Proof.
  intros (data & -> & Ht). unfold bulk_entry, try_except.
  unfold bind at 1, as_object at 1, ret at 1. cbv beta iota.
  destruct (parse_action L data w) as [[action|ex] w0] eqn:Hp.
  - assert (w0 = w) as ->.
    { pose proof (proj1 (parse_action_spec L data w)) as H.
      by rewrite Hp in H. }
    rewrite (bind_Ok _ _ _ _ _ Hp).
    destruct (execute_action_json_requests E L data action w Ht)
      as (result & w1 & new & Hex & _ & _ & _ & Hh & Hheap & Hm1 & Hm2).
    rewrite (bind_Ok _ _ _ _ _ Hex).
    eexists _, w1, new. split; [reflexivity|]. done.
  - assert (w0 = w) as ->.
    { pose proof (proj1 (parse_action_spec L data w)) as H.
      by rewrite Hp in H. }
    rewrite (bind_Raise _ _ _ _ _ Hp). simpl.
    eexists _, w, []. split; [reflexivity|]. rewrite app_nil_r.
    split; [done|]. split; [done|]. simpl. split; [lia|discriminate].
Qed.

Lemma count_successful_cons o os :
  count_successful (o :: os)
  = (if bo_success o then 1 else 0) + count_successful os.
Proof.
  unfold count_successful. rewrite filter_cons.
  destruct (bo_success o); case_decide; simpl; congruence.
Qed.

(** the requests of the loop over typed entries: between the number of
    successes and the number of entries change a resource *)
Lemma bulk_loop_requests l : Forall typed_entry l -> forall w,
  exists os w' new,
    (forall acc, bulk_loop E L l acc w = (Ok (acc ++ os), w')) /\
    length os = length l /\
    history w' = history w ++ new /\ heap w' = heap w /\
    count_successful os <= length (mutations new) <= length l.
Proof.
  induction 1 as [|e l He _ IH]; intros w.
  - exists [], w, []. split; [intros acc; simpl; by rewrite app_nil_r|].
    rewrite app_nil_r. simpl. repeat split; try done; lia.
  - destruct (bulk_entry_requests e w He)
      as (o & w1 & n1 & He' & Hh1 & Hp1 & Hm1 & Hs1).
    destruct (IH w1) as (os & w' & n2 & Hloop & Hlen & Hh2 & Hp2 & Hm2).
    exists (o :: os), w', (n1 ++ n2).
    split; [|split; [|split; [|split]]].
    + intros acc. simpl. rewrite (bind_Ok _ _ _ _ _ He'), Hloop.
      by rewrite <- app_assoc.
    + simpl. lia.
    + by rewrite Hh2, Hh1, app_assoc.
    + congruence.
    + rewrite mutations_app, length_app, count_successful_cons. simpl.
      destruct (bo_success o); [rewrite (Hs1 eq_refl)|]; lia.
Qed.

(** an entry that is no object: its handler raises again *)
Lemma bulk_entry_raises e w :
  ~ is_object e ->
  bulk_entry E L e w = (Raise (no_attribute e "get"), w).
Proof.
  intros Hn. destruct e; try reflexivity. destruct Hn. by eexists.
Qed.

Lemma is_object_dec e : {is_object e} + {~ is_object e}.
Proof.
  destruct e; try (right; by intros [? [=]]). left. by eexists.
Qed.

(** the loop over entries of which one is no object raises *)
Lemma bulk_loop_raises l :
  ~ Forall is_object l -> forall acc w,
  exists ex w', bulk_loop E L l acc w = (Raise ex, w') /\ is_ValueError ex = false.
Proof.
  induction l as [|e l IH]; intros Hn acc w.
  - destruct Hn. constructor.
  - simpl. destruct (is_object_dec e) as [He|He].
    + destruct (bulk_entry_Ok E L e w He) as (o & w1 & Ho).
      rewrite (bind_Ok _ _ _ _ _ Ho). apply IH.
      intros Hl. apply Hn. by constructor.
    + rewrite (bind_Raise _ _ _ _ _ (bulk_entry_raises e w He)).
      eexists _, _. split; [reflexivity|]. reflexivity.
Qed.

(** the loop of the endpoint on a truthy value that is no list raises *)
Lemma bulk_for_raises v w :
  (forall entries, v <> JArr entries) ->
  exists ex, bulk_for E L v w = (Raise ex, w) /\ is_ValueError ex = false.
Proof.
  intros Hv. destruct v as [|b|n|f|str|entries|members];
    try (eexists; split; reflexivity).
  by destruct (Hv entries).
Qed.

End Bulk_more.

(** X29. The bulk endpoint answers 200 exactly for a request with
    credentials and a non-empty list of entries that are all objects; the
    session made for the request has then been torn down, and if the
    resource id, the resource type and the region of every entry are
    strings, null or absent, the credential strings are as they were and the
    number of requests that changed a resource is at least the number of
    successful outcomes and at most the number of entries. It answers 400
    when the credentials are missing or the actions are absent or falsy,
    and the world is then as it was. It answers 500 when the body cannot be
    read, or when the actions are a truthy value that is no list of
    objects. *)
Theorem bulk_endpoint_bounds (E : Env) (L : Library)
    (request : Body BulkRequest) (w : world) :
  (forall total_actions successful failed results,
     fst (perform_bulk_action E L request w)
       = Response200 total_actions successful failed results ->
     cleaned (session (snd (perform_bulk_action E L request w))) /\
     exists req entries,
       request = Data req /\ actions req = Some (JArr entries) /\
       entries <> [] /\ Forall is_object entries /\
       total_actions = length entries /\
       (Forall typed_entry entries ->
        heap (snd (perform_bulk_action E L request w)) = heap w /\
        exists new,
          history (snd (perform_bulk_action E L request w)) = history w ++ new /\
          successful <= length (mutations new) <= total_actions)) /\
  (forall error,
     fst (perform_bulk_action E L request w) = Response400 error ->
     snd (perform_bulk_action E L request w) = w /\
     exists req,
       request = Data req /\
       ((error = "AWS credentials missing from request" /\
         is_Ok (fst (extract_credentials_from_request req w)) = false) \/
        (error = "No actions provided" /\
         json_truthy (default (JArr []) (actions req)) = false))) /\
  (forall error,
     fst (perform_bulk_action E L request w) = Response500 error ->
     (exists text, request = Unreadable text) \/
     (exists req v,
        request = Data req /\ actions req = Some v /\ json_truthy v = true /\
        ~ (exists entries, v = JArr entries /\ Forall is_object entries))).
Proof.
  destruct request as [text|req].
  { split; [|split]; [intros ? ? ? ? [=] | intros ? [=] | eauto]. }
  destruct (perform_bulk_action E L (Data req) w) as [response w'] eqn:Hrun.
  cbn [fst snd]. revert Hrun. unfold perform_bulk_action.
  destruct (extract_credentials_cases req w) as [(a & s & Hx & Hi) | Hx].
  2:{ rewrite (bind_Raise _ _ _ _ _ Hx). simpl. intros [= <- <-].
      split; [|split]; [intros ? ? ? ? [=] | | intros ? [=]].
      intros ? [= <-]. split; [done|]. exists req. split; [done|]. left.
      by rewrite Hx. }
  rewrite (bind_Ok _ _ _ _ _ Hx).
  destruct (json_truthy (default (JArr []) (actions req))) eqn:Htruthy;
    cbn [negb].
  2:{ intros [= <- <-].
      split; [|split]; [intros ? ? ? ? [=] | | intros ? [=]].
      intros ? [= <-]. split; [done|]. exists req. split; [done|]. by right. }
  destruct (actions req) as [v|] eqn:Hact; [|discriminate Htruthy].
  cbn [default from_option] in *. unfold id in *.
  unfold bind at 1, get_state at 1. cbv beta iota.
  unfold bind at 1, of_res at 1. cbn [fst snd].
  rewrite Hi. cbv beta iota.
  unfold bind at 1, modify at 1. cbv beta iota.
  change (mkWorld (heap w) (session (bulk_world w a s)) (history w))
    with (bulk_world w a s).
  assert (Hlist : (exists entries, v = JArr entries /\ Forall is_object entries)
                  \/ ~ (exists entries, v = JArr entries /\ Forall is_object entries)).
  { destruct v as [| | | | |entries|]; try (right; by intros (? & [=] & _)).
    assert ({Forall is_object entries} + {~ Forall is_object entries}) as [Hd|Hd]
      by (apply Forall_dec; intros; apply is_object_dec).
    - left. by exists entries.
    - right. by intros (? & [= <-] & Ho). }
  destruct Hlist as [(entries & -> & Hobj) | Hno].
  - destruct (bulk_loop_Ok E L entries Hobj (bulk_world w a s))
      as (os & w1 & Hlen & Hloop).
    specialize (Hloop []). rewrite app_nil_l in Hloop.
    unfold bulk_for. rewrite (bind_Ok _ _ _ _ _ Hloop).
    unfold bind, cleanup, modify, ret. cbn [fst snd].
    intros [= <- <-].
    split; [|split]; [ | intros ? [=] | intros ? [=]].
    intros ? ? ? ? [= <- <- <- <-]. split; [done|].
    exists req, entries. split; [done|]. split; [done|].
    split; [by destruct entries|]. split; [done|]. split; [done|].
    intros Hty.
    destruct (bulk_loop_requests E L entries Hty (bulk_world w a s))
      as (os' & w1' & new & Hloop' & _ & Hh & Hp & Hm).
    specialize (Hloop' []). rewrite app_nil_l, Hloop in Hloop'.
    injection Hloop' as <- <-. cbn [heap history].
    split; [exact Hp|]. exists new. split; [exact Hh|].
    rewrite Hlen. exact Hm.
  - assert (exists ex w1, bulk_for E L v (bulk_world w a s) = (Raise ex, w1)
                          /\ is_ValueError ex = false) as (ex & w1 & Hr & Hv).
    { destruct v as [| | | | |entries|];
        try (match goal with |- context [bulk_for E L ?v _] =>
               destruct (bulk_for_raises E L v (bulk_world w a s))
                 as (ex & Hr & Hv); [intros ?; discriminate|];
               by exists ex, (bulk_world w a s)
             end).
      apply bulk_loop_raises. intros Ho. apply Hno. eauto. }
    rewrite (bind_Raise _ _ _ _ _ Hr), Hv. intros [= <- <-].
    split; [|split]; [intros ? ? ? ? [=] | intros ? [=] | ].
    intros _ _. right. exists req, v. done.
Qed.

Lemma bulk_endpoint_bounds_witness :
  exists new,
    history (snd (perform_bulk_action validating_env ascii_library
                    (Data three_entries_request) fresh_world))
      = history fresh_world ++ new /\
    2 <= length (mutations new) <= 3.
Proof.
  destruct (proj1 (bulk_endpoint_bounds validating_env ascii_library
                     (Data three_entries_request) fresh_world)
              3 2 1
              [ mkBulkOutcome (JStr "i-0abc") true
                  "Instance stop initiated. Current state: running";
                mkBulkOutcome JNull false "Unexpected error during action execution";
                mkBulkOutcome (JStr "i-0abc") true
                  "Instance stop initiated. Current state: running" ])
    as (_ & req & entries & Hreq & Hact & _ & _ & _ & Hty).
  - vm_compute. reflexivity.
  - injection Hreq as <-. injection Hact as <-.
    destruct Hty as (_ & new & Hh & Hm); [|by exists new].
    repeat constructor; eexists; (split; [reflexivity|]);
      intros key Hkey;
      repeat (apply elem_of_cons in Hkey as [->|Hkey]; [vm_compute; eauto|]);
      by apply elem_of_nil in Hkey.
Defined.
(** * Further properties: the scan endpoint *)

Section Credentials_facts.

Context (E : Env).

Lemma kc_ret {A} (a : A) : keeps_credentials (ret a).
Proof. by intros w r w' [= _ <-]. Qed.

Lemma kc_raise {A} e : keeps_credentials (@raise world A e).
Proof. by intros w r w' [= _ <-]. Qed.

Lemma kc_get_state : keeps_credentials get_state.
Proof. by intros w r w' [= _ <-]. Qed.

Lemma kc_bind {A B} (m : M world A) (k : A -> M world B) :
  keeps_credentials m -> (forall a, keeps_credentials (k a)) ->
  keeps_credentials (bind m k).
Proof.
  intros Hm Hk w r w' H. unfold bind in H.
  destruct (m w) as [[a|e] w1] eqn:Em.
  - destruct (Hm _ _ _ Em) as [H1 H2]. destruct (Hk a _ _ _ H) as [H3 H4].
    split; congruence.
  - inversion H; subst. eapply Hm; eauto.
Qed.

Lemma kc_try_except {A} (m : M world A) c h :
  keeps_credentials m -> (forall e, keeps_credentials (h e)) ->
  keeps_credentials (try_except m c h).
Proof.
  intros Hm Hh w r w' H. unfold try_except in H.
  destruct (m w) as [[a|e] w1] eqn:Em.
  - inversion H; subst. eapply Hm; eauto.
  - destruct (c e).
    + destruct (Hm _ _ _ Em) as [H1 H2]. destruct (Hh e _ _ _ H) as [H3 H4].
      split; congruence.
    + inversion H; subst. eapply Hm; eauto.
Qed.

Lemma kc_getitem {A} key (o : option A) : keeps_credentials (getitem key o).
Proof. destruct o; [apply kc_ret | apply kc_raise]. Qed.

Lemma kc_request r : keeps_credentials (request_ E r).
Proof. by intros w x w' [= _ <-]. Qed.

Lemma kc_get_client service region : keeps_credentials (get_client E service region).
Proof.
  unfold get_client. apply kc_bind; [apply kc_get_state|]. intros st.
  destruct (_clients (session st) !! _); [apply kc_ret|].
  destruct (_session (session st)); [|apply kc_raise].
  apply kc_bind; [apply kc_request|]. intros _.
  apply kc_bind; [|intros _; apply kc_ret].
  by intros w r w' [= _ <-].
Qed.

Lemma kc_region_names l : keeps_credentials (region_names l).
Proof.
  induction l as [|x l IH]; simpl; [apply kc_ret|].
  apply kc_bind; [apply kc_getitem|]. intros ?.
  apply kc_bind; [apply IH|]. intros ?. apply kc_ret.
Qed.

Lemma kc_get_regions : keeps_credentials (get_regions E).
Proof.
  unfold get_regions. apply kc_try_except; [|intros ?; apply kc_ret].
  apply kc_bind; [apply kc_get_state|]. intros ?.
  apply kc_bind; [apply kc_get_client|]. intros ec2.
  apply kc_bind; [exact (kc_request (Call ec2 Op.describe_regions))|]. intros ?.
  apply kc_bind; [apply kc_getitem|]. intros ?.
  apply kc_bind; [apply kc_region_names|]. intros ?. apply kc_ret.
Qed.

(** a scan returns with a valid pool size, or raises at its start, with the
    credential attributes as they were; either way it only reads *)
Lemma scan_cases max_workers schedule self w r self' w' :
  scan E max_workers schedule (self, w) = (r, (self', w')) ->
  only_reads_since w w' /\ heap w' = heap w /\
  match r with
  | Ok _ => (0 < max_workers)%Z
  | Raise _ =>
      _access_key (session w') = _access_key (session w) /\
      _secret_key (session w') = _secret_key (session w)
  end.
Proof.
  destruct (get_regions E w) as [[regions|eg] w1] eqn:Hg.
  - pose proof (ro_get_regions E _ _ _ Hg) as [R1 G1]. simpl in R1, G1.
    pose proof (kc_get_regions _ _ _ Hg) as K1.
    destruct (Z.leb_spec max_workers 0) as [Hle|Hlt].
    + unfold scan. rewrite (bind_Ok _ _ _ _ _ (lift_eq _ self _ _ _ Hg)).
      destruct (Z.leb_spec max_workers 0) as [_|?]; [|lia].
      unfold bind, raise. simpl. intros [= <- <- <-]. done.
    + destruct (run_tasks_spec E (concat (map regional_tasks regions)) w1)
        as (fs & w2 & Hfs & _ & _).
      pose proof (run_tasks_reads_only E _ _ _ _ Hfs) as [R2 G2].
      simpl in R2, G2.
      destruct (scan_exact E max_workers w regions w1 fs w2 Hlt Hg Hfs)
        as (grs & gerrs & w3 & R3 & G3 & Hscan).
      rewrite (Hscan schedule self). intros [= <- <- <-].
      split; [|split; [congruence|done]].
      eapply only_reads_since_trans; [exact R1|].
      eapply only_reads_since_trans; [exact R2|exact R3].
  - pose proof (ro_get_regions E _ _ _ Hg) as [R1 G1]. simpl in R1, G1.
    pose proof (kc_get_regions _ _ _ Hg) as K1.
    unfold scan. rewrite (bind_Raise _ _ _ _ _ (lift_eq _ self _ _ _ Hg)).
    intros [= <- <- <-]. done.
Qed.

End Credentials_facts.

(** X30. The scan endpoint never changes a resource: every request it makes
    to the provider is a read, and the credential strings are left as they
    are. When it answers with the data of a scan, the pool size was positive
    and the session has been torn down. When it answers with a failure, the
    request had no credentials and the world is as it was, or the scan
    raised and the teardown was skipped: the session manager still refers to
    the credentials. A pool size that is not positive always gives a
    failure. *)
Theorem scan_endpoint_reads_only (E : Env) (environ : Environ)
    (schedule : list nat) (req : ScanRequest) (w : world) :
  only_reads_since w (snd (scan_resources E environ schedule req w)) /\
  heap (snd (scan_resources E environ schedule req w)) = heap w /\
  match fst (scan_resources E environ schedule req w) with
  | ScanData _ =>
      (0 < default 5 (sr_max_workers req))%Z /\
      cleaned (session (snd (scan_resources E environ schedule req w)))
  | ScanFailure status error details =>
      snd (scan_resources E environ schedule req w) = w \/
      (is_Some (_access_key (session (snd (scan_resources E environ schedule req w)))) /\
       is_Some (_secret_key (session (snd (scan_resources E environ schedule req w)))))
  end.
Proof.
  destruct (scan_resources E environ schedule req w) as [response w'] eqn:Hrun.
  cbn [fst snd]. revert Hrun. unfold scan_resources.
  destruct (extract_credentials_cases (sr_credentials req) w)
    as [(a & s & Hx & Hi) | Hx].
  2:{ rewrite (bind_Raise _ _ _ _ _ Hx). simpl. intros [= <- <-].
      split; [apply only_reads_since_refl|]. split; [done|]. by left. }
  rewrite (bind_Ok _ _ _ _ _ Hx).
  unfold bind at 1, AWSResourceScanner_init at 1. cbn [fst snd].
  rewrite Hi. cbv beta iota.
  change (mkWorld (heap w) (session (bulk_world w a s)) (history w))
    with (bulk_world w a s).
  unfold bind at 1.
  destruct (scan E (default 5%Z (sr_max_workers req)) schedule
              (mkAWSResourceScanner [], bulk_world w a s))
    as [[result|e] [self1 w1]] eqn:Hscan;
    destruct (scan_cases E _ _ _ _ _ _ _ Hscan) as (R & G & C).
  - unfold bind, scanner_cleanup, lift, cleanup, modify, ret. simpl.
    intros [= <- <-]. simpl. split; [|split; [exact G|]].
    + destruct R as (new & Hh & Hall). exists new. done.
    + split; [exact C | done].
  - simpl in C. destruct C as [C1 C2].
    assert (Hw : only_reads_since w w1 /\ heap w1 = heap w /\
                 (w1 = w \/ is_Some (_access_key (session w1)) /\
                            is_Some (_secret_key (session w1)))).
    { split; [destruct R as (new & Hh & Hall); by exists new|].
      split; [exact G|]. right. rewrite C1, C2. split; by eexists. }
    destruct (is_ValueError e); intros [= <- <-]; exact Hw.
Qed.
